(** * Whitecore client: the web application and its chat-bot front end

    A shallow embedding of the server (the Express application with its
    SQLite tables, its session fields, its upload slots and its Telegram
    commands) followed by the properties established about it.

    Conventions of the embedding.
    - A JavaScript string is a Rocq string holding its UTF-8 text.  Its
      length, trimming and the class [\s] follow JavaScript on code units
      and Unicode white space; lower-casing is JavaScript's on ASCII text
      and the engine's Unicode mapping on any other text.
    - The framework is Express 4: routes match in either letter case and
      with an optional final slash, and a HEAD request runs the GET
      route.  What [send] finds for a path of a static mount is left to
      the runtime.
    - [path] is Node's POSIX flavour.
    - A handler is a function of the request context (session and server
      state) returning either a response with the new context or the error
      it threw.  Every [await] runs to completion before the next one.
    - Random and clock inputs (captcha text, bcrypt salt, [Date.now()]) are
      handed to a request in its environment. *)

From Stdlib Require Import Ascii String.
From stdpp Require Import base option list strings pretty gmap sets.



(* ================================================================== *)
(** * JavaScript strings

    A string is kept as its UTF-8 text, which is well formed for every
    string the program is handed; its characters, code points and UTF-16
    code units are read off the bytes. *)

(** What the JavaScript engine brings along: the Unicode case mapping of
    the version it was built with (with its special cases, the final
    sigma among them), used by [String.prototype.toLowerCase] on a text
    that has characters outside ASCII. *)
Class Engine : Type := {
  lowerUnicode : string -> string
}.

Module Js.

(** Truthiness of a string: only the empty string is falsy. *)
Definition truthy (s : string) : bool :=
  match s with EmptyString => false | String _ _ => true end.

(** [a || b] on strings. *)
Definition or_else (a b : string) : string := if truthy a then a else b.

(** Every byte of a text satisfies a test. *)
Fixpoint every (p : ascii -> bool) (s : string) : bool :=
  match s with
  | EmptyString => true
  | String c r => p c && every p r
  end.

(** ** Characters and code units *)

Definition is_ascii (c : ascii) : bool := (nat_of_ascii c <? 128)%nat.

(** The bytes from 128 to 191 continue a character. *)
Definition is_continuation (c : ascii) : bool :=
  (128 <=? nat_of_ascii c)%nat && (nat_of_ascii c <? 192)%nat.

(** The characters of a text, each with its bytes. *)
Fixpoint chars (s : string) : list string :=
  match s with
  | EmptyString => []
  | String c r =>
      let rest := chars r in
      match r with
      | EmptyString => [String c EmptyString]
      | String d _ =>
          if is_continuation d
          then match rest with
               | ch :: more => String c ch :: more
               | [] => [String c EmptyString]
               end
          else String c EmptyString :: rest
      end
  end.

Fixpoint concat (l : list string) : string :=
  match l with
  | [] => EmptyString
  | x :: rest => x +:+ concat rest
  end.

Definition byte (c : ascii) : N := N_of_ascii c.

(** The code point a character encodes; U+FFFD for bytes that encode
    none. *)
Definition codePoint (ch : string) : N :=
  let bad := 0xFFFD%N in
  match ch with
  | String a EmptyString => if is_ascii a then byte a else bad
  | String a (String b EmptyString) =>
      let cp := ((byte a mod 32) * 64 + byte b mod 64)%N in
      if (192 <=? byte a)%N && (byte a <? 224)%N && (0x80 <=? cp)%N then cp else bad
  | String a (String b (String c EmptyString)) =>
      let cp := ((byte a mod 16) * 4096 + (byte b mod 64) * 64 + byte c mod 64)%N in
      if (224 <=? byte a)%N && (byte a <? 240)%N && (0x800 <=? cp)%N
         && negb ((0xD800 <=? cp)%N && (cp <=? 0xDFFF)%N)
      then cp else bad
  | String a (String b (String c (String d EmptyString))) =>
      let cp := ((byte a mod 8) * 262144 + (byte b mod 64) * 4096
                 + (byte c mod 64) * 64 + byte d mod 64)%N in
      if (240 <=? byte a)%N && (byte a <? 248)%N && (0x10000 <=? cp)%N
         && (cp <=? 0x10FFFF)%N
      then cp else bad
  | _ => bad
  end.

(** The UTF-16 code units of a code point: one, or a surrogate pair. *)
Definition codeUnits (cp : N) : list N :=
  if (cp <? 0x10000)%N then [cp]
  else [(0xD800 + (cp - 0x10000) / 0x400)%N; (0xDC00 + (cp - 0x10000) mod 0x400)%N].

(** The code units of a string, which is what JavaScript indexes. *)
Definition units (s : string) : list N :=
  flat_map (fun ch => codeUnits (codePoint ch)) (chars s).

(** [s.length]. *)
Definition length (s : string) : nat := List.length (units s).

(** ** Case *)

Definition is_upper (c : ascii) : bool :=
  (65 <=? nat_of_ascii c)%nat && (nat_of_ascii c <=? 90)%nat.

Definition lower_char (c : ascii) : ascii :=
  if is_upper c then ascii_of_nat (nat_of_ascii c + 32) else c.

(** Lower case for the letters A to Z, every other byte as it is. *)
Fixpoint asciiLower (s : string) : string :=
  match s with
  | EmptyString => EmptyString
  | String c r => String (lower_char c) (asciiLower r)
  end.

(** [String.prototype.toLowerCase]: on ASCII text the letters A to Z are
    folded; a text with other characters goes through the engine's
    Unicode case mapping. *)
Definition toLowerCase `{Engine} (s : string) : string :=
  if every is_ascii s then asciiLower s else lowerUnicode s.

(** ** White space *)

(** [WhiteSpace] and [LineTerminator] of ECMAScript, which is what [\s]
    matches and [trim] strips: TAB, LF, VT, FF, CR, SP, NBSP, the other
    space separators of Unicode, LS, PS and the byte order mark. *)
Definition is_space (u : N) : bool :=
  ((0x09 <=? u)%N && (u <=? 0x0D)%N)
  || (u =? 0x20)%N || (u =? 0xA0)%N || (u =? 0x1680)%N
  || ((0x2000 <=? u)%N && (u <=? 0x200A)%N)
  || (u =? 0x2028)%N || (u =? 0x2029)%N || (u =? 0x202F)%N
  || (u =? 0x205F)%N || (u =? 0x3000)%N || (u =? 0xFEFF)%N.

Definition spaceChar (ch : string) : bool := is_space (codePoint ch).

Fixpoint dropWhile {A : Type} (p : A -> bool) (l : list A) : list A :=
  match l with
  | [] => []
  | x :: rest => if p x then dropWhile p rest else l
  end.

(** [String.prototype.trim]. *)
Definition trim (s : string) : string :=
  concat (rev (dropWhile spaceChar (rev (dropWhile spaceChar (chars s))))).

(** [s.split(/\s+/)]: the pieces between maximal runs of white space; a
    run at either end leaves an empty piece there. *)
Fixpoint split_go (cur : list string) (in_gap : bool) (l : list string)
    : list string :=
  match l with
  | [] => [concat (rev cur)]
  | ch :: r =>
      if spaceChar ch
      then if in_gap then split_go cur true r
           else concat (rev cur) :: split_go [] true r
      else split_go (ch :: cur) false r
  end.

Definition split_spaces (s : string) : list string :=
  split_go [] false (chars s).

(** [String.prototype.startsWith]. *)
Definition startsWith (s p : string) : bool := String.prefix p s.

(** [String.prototype.endsWith]: the last [length p] characters are [p]. *)
Definition endsWith (s p : string) : bool :=
  let n := String.length s in
  let m := String.length p in
  (m <=? n)%nat && String.eqb (String.substring (n - m) m s) p.

(** [s.replace(/^[\\/]/, '')]: one leading slash or backslash is dropped. *)
Definition stripLeadingSlash (s : string) : string :=
  match s with
  | String c r => if Ascii.eqb c "/" || Ascii.eqb c "\" then r else s
  | EmptyString => EmptyString
  end.

(** ** Regular expressions, matched against the whole string

    A pattern without the [u] flag reads a string code unit by code
    unit. *)

Inductive regex : Type :=
| Void
| Eps
| Class (p : N -> bool)
| Cat (r1 r2 : regex)
| Alt (r1 r2 : regex)
| Star (r : regex).

Definition Plus (r : regex) : regex := Cat r (Star r).

Fixpoint nullable (r : regex) : bool :=
  match r with
  | Void => false
  | Eps => true
  | Class _ => false
  | Cat r1 r2 => nullable r1 && nullable r2
  | Alt r1 r2 => nullable r1 || nullable r2
  | Star _ => true
  end.

Fixpoint deriv (u : N) (r : regex) : regex :=
  match r with
  | Void => Void
  | Eps => Void
  | Class p => if p u then Eps else Void
  | Cat r1 r2 =>
      if nullable r1
      then Alt (Cat (deriv u r1) r2) (deriv u r2)
      else Cat (deriv u r1) r2
  | Alt r1 r2 => Alt (deriv u r1) (deriv u r2)
  | Star r1 => Cat (deriv u r1) (Star r1)
  end.

Fixpoint accepts (r : regex) (l : list N) : bool :=
  match l with
  | [] => nullable r
  | u :: l' => accepts (deriv u r) l'
  end.

(** [/^r$/.test(s)]. *)
Definition test (r : regex) (s : string) : bool := accepts r (units s).

Definition chr (u : N) : regex := Class (N.eqb u).

(** The sequences of code units a regular expression denotes. *)
Inductive Matches : regex -> list N -> Prop :=
| MEps : Matches Eps []
| MClass p u : p u = true -> Matches (Class p) [u]
| MCat r1 r2 l1 l2 :
    Matches r1 l1 -> Matches r2 l2 -> Matches (Cat r1 r2) (l1 ++ l2)
| MAltL r1 r2 l : Matches r1 l -> Matches (Alt r1 r2) l
| MAltR r1 r2 l : Matches r2 l -> Matches (Alt r1 r2) l
| MStarNil r : Matches (Star r) []
| MStarCons r l1 l2 :
    Matches r l1 -> Matches (Star r) l2 -> Matches (Star r) (l1 ++ l2).

(** ** [encodeURIComponent] *)

Definition is_digit (c : ascii) : bool :=
  (48 <=? nat_of_ascii c)%nat && (nat_of_ascii c <=? 57)%nat.

Definition is_lower (c : ascii) : bool :=
  (97 <=? nat_of_ascii c)%nat && (nat_of_ascii c <=? 122)%nat.

Definition is_mark (c : ascii) : bool :=
  existsb (Ascii.eqb c) ["-"; "_"; "."; "!"; "~"; "*"; "'"; "("; ")"]%char.

Definition uri_unreserved (c : ascii) : bool :=
  is_upper c || is_lower c || is_digit c || is_mark c.

Definition hex_digit (n : nat) : ascii :=
  if (n <? 10)%nat then ascii_of_nat (48 + n) else ascii_of_nat (55 + n).

Fixpoint encodeURIComponent (s : string) : string :=
  match s with
  | EmptyString => EmptyString
  | String c r =>
      if uri_unreserved c
      then String c (encodeURIComponent r)
      else String "%" (String (hex_digit (nat_of_ascii c / 16))
             (String (hex_digit (nat_of_ascii c mod 16)) (encodeURIComponent r)))
  end.

Definition hex_value (c : ascii) : option nat :=
  if is_digit c then Some (nat_of_ascii c - 48)
  else if (65 <=? nat_of_ascii c)%nat && (nat_of_ascii c <=? 70)%nat
       then Some (nat_of_ascii c - 55)
  else if (97 <=? nat_of_ascii c)%nat && (nat_of_ascii c <=? 102)%nat
       then Some (nat_of_ascii c - 87)
  else None.

(** [decodeURIComponent], as the query-string parser applies it to the
    value of [next]; [None] stands for the [URIError]. *)
Fixpoint decodeURIComponent (s : string) : option string :=
  match s with
  | EmptyString => Some EmptyString
  | String "%" (String h (String l r)) =>
      match hex_value h, hex_value l, decodeURIComponent r with
      | Some a, Some b, Some r' => Some (String (ascii_of_nat (16 * a + b)) r')
      | _, _, _ => None
      end
  | String "%" _ => None
  | String c r => String c <$> decodeURIComponent r
  end.

End Js.

(* ================================================================== *)
(** * Node's [path] module (POSIX) *)

Module Path.

Definition is_slash (c : ascii) : bool := Ascii.eqb c "/".

(** The pieces of a path between slashes. *)
Fixpoint segments_go (cur : string) (s : string) : list string :=
  match s with
  | EmptyString => [String.rev cur]
  | String c r =>
      if is_slash c then String.rev cur :: segments_go EmptyString r
      else segments_go (String c cur) r
  end.

Definition segments (s : string) : list string := segments_go EmptyString s.

Fixpoint join_with_slash (l : list string) : string :=
  match l with
  | [] => EmptyString
  | [x] => x
  | x :: rest => x +:+ "/" +:+ join_with_slash rest
  end.

(** [path.isAbsolute]. *)
Definition isAbsolute (p : string) : bool :=
  match p with
  | String c _ => is_slash c
  | EmptyString => false
  end.

(** The segment walk of [normalizeString]: the stack holds the kept
    segments, last one first. *)
Fixpoint resolve_dots (allowAboveRoot : bool) (stack : list string)
    (segs : list string) : list string :=
  match segs with
  | [] => stack
  | seg :: rest =>
      if String.eqb seg EmptyString || String.eqb seg "." then
        resolve_dots allowAboveRoot stack rest
      else if String.eqb seg ".." then
        match stack with
        | top :: below =>
            if String.eqb top ".."
            then resolve_dots allowAboveRoot (seg :: stack) rest
            else resolve_dots allowAboveRoot below rest
        | [] =>
            if allowAboveRoot
            then resolve_dots allowAboveRoot [seg] rest
            else resolve_dots allowAboveRoot [] rest
        end
      else resolve_dots allowAboveRoot (seg :: stack) rest
  end.

(** [path.normalize]. *)
Definition normalize (p : string) : string :=
  match p with
  | EmptyString => "."
  | _ =>
      let isAbs := isAbsolute p in
      let trailingSep := Js.endsWith p "/" in
      let body :=
        join_with_slash (rev (resolve_dots (negb isAbs) [] (segments p))) in
      match body with
      | EmptyString =>
          if isAbs then "/" else if trailingSep then "./" else "."
      | _ =>
          let body' := if trailingSep then body +:+ "/" else body in
          if isAbs then "/" +:+ body' else body'
      end
  end.

(** [path.join]: the non-empty arguments, joined by a slash, normalised. *)
Definition join (args : list string) : string :=
  match filter (fun a => Is_true (Js.truthy a)) args with
  | [] => "."
  | parts => normalize (join_with_slash parts)
  end.

Fixpoint dropTrailingSlashes (s : string) : string :=
  match s with
  | EmptyString => EmptyString
  | String c r =>
      match dropTrailingSlashes r with
      | EmptyString => if is_slash c then EmptyString else String c EmptyString
      | r' => String c r'
      end
  end.

(** [path.basename] without a suffix argument. *)
Definition basename (p : string) : string :=
  default EmptyString (last (segments (dropTrailingSlashes p))).

(** The text from the last dot of a name on, and what stands before it. *)
Fixpoint splitLastDot (s : string) : option (string * string) :=
  match s with
  | EmptyString => None
  | String c r =>
      match splitLastDot r with
      | Some (pre, ext) => Some (String c pre, ext)
      | None => if Ascii.eqb c "." then Some (EmptyString, s) else None
      end
  end.

(** [path.extname]: from the last dot of the base name on; empty when
    there is no dot, when the name starts with that dot, and for [..]. *)
Definition extname (p : string) : string :=
  match splitLastDot (basename p) with
  | None => EmptyString
  | Some (pre, ext) =>
      if String.eqb pre EmptyString then EmptyString
      else if String.eqb pre "." && String.eqb ext "." then EmptyString
      else ext
  end.

End Path.

(* ================================================================== *)
(** * Results of asynchronous code *)

(** A JavaScript [Error], by its message. *)
Inductive Error : Type :=
| JsError (message : string).

Definition message_of (e : Error) : string :=
  match e with JsError m => m end.

Inductive result (A : Type) : Type :=
| Ok (a : A)
| Threw (e : Error).

Arguments Ok {A} a.
Arguments Threw {A} e.

(** An [async] function over a mutable state [S]. *)
Definition Async (S A : Type) : Type := S -> result (A * S).

Definition ret {S A : Type} (a : A) : Async S A := fun s => Ok (a, s).

Definition bind {S A B : Type} (m : Async S A) (k : A -> Async S B) : Async S B :=
  fun s => match m s with
           | Ok (a, s') => k a s'
           | Threw e => Threw e
           end.

Definition gets {S A : Type} (f : S -> A) : Async S A := fun s => Ok (f s, s).

Definition modify {S : Type} (f : S -> S) : Async S unit := fun s => Ok (tt, f s).

Definition throw {S A : Type} (e : Error) : Async S A := fun _ => Threw e.

(** Running code written over a part [T] of the state [S]. *)
Definition zoom {S T A : Type} (get : S -> T) (put : T -> S -> S)
    (m : Async T A) : Async S A :=
  fun s => match m (get s) with
           | Ok (a, t') => Ok (a, put t' s)
           | Threw e => Threw e
           end.

Notation "x <- m ;; k" := (bind m (fun x => k))
  (at level 100, m at next level, right associativity).
Notation "m ;;; k" := (bind m (fun _ => k))
  (at level 100, right associativity).

(* ================================================================== *)
(** * The SQLite tables *)

(** Table [users]: [id INTEGER PRIMARY KEY AUTOINCREMENT], [username TEXT
    UNIQUE NOT NULL], [password_hash TEXT NOT NULL], [is_admin INTEGER
    DEFAULT 0], [email TEXT] with a unique index over the non-null values.
    Column [created_at] is never read and is left out. *)
Module Users.

Record row : Type := Row {
  id : nat;
  username : string;
  email : option string;
  password_hash : string;
  is_admin : nat
}.

Definition table : Type := list row.

Definition has_username (name : string) (r : row) : bool :=
  String.eqb (username r) name.

(** [email = ?] is never true of a NULL e-mail. *)
Definition has_email (e : string) (r : row) : bool :=
  match email r with
  | Some x => String.eqb x e
  | None => false
  end.

(** [dbGet] with [WHERE username = ?]: the first matching row. *)
Definition by_username (name : string) (t : table) : option row :=
  List.find (has_username name) t.

(** [dbGet] with [WHERE email = ?]. *)
Definition by_email (e : string) (t : table) : option row :=
  List.find (has_email e) t.

(** [dbGet] with [WHERE username = ? OR email = ?]: SQLite answers the
    two terms of the OR from their indexes, the username's first, so the
    row it hands back is the one with that username when there is one,
    and the one with that e-mail otherwise. *)
Definition by_username_or_email (name e : string) (t : table) : option row :=
  match by_username name t with
  | Some r => Some r
  | None => by_email e t
  end.

(** Rows are never deleted, so AUTOINCREMENT hands out the successor of
    the largest id in the table. *)
Definition next_id (t : table) : nat :=
  S (foldr Nat.max 0 (map id t)).

(** [INSERT INTO users (...)]: the new row's id on success, a rejected
    promise when a uniqueness constraint is violated. *)
Definition insert (name : string) (e : option string) (hash : string)
    (admin : nat) : Async table nat :=
  fun t =>
    if existsb (has_username name) t then
      Threw (JsError "SQLITE_CONSTRAINT: UNIQUE constraint failed: users.username")
    else if match e with
            | Some x => existsb (has_email x) t
            | None => false
            end then
      Threw (JsError "SQLITE_CONSTRAINT: UNIQUE constraint failed: users.email")
    else
      let lastID := next_id t in
      Ok (lastID, t ++ [Row lastID name e hash admin]).

End Users.

(** Table [settings]: [key TEXT PRIMARY KEY], [value TEXT NOT NULL].  The
    rows are kept as a list, so that the primary key is a property to be
    maintained, not one granted by the representation. *)
Module Settings.

Definition table : Type := list (string * string).

Definition has_key (key : string) (kv : string * string) : bool :=
  String.eqb (fst kv) key.

(** [SELECT value FROM settings WHERE key = ?]. *)
Definition select (key : string) (t : table) : option string :=
  snd <$> List.find (has_key key) t.

(** [INSERT INTO settings (key, value) VALUES (?, ?)]. *)
Definition insert (key value : string) : Async table unit :=
  fun t =>
    if existsb (has_key key) t then
      Threw (JsError "SQLITE_CONSTRAINT: UNIQUE constraint failed: settings.key")
    else Ok (tt, t ++ [(key, value)]).

(** [UPDATE settings SET value = ? WHERE key = ?]. *)
Definition overwrite (key value : string) (t : table) : table :=
  map (fun kv => if has_key key kv then (fst kv, value) else kv) t.

(** [INSERT ... ON CONFLICT(key) DO UPDATE SET value = excluded.value]. *)
Definition upsert (key value : string) : Async table unit :=
  fun t =>
    if existsb (has_key key) t then Ok (tt, overwrite key value t)
    else Ok (tt, t ++ [(key, value)]).

(** How many rows carry a key. *)
Definition count (key : string) (t : table) : nat :=
  length (List.filter (has_key key) t).

End Settings.

(** The state the handlers share: both tables and the regular files
    present on disk, by absolute path. *)
Record Server : Type := mkServer {
  users : Users.table;
  settings : Settings.table;
  disk : gset string
}.

Definition on_users {A : Type} (m : Async Users.table A) : Async Server A :=
  zoom users (fun t s => mkServer t (settings s) (disk s)) m.

Definition on_settings {A : Type} (m : Async Settings.table A) : Async Server A :=
  zoom settings (fun t s => mkServer (users s) t (disk s)) m.

(** [fs.existsSync]. *)
Definition existsSync (p : string) (s : Server) : bool := bool_decide (p ∈ disk s).

(** [fs.unlink(p, () => {})]. *)
Definition unlink (p : string) : Async Server unit :=
  modify (fun s => mkServer (users s) (settings s) (disk s ∖ {[p]})).

(** What the storage engine of multer does with an accepted file. *)
Definition writeFile (p : string) : Async Server unit :=
  modify (fun s => mkServer (users s) (settings s) ({[p]} ∪ disk s)).

(* ================================================================== *)
(** * Settings accessors *)

Definition ensureSetting (key fallback : string) : Async Server string :=
  existing <- on_settings (gets (Settings.select key)) ;;
  match existing with
  | None =>
      on_settings (Settings.insert key fallback) ;;;
      ret fallback
  | Some value => ret value
  end.

Definition setSetting (key value : string) : Async Server unit :=
  on_settings (Settings.upsert key value).

Definition getSetting (key fallback : string) : Async Server string :=
  row <- on_settings (gets (Settings.select key)) ;;
  match row with
  | Some value => ret value
  | None => ret fallback
  end.

(* ================================================================== *)
(** * Sessions, requests and responses *)

Module Session.

(** The identity snapshot kept in [req.session.user]. *)
Record user_t : Type := User {
  id : nat;
  username : string;
  email : string;
  isAdmin : bool
}.

Record flash_t : Type := Flash {
  type : string;
  message : string
}.

(** The fields the application keeps in [req.session]; [None] stands for
    both [undefined] and [null]. *)
Record t : Type := Make {
  user : option user_t;
  captcha : option string;
  flash : option flash_t
}.

(** A session nothing has been stored in. *)
Definition fresh : t := Make None None None.

Definition set_user (u : option user_t) (s : t) : t := Make u (captcha s) (flash s).
Definition set_captcha (c : option string) (s : t) : t := Make (user s) c (flash s).
Definition set_flash (f : option flash_t) (s : t) : t := Make (user s) (captcha s) f.

End Session.

(** The urlencoded form fields the handlers read from [req.body]; [None]
    is an absent field. *)
Module Form.

Record t : Type := Make {
  username : option string;
  email : option string;
  password : option string;
  captcha : option string;
  next : option string
}.

Definition empty : t := Make None None None None None.

End Form.

(** A file part of a multipart body, as multer describes it. *)
Module File.

Record t : Type := Make {
  fieldname : string;
  originalname : string;
  mimetype : string
}.

End File.

(** The request methods the framework treats apart; [OTHER] stands for
    the rest (PUT, DELETE and so on). *)
Inductive Method : Type := GET | HEAD | POST | OPTIONS | OTHER.

(** [parseError] says that [express.urlencoded] refused the body (too
    large, an unsupported charset or encoding, too many parameters) and
    called [next(err)]; the form fields are then not read. *)
Record Request : Type := mkRequest {
  method : Method;
  path : string;
  originalUrl : string;
  query_next : option string;
  body : Form.t;
  filePart : option File.t;
  parseError : bool
}.

(** The inputs a request draws from outside the program: the clock, the
    text and picture of a generated captcha, and the salt bcrypt picks. *)
Record Env : Type := mkEnv {
  now : N;
  captchaText : string;
  captchaData : string;
  salt : string
}.

(** [res.locals] as filled by the application ([year] is left out). *)
Record Locals : Type := mkLocals {
  currentUser : option Session.user_t;
  localsFlash : option Session.flash_t
}.

Inductive Value : Type :=
| VString (s : string)
| VBool (b : bool).

(** [Redirect] records the argument of [res.redirect].  The last five
    are answers of the framework and of its static middleware: a file of
    a static mount, the 301 that sends a directory's URL to the same URL
    with a final slash, the answer to an OPTIONS request for a path that
    has routes, and the 404 and 500 of the final handler. *)
Inductive Response : Type :=
| Redirect (location : string)
| Render (view : string) (locals : Locals) (options : list (string * Value))
| Send (contentType : string) (headers : list (string * string)) (data : string)
| Download (file filename : string) (headers : list (string * string))
| StaticFile (file : string)
| DirectoryRedirect
| Allow (methods : string)
| NotFound
| InternalError.

(** What [send] does with a path below the root of a static mount: it
    streams a file, answers 301 for a directory, leaves the request to
    the next middleware (nothing to serve, or an error below 500), or
    fails with an error that is passed on. *)
Inductive StaticOutcome : Type :=
| Served (file : string)
| Directory
| Passed
| Failed.

(** What a request works on: its session and the shared server state. *)
Record Ctx : Type := mkCtx {
  session : Session.t;
  server : Server
}.

Definition Handler : Type := Async Ctx Response.

Definition on_session (f : Session.t -> Session.t) : Async Ctx unit :=
  modify (fun c => mkCtx (f (session c)) (server c)).

Definition await {A : Type} (m : Async Server A) : Async Ctx A :=
  zoom server (fun s c => mkCtx (session c) s) m.

(** [!x] for a value that is a string, [null] or [undefined]. *)
Definition falsy (o : option string) : bool :=
  match o with
  | Some s => negb (Js.truthy s)
  | None => true
  end.

(** Truthiness of a value that is an object or [undefined]. *)
Definition present {A : Type} (o : option A) : bool :=
  match o with
  | Some _ => true
  | None => false
  end.

(** [s !== o] for a string [s]. *)
Definition differs (s : string) (o : option string) : bool :=
  negb (bool_decide (o = Some s)).

(* ================================================================== *)
(** * The framework's routing *)

Module Express.

(** A route path is compiled by path-to-regexp with the framework's
    defaults ([/^\/captcha\/?$/i] for [/captcha]): the letters A to Z
    match in either case, and one final slash may be added or, for a
    route path that ends in one, left out. *)
Definition matchesRoute (route p : string) : bool :=
  let q := Js.asciiLower p in
  let r := Js.asciiLower route in
  String.eqb q r
  || (if Js.endsWith r "/" then String.eqb (q +:+ "/") r
      else String.eqb q (r +:+ "/")).

(** A route registered for GET also takes HEAD requests. *)
Definition handles (route m : Method) : bool :=
  match route, m with
  | GET, GET | GET, HEAD | POST, POST => true
  | _, _ => false
  end.

(** [app.use(mount, ...)] ([/^\/uploads\/?(?=\/|$)/i]): the mount path
    matches in either case and up to a slash or the end; the middleware
    is given the rest of the path, [/] when nothing is left. *)
Definition mounted (mount p : string) : option string :=
  let n := String.length mount in
  let head := String.substring 0 n p in
  let rest := String.substring n (String.length p - n) p in
  if String.eqb (Js.asciiLower head) (Js.asciiLower mount) then
    match rest with
    | EmptyString => Some "/"
    | String "/" EmptyString => Some "/"
    | String "/" (String "/" r) => Some (String "/" r)
    | String "/" _ => Some rest
    | _ => None
    end
  else None.

(** The methods an OPTIONS request is told about, gathered route by
    route. *)
Definition appendMethods (acc methods : list string) : list string :=
  foldl (fun acc m => if existsb (String.eqb m) acc then acc else acc ++ [m])
    acc methods.

Definition options (route : Method) : list string :=
  match route with
  | GET => ["GET"; "HEAD"]
  | POST => ["POST"]
  | _ => []
  end.

(** [options.join(',')]. *)
Fixpoint commas (l : list string) : string :=
  match l with
  | [] => EmptyString
  | [x] => x
  | x :: rest => x +:+ "," +:+ commas rest
  end.

Definition allowed (routes : list (Method * string)) (p : string) : list string :=
  foldl (fun acc r => if matchesRoute (snd r) p
                      then appendMethods acc (options (fst r)) else acc)
    [] routes.

End Express.

(** * The application *)

(** What the process is given by its surroundings: the engine, the
    bcryptjs library ([hash] with the salt it draws made explicit, and
    [compare]), the directory of the script, and [send], the file
    look-up behind [express.static], as a function of the root of the
    mount, the path it is asked for and the files on disk. *)
Class Runtime : Type := {
  runtime_engine :: Engine;
  bcrypt_hash : string -> string -> string;
  bcrypt_compare : string -> string -> bool;
  __dirname : string;
  send : string -> string -> gset string -> StaticOutcome
}.

Section App.

Context `{Runtime}.

Definition UPLOADS_DIR : string := Path.join [__dirname; "uploads"].
Definition DOWNLOADS_DIR : string := Path.join [__dirname; "downloads"].
Definition PUBLIC_DIR : string := Path.join [__dirname; "public"].
Definition DEFAULT_IMAGE_URL : string := "/img/whitecore-placeholder.svg".
Definition DEFAULT_ZIP_PATH : string := Path.join ["downloads"; "whitecore-default.zip"].

Definition ensureAdminUser (env : Env) : Async Server nat :=
  let adminName := "RURI" in
  let adminPass := "Wat3hahak" in
  existing <- on_users (gets (Users.by_username adminName)) ;;
  match existing with
  | Some r => ret (Users.id r)
  | None =>
      let passwordHash := bcrypt_hash adminPass (salt env) in
      on_users (Users.insert adminName None passwordHash 1)
  end.

Definition toAbsolutePath (storedPath : string) : option string :=
  if negb (Js.truthy storedPath) then None
  else if Path.isAbsolute storedPath then Some storedPath
  else
    let normalized := Js.stripLeadingSlash storedPath in
    Some (Path.join [__dirname; normalized]).

(** The tables exist once the schema statements have run; what is left
    of [bootstrap] are the defaults it ensures. *)
Definition bootstrap (env : Env) : Async Server unit :=
  ensureSetting "cheat_image_url" DEFAULT_IMAGE_URL ;;;
  ensureSetting "cheat_zip_path" DEFAULT_ZIP_PATH ;;;
  ensureAdminUser env ;;;
  ret tt.

(** ** multer *)

Definition imageStorage_filename (env : Env) (file : File.t) : string :=
  let ext := Js.or_else (Path.extname (File.originalname file)) ".png" in
  "cheat-" +:+ pretty (now env) +:+ ext.

Definition zipStorage_filename (env : Env) (file : File.t) : string :=
  let ext := Js.or_else (Path.extname (File.originalname file)) ".zip" in
  "whitecore-" +:+ pretty (now env) +:+ ext.

(** The [fileFilter] of [uploadImage]; [Threw] is [cb(new Error(...))]. *)
Definition uploadImage_fileFilter (file : File.t) : result bool :=
  if Js.startsWith (File.mimetype file) "image/" then Ok true
  else Threw (JsError "Допустимы только изображения").

(** The [fileFilter] of [uploadZip]. *)
Definition uploadZip_fileFilter (file : File.t) : result bool :=
  if Js.endsWith (Js.toLowerCase (File.originalname file)) ".zip" then Ok true
  else Threw (JsError "Нужен ZIP архив").

(** [multer({storage, fileFilter}).single(field)]: what its callback
    receives, the error and the name under which [req.file] was stored.
    A part without a file name is skipped, a part of another field is
    refused, the filter decides on the rest, and an accepted file is
    written to the destination before the callback runs. *)
Definition multer_single (field : string)
    (fileFilter : File.t -> result bool)
    (destination : string) (filename : File.t -> string)
    (req : Request) : Async Server (option Error * option string) :=
  match filePart req with
  | None => ret (None, None)
  | Some file =>
      if negb (Js.truthy (File.originalname file)) then ret (None, None)
      else if negb (String.eqb (File.fieldname file) field) then
        ret (Some (JsError "Unexpected field"), None)
      else
        match fileFilter file with
        | Threw e => ret (Some e, None)
        | Ok false => ret (None, None)
        | Ok true =>
            writeFile (Path.join [destination; filename file]) ;;;
            ret (None, Some (filename file))
        end
  end.

(** ** Middleware *)

Definition setFlash (type message : string) : Async Ctx unit :=
  on_session (Session.set_flash (Some (Session.Flash type message))).

(** The middleware filling [res.locals]; it ends by [delete
    req.session.flash]. *)
Definition localsMiddleware : Async Ctx Locals :=
  currentUser <- gets (fun c => Session.user (session c)) ;;
  flash <- gets (fun c => Session.flash (session c)) ;;
  on_session (Session.set_flash None) ;;;
  ret (mkLocals currentUser flash).

Definition requireAuth (req : Request) (next : Handler) : Handler :=
  user <- gets (fun c => Session.user (session c)) ;;
  match user with
  | None => ret (Redirect ("/login?next=" +:+ Js.encodeURIComponent (originalUrl req)))
  | Some _ => next
  end.

Definition requireAdmin (next : Handler) : Handler :=
  user <- gets (fun c => Session.user (session c)) ;;
  if match user with
     | None => true
     | Some u => negb (Session.isAdmin u)
     end
  then ret (Redirect "/login?next=/admin")
  else next.

(** The error handler registered last. *)
Definition errorHandler : Handler :=
  setFlash "error" "Что-то пошло не так. Повторите попытку." ;;;
  ret (Redirect "back").

(** [express.static(root)]: a request that is neither GET nor HEAD is
    passed on; for the mount's own path without a final slash [send] is
    asked for the empty path, otherwise for the path it is given. *)
Definition serveStatic (root : string) (req : Request) (urlPath : string)
    : Async Ctx StaticOutcome :=
  match method req with
  | GET | HEAD =>
      let asked :=
        if String.eqb urlPath "/" && negb (Js.endsWith (path req) "/")
        then EmptyString else urlPath in
      gets (fun c => send root asked (disk (server c)))
  | _ => ret Passed
  end.

(** ** Routes *)

Definition getCaptcha (env : Env) : Handler :=
  on_session (Session.set_captcha (Some (Js.toLowerCase (captchaText env)))) ;;;
  ret (Send "svg" [("Cache-Control", "no-store")] (captchaData env)).

(** [GET /]; the size and date of the archive are not part of the
    embedding. *)
Definition getIndex (req : Request) (locals : Locals) : Handler :=
  cheatImageUrl <- await (getSetting "cheat_image_url" DEFAULT_IMAGE_URL) ;;
  zipPath <- await (getSetting "cheat_zip_path" DEFAULT_ZIP_PATH) ;;
  let absoluteZip := toAbsolutePath zipPath in
  zipExists <- gets (fun c => match absoluteZip with
                             | Some p => existsSync p (server c)
                             | None => false
                             end) ;;
  user <- gets (fun c => Session.user (session c)) ;;
  ret (Render "index" locals
         [("title", VString "Whitecore Client");
          ("cheatImageUrl", VString cheatImageUrl);
          ("zipExists", VBool zipExists);
          ("downloadUrl",
            VString (if present user then "/download" else "/login?next=/"))]).

Definition getRegister (req : Request) (locals : Locals) : Handler :=
  ret (Render "register" locals
         [("title", VString "Регистрация");
          ("next", VString (Js.or_else (default EmptyString (query_next req)) "/"))]).

(** [/^[^@\s]+@[^@\s]+\.[^@\s]+$/]. *)
Definition emailRegex : Js.regex :=
  let part := Js.Plus (Js.Class (fun u => negb ((u =? 0x40)%N || Js.is_space u))) in
  Js.Cat part (Js.Cat (Js.chr 0x40) (Js.Cat part (Js.Cat (Js.chr 0x2E) part))).

Definition postRegister (env : Env) (req : Request) : Handler :=
  let username := default EmptyString (Form.username (body req)) in
  let email := default EmptyString (Form.email (body req)) in
  let password := default EmptyString (Form.password (body req)) in
  let captcha := default EmptyString (Form.captcha (body req)) in
  let next := default "/" (Form.next (body req)) in
  let normalizedUser := Js.trim username in
  let normalizedEmail := Js.toLowerCase (Js.trim email) in
  sessionCaptcha <- gets (fun c => Session.captcha (session c)) ;;
  on_session (Session.set_captcha None) ;;;
  if falsy sessionCaptcha || differs (Js.toLowerCase captcha) sessionCaptcha then
    setFlash "error" "Неверная капча" ;;;
    ret (Redirect "/register")
  else if negb (Js.truthy normalizedUser) || negb (Js.truthy password)
          || negb (Js.truthy normalizedEmail) then
    setFlash "error" "Логин, email и пароль обязательны" ;;;
    ret (Redirect "/register")
  else if (Js.length normalizedUser <? 3)%nat then
    setFlash "error" "Логин должен быть длиннее 3 символов" ;;;
    ret (Redirect "/register")
  else
    if negb (Js.test emailRegex normalizedEmail) then
      setFlash "error" "Укажите корректный email" ;;;
      ret (Redirect "/register")
    else
      existing <- await (on_users (gets (Users.by_username normalizedUser))) ;;
      if present existing then
        setFlash "error" "Такой логин уже существует" ;;;
        ret (Redirect "/register")
      else
        existingEmail <- await (on_users (gets (Users.by_email normalizedEmail))) ;;
        if present existingEmail then
          setFlash "error" "Такой email уже зарегистрирован" ;;;
          ret (Redirect "/register")
        else
          let passwordHash := bcrypt_hash password (salt env) in
          lastID <- await (on_users
                     (Users.insert normalizedUser (Some normalizedEmail) passwordHash 0)) ;;
          on_session (Session.set_user
            (Some (Session.User lastID normalizedUser normalizedEmail false))) ;;;
          setFlash "success" "Аккаунт создан, добро пожаловать!" ;;;
          ret (Redirect (Js.or_else next "/")).

Definition getLogin (req : Request) (locals : Locals) : Handler :=
  ret (Render "login" locals
         [("title", VString "Вход");
          ("next", VString (Js.or_else (default EmptyString (query_next req)) "/"))]).

Definition postLogin (req : Request) : Handler :=
  let username := default EmptyString (Form.username (body req)) in
  let password := default EmptyString (Form.password (body req)) in
  let captcha := default EmptyString (Form.captcha (body req)) in
  let next := default "/" (Form.next (body req)) in
  sessionCaptcha <- gets (fun c => Session.captcha (session c)) ;;
  on_session (Session.set_captcha None) ;;;
  if falsy sessionCaptcha || differs (Js.toLowerCase captcha) sessionCaptcha then
    setFlash "error" "Неверная капча" ;;;
    ret (Redirect "/login")
  else
    let identifier := Js.trim username in
    let identifierLower := Js.toLowerCase identifier in
    user <- await (on_users
              (gets (Users.by_username_or_email identifier identifierLower))) ;;
    match user with
    | None =>
        setFlash "error" "Пользователь не найден" ;;;
        ret (Redirect "/login")
    | Some user =>
        let valid := bcrypt_compare password (Users.password_hash user) in
        if negb valid then
          setFlash "error" "Неверный пароль" ;;;
          ret (Redirect "/login")
        else
          on_session (Session.set_user (Some
            (Session.User (Users.id user) (Users.username user)
               (default EmptyString (Users.email user))
               (negb (Users.is_admin user =? 0)%nat)))) ;;;
          setFlash "success" "Вы вошли в систему" ;;;
          ret (Redirect (Js.or_else next "/"))
    end.

(** [req.session.destroy]: the browser is left with a session nothing
    is stored in. *)
Definition postLogout : Handler :=
  on_session (fun _ => Session.fresh) ;;;
  ret (Redirect "/").

Definition getDownload : Handler :=
  zipPath <- await (getSetting "cheat_zip_path" DEFAULT_ZIP_PATH) ;;
  let absoluteZip := toAbsolutePath zipPath in
  found <- gets (fun c => match absoluteZip with
                         | Some p => existsSync p (server c)
                         | None => false
                         end) ;;
  match absoluteZip, found with
  | Some file, true =>
      ret (Download file (Js.or_else (Path.basename file) "whitecore.zip")
             [("Cache-Control", "no-store")])
  | _, _ =>
      setFlash "error" "Файл пока недоступен, свяжитесь с админом" ;;;
      ret (Redirect "/")
  end.

(** [GET /admin]; the file statistics are not part of the embedding. *)
Definition getAdmin (locals : Locals) : Handler :=
  cheatImageUrl <- await (getSetting "cheat_image_url" DEFAULT_IMAGE_URL) ;;
  zipPath <- await (getSetting "cheat_zip_path" DEFAULT_ZIP_PATH) ;;
  let absoluteZip := toAbsolutePath zipPath in
  let normalizedImagePath := Js.stripLeadingSlash cheatImageUrl in
  let absoluteImage :=
    if Js.startsWith cheatImageUrl "/uploads/"
    then toAbsolutePath cheatImageUrl
    else toAbsolutePath (Path.join ["public"; normalizedImagePath]) in
  zipExists <- gets (fun c => match absoluteZip with
                             | Some p => existsSync p (server c)
                             | None => false
                             end) ;;
  imageExists <- gets (fun c => match absoluteImage with
                               | Some p => existsSync p (server c)
                               | None => false
                               end) ;;
  ret (Render "admin" locals
         [("title", VString "Админ-панель");
          ("cheatImageUrl", VString cheatImageUrl);
          ("zipPath", VString zipPath);
          ("zipExists", VBool zipExists);
          ("imageExists", VBool imageExists)]).

Definition postUploadImage (env : Env) (req : Request) : Handler :=
  upload <- await (multer_single "cheatImage" uploadImage_fileFilter
                     UPLOADS_DIR (imageStorage_filename env) req) ;;
  match upload with
  | (Some err, _) =>
      setFlash "error" (message_of err) ;;;
      ret (Redirect "/admin")
  | (None, None) =>
      setFlash "error" "Файл не получен" ;;;
      ret (Redirect "/admin")
  | (None, Some filename) =>
      let newUrl := "/uploads/" +:+ filename in
      prev <- await (getSetting "cheat_image_url" DEFAULT_IMAGE_URL) ;;
      (if Js.truthy prev && Js.startsWith prev "/uploads/" then
         match toAbsolutePath prev with
         | Some prevAbsolute =>
             found <- gets (fun c => existsSync prevAbsolute (server c)) ;;
             if found : bool then await (unlink prevAbsolute) else ret tt
         | None => ret tt
         end
       else ret tt) ;;;
      await (setSetting "cheat_image_url" newUrl) ;;;
      setFlash "success" "Картинка чита обновлена" ;;;
      ret (Redirect "/admin")
  end.

Definition postUploadZip (env : Env) (req : Request) : Handler :=
  upload <- await (multer_single "cheatZip" uploadZip_fileFilter
                     DOWNLOADS_DIR (zipStorage_filename env) req) ;;
  match upload with
  | (Some err, _) =>
      setFlash "error" (message_of err) ;;;
      ret (Redirect "/admin")
  | (None, None) =>
      setFlash "error" "Архив не получен" ;;;
      ret (Redirect "/admin")
  | (None, Some filename) =>
      let newPath := Path.join ["downloads"; filename] in
      prev <- await (getSetting "cheat_zip_path" DEFAULT_ZIP_PATH) ;;
      (if Js.truthy prev && Js.startsWith prev "downloads" then
         match toAbsolutePath prev with
         | Some prevAbsolute =>
             found <- gets (fun c => existsSync prevAbsolute (server c)) ;;
             if found : bool then await (unlink prevAbsolute) else ret tt
         | None => ret tt
         end
       else ret tt) ;;;
      await (setSetting "cheat_zip_path" newPath) ;;;
      setFlash "success" "Файл чита обновлен" ;;;
      ret (Redirect "/admin")
  end.

(** ** The middleware chain *)

Definition routed (m : Method) (p : string) (req : Request) : bool :=
  Express.handles m (method req) && Express.matchesRoute p (path req).

Definition routes : list (Method * string) :=
  [(GET, "/captcha"); (GET, "/"); (GET, "/register"); (POST, "/register");
   (GET, "/login"); (POST, "/login"); (POST, "/logout"); (GET, "/download");
   (GET, "/admin"); (POST, "/admin/upload-image"); (POST, "/admin/upload-zip")].

(** What is left for a request no route takes: an OPTIONS request for a
    path that has routes is told their methods, any other gets the
    framework's 404. *)
Definition unrouted (req : Request) : Handler :=
  match method req, Express.allowed routes (path req) with
  | OPTIONS, m :: ms => ret (Allow (Express.commas (m :: ms)))
  | _, _ => ret NotFound
  end.

(** The routes, in the order they are registered. *)
Definition router (env : Env) (req : Request) (locals : Locals) : Handler :=
  if routed GET "/captcha" req then getCaptcha env
  else if routed GET "/" req then getIndex req locals
  else if routed GET "/register" req then getRegister req locals
  else if routed POST "/register" req then postRegister env req
  else if routed GET "/login" req then getLogin req locals
  else if routed POST "/login" req then postLogin req
  else if routed POST "/logout" req then requireAuth req postLogout
  else if routed GET "/download" req then requireAuth req getDownload
  else if routed GET "/admin" req then requireAdmin (getAdmin locals)
  else if routed POST "/admin/upload-image" req then
    requireAdmin (postUploadImage env req)
  else if routed POST "/admin/upload-zip" req then
    requireAdmin (postUploadZip env req)
  else unrouted req.

(** [express.static] on the public directory, then on the uploads
    directory under [/uploads]: what the first mount that does not pass
    the request on makes of it. *)
Definition staticMounts (req : Request) : Async Ctx StaticOutcome :=
  asset <- serveStatic PUBLIC_DIR req (path req) ;;
  match asset with
  | Passed =>
      match Express.mounted "/uploads" (path req) with
      | Some rest => serveStatic UPLOADS_DIR req rest
      | None => ret Passed
      end
  | answered => ret answered
  end.

(** The application.  The body parser stands before the session
    middleware: a body it refuses goes to the error handler past every
    other middleware, so there is no [req.session] for [setFlash] to
    write to, the handler throws, and the final handler answers 500 with
    the session untouched.  Otherwise both static mounts come first; an
    error of theirs goes to the error handler, and a request they pass
    on reaches the locals middleware and then the routes. *)
Definition app (env : Env) (req : Request) : Handler :=
  if parseError req then ret InternalError
  else
    answered <- staticMounts req ;;
    match answered with
    | Served file => ret (StaticFile file)
    | Directory => ret DirectoryRedirect
    | Failed => errorHandler
    | Passed =>
        locals <- localsMiddleware ;;
        router env req locals
    end.

End App.

(* ================================================================== *)
(** * The Telegram bot *)

Module Bot.

(** What [loginWithCredentials] returns and the session map holds. *)
Record user_t : Type := User {
  id : nat;
  username : string;
  isAdmin : bool
}.

(** The text commands, one per incoming message; [Login] carries what the
    pattern [/\/login (.+)/] captured. *)
Inductive Command : Type :=
| Start
| Login (credentials : string)
| Download
| Logout.

Inductive Reply : Type :=
| sendMessage (text : string)
| sendDocument (file filename : string).

(** What a command works on: the map [sessions] from chat id to user,
    and the shared server state. *)
Record Ctx : Type := mkCtx {
  sessions : gmap Z user_t;
  server : Server
}.

Definition await {A : Type} (m : Async Server A) : Async Ctx A :=
  zoom server (fun s c => mkCtx (sessions c) s) m.

Section Handlers.

Context `{Runtime}.

Definition loginWithCredentials (username password : string)
    : Async Server (option user_t) :=
  let identifier := Js.trim username in
  let identifierLower := Js.toLowerCase identifier in
  user <- on_users (gets (Users.by_username_or_email identifier identifierLower)) ;;
  match user with
  | None => ret None
  | Some user =>
      let valid := bcrypt_compare password (Users.password_hash user) in
      if negb valid then ret None
      else ret (Some (User (Users.id user) (Users.username user)
                        (negb (Users.is_admin user =? 0)%nat)))
  end.

Definition onStart : Async Ctx Reply :=
  ret (sendMessage
    "Whitecore bot готов. Используйте:
/login <логин> <пароль>
/download — получить текущий файл
/logout — выйти").

(** The template literal of the reply to a successful [/login]. *)
Definition greeting (user : user_t) : string :=
  "Вход выполнен. Привет, " +:+ username user +:+ "!".

Definition onLogin (chat : Z) (credentials : string) : Async Ctx Reply :=
  let parts := Js.split_spaces credentials in
  let username := parts !! 0%nat in
  let password := parts !! 1%nat in
  if falsy username || falsy password then
    ret (sendMessage "Формат: /login <логин> <пароль>")
  else
    user <- await (loginWithCredentials (default EmptyString username)
                     (default EmptyString password)) ;;
    match user with
    | None => ret (sendMessage "Неверные данные")
    | Some user =>
        modify (fun c => mkCtx (<[chat := user]> (sessions c)) (server c)) ;;;
        ret (sendMessage (greeting user))
    end.

Definition onDownload (chat : Z) : Async Ctx Reply :=
  sessionUser <- gets (fun c => sessions c !! chat) ;;
  match sessionUser with
  | None => ret (sendMessage "Сначала залогиньтесь: /login <логин> <пароль>")
  | Some _ =>
      zipPath <- await (getSetting "cheat_zip_path" DEFAULT_ZIP_PATH) ;;
      let absoluteZip := toAbsolutePath zipPath in
      found <- gets (fun c => match absoluteZip with
                             | Some p => existsSync p (server c)
                             | None => false
                             end) ;;
      match absoluteZip, found with
      | Some file, true => ret (sendDocument file (Path.basename file))
      | _, _ => ret (sendMessage "Файл пока недоступен, свяжитесь с админом")
      end
  end.

Definition onLogout (chat : Z) : Async Ctx Reply :=
  modify (fun c => mkCtx (delete chat (sessions c)) (server c)) ;;;
  ret (sendMessage "Вы вышли.").

Definition onText (chat : Z) (cmd : Command) : Async Ctx Reply :=
  match cmd with
  | Start => onStart
  | Login credentials => onLogin chat credentials
  | Download => onDownload chat
  | Logout => onLogout chat
  end.

End Handlers.

End Bot.

(* ================================================================== *)
(** * The running process *)

(** The whole process: the server state, the session store of the web
    front end (by session cookie) and the session map of the bot. *)
Record System : Type := mkSystem {
  sys_server : Server;
  webSessions : gmap nat Session.t;
  botSessions : gmap Z Bot.user_t
}.

Inductive Event : Type :=
| WebRequest (sid : nat) (env : Env) (req : Request)
| BotMessage (chat : Z) (cmd : Bot.Command).

Inductive Output : Type :=
| WebResponse (r : Response)
| BotReply (r : Bot.Reply).

Section Process.

Context `{Runtime}.

(** One event, handled to completion.  A request without a stored
    session starts from a fresh one. *)
Definition step (ev : Event) (sys : System) : result (Output * System) :=
  match ev with
  | WebRequest sid env req =>
      let s := default Session.fresh (webSessions sys !! sid) in
      match app env req (mkCtx s (sys_server sys)) with
      | Ok (r, c) =>
          Ok (WebResponse r,
              mkSystem (server c) (<[sid := session c]> (webSessions sys))
                (botSessions sys))
      | Threw e => Threw e
      end
  | BotMessage chat cmd =>
      match Bot.onText chat cmd (Bot.mkCtx (botSessions sys) (sys_server sys)) with
      | Ok (r, c) =>
          Ok (BotReply r,
              mkSystem (Bot.server c) (webSessions sys) (Bot.sessions c))
      | Threw e => Threw e
      end
  end.

(** The events of a run, oldest first. *)
Fixpoint run (evs : list Event) (sys : System) : result (list Output * System) :=
  match evs with
  | [] => Ok ([], sys)
  | ev :: rest =>
      match step ev sys with
      | Ok (o, sys') =>
          match run rest sys' with
          | Ok (os, sys'') => Ok (o :: os, sys'')
          | Threw e => Threw e
          end
      | Threw e => Threw e
      end
  end.

(** The requests of one browser session, oldest first. *)
Fixpoint serve (reqs : list (Env * Request)) (c : Ctx) : result (list Response * Ctx) :=
  match reqs with
  | [] => Ok ([], c)
  | (env, req) :: rest =>
      match app env req c with
      | Ok (r, c') =>
          match serve rest c' with
          | Ok (rs, c'') => Ok (r :: rs, c'')
          | Threw e => Threw e
          end
      | Threw e => Threw e
      end
  end.

(** The state of a process started on an empty database. *)
Definition boot (env : Env) (files : gset string) : result (unit * Server) :=
  bootstrap env (mkServer [] [] files).

End Process.

(* ================================================================== *)
(** * Vocabulary of the statements *)

(** [wp m s Q]: run from [s], the code [m] returns, and its result and
    final state satisfy [Q]. *)
Definition wp {S A : Type} (m : Async S A) (s : S) (Q : A -> S -> Prop) : Prop :=
  match m s with
  | Ok (a, s') => Q a s'
  | Threw _ => False
  end.

(** The submitted answer matches the outstanding one: an answer is
    outstanding, and it is the submission in lower case. *)
Definition captchaMatches `{Runtime} (stored : option string) (submitted : string)
    : Prop :=
  exists s, stored = Some s /\ s <> EmptyString /\ Js.toLowerCase submitted = s.



Definition badCaptcha : Session.flash_t :=
  Session.Flash "error" "Неверная капча".

(** What a request other than [GET /captcha] may do to the outstanding
    answer: clear it or leave it. *)
Definition captchaKept (c c' : Ctx) : Prop :=
  Session.captcha (session c') = None
  \/ Session.captcha (session c') = Session.captcha (session c).

(** The captcha field of a submitted form. *)
Definition submitted (req : Request) : string :=
  default EmptyString (Form.captcha (body req)).

(** The routes behind the admin gate. *)
Definition adminRoute (req : Request) : Prop :=
  (method req = GET /\ path req = "/admin")
  \/ (method req = POST /\ path req = "/admin/upload-image")
  \/ (method req = POST /\ path req = "/admin/upload-zip").

(** A session that is not an administrator's. *)
Definition notAdmin (s : Session.t) : Prop :=
  Session.user s = None
  \/ exists u, Session.user s = Some u /\ Session.isAdmin u = false.

(** The answer of the download route when there is nothing to send. *)
Definition notAvailable (c : Ctx) : result (Response * Ctx) :=
  Ok (Redirect "/",
      mkCtx (Session.set_flash
               (Some (Session.Flash "error"
                        "Файл пока недоступен, свяжитесь с админом"))
               (session c))
        (server c)).

(** The identity snapshot a successful web login stores. *)
Definition snapshot (r : Users.row) : Session.user_t :=
  Session.User (Users.id r) (Users.username r)
    (default EmptyString (Users.email r)) (negb (Users.is_admin r =? 0)%nat).

(** A row answers an identifier: by its username, or by its e-mail
    against the identifier in lower case. *)
Definition answers `{Runtime} (identifier : string) (r : Users.row) : Prop :=
  Users.username r = identifier
  \/ Users.email r = Some (Js.toLowerCase identifier).

(** The row of a table an identifier stands for: the row with that
    username, or, when no row has that username, the row with the
    lower-cased identifier as its e-mail. *)
Definition standsFor `{Runtime} (identifier : string) (t : Users.table)
    (r : Users.row) : Prop :=
  r ∈ t
  /\ (Users.username r = identifier
      \/ ((forall x, x ∈ t -> Users.username x <> identifier)
          /\ Users.email r = Some (Js.toLowerCase identifier))).

Definition userNotFound : Session.flash_t :=
  Session.Flash "error" "Пользователь не найден".

Definition wrongPassword : Session.flash_t :=
  Session.Flash "error" "Неверный пароль".

Definition loggedIn : Session.flash_t :=
  Session.Flash "success" "Вы вошли в систему".

(** What is left of a request whose upload was not accepted: an error
    flash, a redirect to the admin page, and the server as it was. *)
Definition uploadRefused (c : Ctx) (r : result (Response * Ctx)) : Prop :=
  exists msg,
    r = Ok (Redirect "/admin",
            mkCtx (Session.set_flash (Some (Session.Flash "error" msg)) (session c))
              (server c)).

(** A non-empty run of code units other than [@] and white space. *)
Definition emailPart (l : list N) : Prop :=
  l <> []
  /\ forallb (fun u => negb ((u =? 0x40)%N || Js.is_space u)) l = true.

(** The e-mail shape: a part, [@], a part, a dot, a part. *)
Definition emailShaped (s : string) : Prop :=
  exists a b d,
    Js.units s = a ++ 0x40%N :: b ++ 0x2E%N :: d
    /\ emailPart a /\ emailPart b /\ emailPart d.

(** The grounds on which a registration is refused. *)
Inductive Refusal : Type :=
| WrongCaptcha
| MissingField
| ShortUsername
| MalformedEmail
| UsernameTaken
| EmailTaken.

Definition refusal `{Runtime} (g : Refusal) (req : Request) (c : Ctx) : Prop :=
  let username := Js.trim (default EmptyString (Form.username (body req))) in
  let email :=
    Js.toLowerCase (Js.trim (default EmptyString (Form.email (body req)))) in
  let password := default EmptyString (Form.password (body req)) in
  match g with
  | WrongCaptcha =>
      ~ captchaMatches (Session.captcha (session c)) (submitted req)
  | MissingField =>
      username = EmptyString \/ email = EmptyString \/ password = EmptyString
  | ShortUsername => Js.length username < 3
  | MalformedEmail => ~ emailShaped email
  | UsernameTaken =>
      exists r, r ∈ users (server c) /\ Users.username r = username
  | EmailTaken =>
      exists r, r ∈ users (server c) /\ Users.email r = Some email
  end.


(** The sentence "on every incoming request the locals middleware copies
    the pending flash and deletes it before any route handler runs", read
    of the application as a whole. *)
Definition localsRunOnEveryRequest `{Runtime} : Prop :=
  forall (env : Env) (req : Request) (c : Ctx),
    app env req c = (locals <- localsMiddleware ;; router env req locals) c.

(** The context a route handler starts from, and the locals it is given. *)
Definition handlerEntry (c : Ctx) : Ctx :=
  mkCtx (Session.set_flash None (session c)) (server c).

Definition localsOf (c : Ctx) : Locals :=
  mkLocals (Session.user (session c)) (Session.flash (session c)).

(** The same context with another flash pending. *)
Definition withFlash (f : option Session.flash_t) (c : Ctx) : Ctx :=
  mkCtx (Session.set_flash f (session c)) (server c).

(** The flash of the error handler. *)
Definition somethingWrong : Session.flash_t :=
  Session.Flash "error" "Что-то пошло не так. Повторите попытку.".

(** The identity the bot keeps for a row of the users table. *)
Definition botSnapshot (r : Users.row) : Bot.user_t :=
  Bot.User (Users.id r) (Users.username r) (negb (Users.is_admin r =? 0)%nat).

(** A [/login] message whose first two words pass the credential check,
    and the user the check yields. *)
Definition botLoginYields `{Runtime} (credentials : string) (s : Server)
    (u : Bot.user_t) : Prop :=
  exists name pass,
    Js.split_spaces credentials !! 0%nat = Some name
    /\ Js.split_spaces credentials !! 1%nat = Some pass
    /\ name <> EmptyString /\ pass <> EmptyString
    /\ Bot.loginWithCredentials name pass s = Ok (Some u, s).

(** What a bot command does to the session map. *)
Definition botSessionsAfter `{Runtime} (chat : Z) (cmd : Bot.Command)
    (before after : gmap Z Bot.user_t) (s : Server) : Prop :=
  match cmd with
  | Bot.Logout => after = delete chat before
  | Bot.Login credentials =>
      (exists u, botLoginYields credentials s u /\ after = <[chat := u]> before)
      \/ ((forall u, ~ botLoginYields credentials s u) /\ after = before)
  | Bot.Start | Bot.Download => after = before
  end.

(** Where an entry of the bot's session map comes from: a [/login] of
    that chat whose check yielded it, with no [/logout] of that chat
    after it. *)
Definition placedByLogin `{Runtime} (evs : list Event) (sys : System) (chat : Z)
    (u : Bot.user_t) : Prop :=
  exists pre credentials post outs1 sys1,
    evs = pre ++ BotMessage chat (Bot.Login credentials) :: post
    /\ run pre sys = Ok (outs1, sys1)
    /\ botLoginYields credentials (sys_server sys1) u
    /\ Forall (fun ev => ev <> BotMessage chat Bot.Logout) post.

(** The answer of a step, without the state it leaves. *)
Definition output_of (r : result (Output * System)) : option Output :=
  match r with
  | Ok (o, _) => Some o
  | Threw _ => None
  end.

(** ** Invariants of the stored data *)

(** The constraints of the users table: the primary key, the unique
    username and the unique index over the e-mails that are not NULL. *)
Definition usersOk (t : Users.table) : Prop :=
  NoDup (map Users.id t)
  /\ NoDup (map Users.username t)
  /\ NoDup (omap Users.email t).

(** Both tables satisfy their constraints. *)
Definition serverOk (s : Server) : Prop :=
  usersOk (users s) /\ NoDup (map fst (settings s)).

(** The rows with the admin flag. *)
Definition admins (t : Users.table) : list Users.row :=
  List.filter (fun r => negb (Users.is_admin r =? 0)%nat) t.

(** How one request may change the users table: not at all, or by one
    appended row without the admin flag, with a fresh id, a fresh
    username and a fresh e-mail of the e-mail shape. *)
Definition usersStep (t t' : Users.table) : Prop :=
  t' = t
  \/ exists name e hash,
       Users.by_username name t = None
       /\ Users.by_email e t = None
       /\ emailShaped e
       /\ t' = t ++ [Users.Row (Users.next_id t) name (Some e) hash 0].

(** How one request may change the settings table: not at all, or by
    one upsert. *)
Definition settingsStep (t t' : Settings.table) : Prop :=
  t' = t
  \/ exists key value,
       t' = if existsb (Settings.has_key key) t
            then Settings.overwrite key value t
            else t ++ [(key, value)].

(** How one request may change the session's user: not at all, by
    removing it, or by storing the snapshot of a row of the table. *)
Definition userStep (c c' : Ctx) : Prop :=
  Session.user (session c') = Session.user (session c)
  \/ Session.user (session c') = None
  \/ exists row,
       row ∈ users (server c')
       /\ Session.user (session c') = Some (snapshot row).

Definition transition (c c' : Ctx) : Prop :=
  usersStep (users (server c)) (users (server c'))
  /\ settingsStep (settings (server c)) (settings (server c'))
  /\ userStep c c'.

(** The session's user, when there is one, is the snapshot of a row. *)
Definition backed (c : Ctx) : Prop :=
  forall u,
    Session.user (session c) = Some u ->
    exists row, row ∈ users (server c) /\ u = snapshot row.

(** Every identity the process holds, in a web session or in the bot's
    map, is the snapshot of a row of the users table. *)
Definition identitiesBacked (sys : System) : Prop :=
  (forall sid s u,
     webSessions sys !! sid = Some s ->
     Session.user s = Some u ->
     exists row, row ∈ users (sys_server sys) /\ u = snapshot row)
  /\ (forall chat u,
        botSessions sys !! chat = Some u ->
        exists row, row ∈ users (sys_server sys) /\ u = botSnapshot row).

(** The settings table once a key has been ensured. *)
Definition ensured (key fallback : string) (t : Settings.table) : Settings.table :=
  match Settings.select key t with
  | Some _ => t
  | None => t ++ [(key, fallback)]
  end.

(** The users table once the default administrator has been ensured. *)
Definition seeded `{Runtime} (env : Env) (t : Users.table) : Users.table :=
  match Users.by_username "RURI" t with
  | Some _ => t
  | None =>
      t ++ [Users.Row (Users.next_id t) "RURI" None
              (bcrypt_hash "Wat3hahak" (salt env)) 1]
  end.

(** ** Path segments *)

Definition notSlash (c : ascii) : bool := negb (Path.is_slash c).

(** A name that is one segment of a path: no slash in it, and it is
    neither empty nor one of the dot names. *)
Definition plainSegment (f : string) : Prop :=
  Js.every notSlash f = true
  /\ f <> EmptyString /\ f <> "." /\ f <> "..".

(** A segment that [path.normalize] keeps as it is. *)
Definition proper (x : string) : Prop :=
  x <> EmptyString /\ x <> "." /\ x <> "..".

(** ** Words of a bot message *)

Definition notSpace (ch : string) : bool := negb (Js.spaceChar ch).

(** A non-empty run of characters other than white space. *)
Definition word (l : list string) : Prop :=
  l <> [] /\ forallb notSpace l = true.

(** A non-empty run of white space. *)
Definition blank (l : list string) : Prop :=
  l <> [] /\ forallb Js.spaceChar l = true.

(** Nothing, or characters that begin with white space. *)
Definition spaced (l : list string) : Prop :=
  l = [] \/ exists ch r, l = ch :: r /\ Js.spaceChar ch = true.

(** ** A stand-in for [send]

    The look-up of the [send] package with the options [express.static]
    hands it here, on a disk whose directories are the listed ones and
    those that hold a file. *)
Module Send.

Definition isDirectory (dirs : list string) (p : string) (files : gset string)
    : bool :=
  existsb (String.eqb p) dirs
  || existsb (fun f => Js.startsWith f (p +:+ "/")) (elements files).

(** The pieces of a path between slashes and backslashes. *)
Fixpoint pieces (cur : string) (s : string) : list string :=
  match s with
  | EmptyString => [String.rev cur]
  | String c r =>
      if Ascii.eqb c "/" || Ascii.eqb c "\"
      then String.rev cur :: pieces EmptyString r
      else pieces (String c cur) r
  end.

(** [UP_PATH_REGEXP]. *)
Definition upPath (p : string) : bool :=
  existsb (String.eqb "..") (pieces EmptyString p).

Definition containsDotFile (parts : list string) : bool :=
  existsb (fun part => (1 <? String.length part)%nat && Js.startsWith part ".")
    parts.

Definition pipe (dirs : list string) (root path : string) (files : gset string)
    : StaticOutcome :=
  match Js.decodeURIComponent path with
  | None => Passed
  | Some decoded =>
      if negb (Js.every (fun c => negb (Ascii.eqb c Ascii.zero)) decoded)
      then Passed
      else
        let rel :=
          if Js.truthy decoded then Path.normalize ("./" +:+ decoded)
          else decoded in
        if upPath rel then Passed
        else
          let parts := Path.segments rel in
          let full := Path.normalize (Path.join [root; rel]) in
          if containsDotFile parts
             && Js.startsWith (default EmptyString (last parts)) "."
          then Passed
          else if Js.endsWith path "/" then
            let index := Path.join [full; "index.html"] in
            if bool_decide (index ∈ files) then Served index else Passed
          else if bool_decide (full ∈ files) then Served full
          else if isDirectory dirs full files then Directory
          else Passed
  end.

End Send.

(** The runtime used by the closed examples: stand-ins for bcryptjs
    (its hashes end in the password), for the engine's case mapping (no
    example has text outside ASCII) and for [send], installed under
    [/srv/whitecore]. *)
Definition demoRuntime : Runtime := {|
  runtime_engine := {| lowerUnicode := Js.asciiLower |};
  bcrypt_hash p s := "$2a$10$" +:+ s +:+ "$" +:+ p;
  bcrypt_compare p h := Js.endsWith h ("$" +:+ p);
  __dirname := "/srv/whitecore";
  send := Send.pipe ["/srv/whitecore/uploads"; "/srv/whitecore/downloads"]
|}.

Definition demoEnv : Env := mkEnv 2 "AbC12" "<svg/>" "salt".

Definition demoGet (p : string) : Request :=
  mkRequest GET p p None Form.empty None false.

Definition demoPost (p : string) (f : Form.t) (file : option File.t) : Request :=
  mkRequest POST p p None f file false.

(* ================================================================== *)
(** * Properties *)

(** Unfolding of the plumbing of [Async]. *)
Ltac async :=
  repeat (unfold bind, ret, gets, modify, throw, zoom, await, Bot.await,
            on_users, on_settings, on_session, setFlash in *; simpl in * ).

(** ** Rules for [wp] *)

Section WpRules.

Context {S : Type}.

Lemma wp_ret {A} (a : A) (s : S) Q : wp (ret a) s Q = Q a s.
Proof. reflexivity. Qed.

Lemma wp_bind {A B} (m : Async S A) (k : A -> Async S B) (s : S) Q :
  wp (bind m k) s Q = wp m s (fun a s' => wp (k a) s' Q).
Proof. unfold wp, bind. by destruct (m s) as [[a s']|e]. Qed.

Lemma wp_gets {A} (f : S -> A) (s : S) Q : wp (gets f) s Q = Q (f s) s.
Proof. reflexivity. Qed.

Lemma wp_modify (f : S -> S) (s : S) Q : wp (modify f) s Q = Q tt (f s).
Proof. reflexivity. Qed.

Lemma wp_zoom {T A} (get : S -> T) (put : T -> S -> S) (m : Async T A) (s : S) Q :
  wp (zoom get put m) s Q = wp m (get s) (fun a t => Q a (put t s)).
Proof. unfold wp, zoom. by destruct (m (get s)) as [[a t]|e]. Qed.

Lemma wp_returns {A} (m : Async S A) (s : S) (a : A) (s' : S) :
  wp m s (fun x y => x = a /\ y = s') <-> m s = Ok (a, s').
Proof.
  unfold wp. destruct (m s) as [[x y]|e]; [|split; [done | discriminate]].
  split; [by intros [-> ->] | by intros [= -> ->]].
Qed.

Lemma wp_mono {A} (m : Async S A) (s : S) (Q Q' : A -> S -> Prop) :
  (forall a s', Q a s' -> Q' a s') -> wp m s Q -> wp m s Q'.
Proof. unfold wp. destruct (m s) as [[a s']|e]; auto. Qed.

Lemma wp_total {A} (m : Async S A) (s : S) Q :
  wp m s Q <-> exists a s', m s = Ok (a, s') /\ Q a s'.
Proof.
  unfold wp. destruct (m s) as [[a s']|e].
  - split; [eauto | by intros (? & ? & [= <- <-] & ?)].
  - split; [done | by intros (? & ? & ? & ?)].
Qed.

End WpRules.

(** Symbolic execution of a handler under [wp]. *)
Ltac wp_run :=
  repeat first
    [ rewrite wp_bind | rewrite wp_ret | rewrite wp_gets | rewrite wp_modify
    | rewrite wp_zoom
    | progress unfold await, Bot.await, on_users, on_settings, on_session,
        setFlash
    | progress cbv beta ].

(** ** The settings table *)

Module SettingsFacts.

Import Settings.

Lemma has_key_true key kv : has_key key kv = true <-> fst kv = key.
Proof. unfold has_key. apply String.eqb_eq. Qed.

Lemma has_key_false key kv : has_key key kv = false <-> fst kv <> key.
Proof. unfold has_key. apply String.eqb_neq. Qed.

Lemma absent_iff key (t : table) :
  existsb (has_key key) t = false <-> key ∉ map fst t.
Proof.
  induction t as [|kv t IH]; simpl.
  - split; [intros _; apply not_elem_of_nil | done].
  - rewrite orb_false_iff, IH, has_key_false, not_elem_of_cons.
    split; intros [Hne Ht]; split; auto.
Qed.

Lemma select_absent key (t : table) :
  select key t = None <-> existsb (has_key key) t = false.
Proof.
  unfold select. induction t as [|kv t IH]; simpl; [done|].
  destruct (has_key key kv); simpl; [split; discriminate | exact IH].
Qed.

Lemma select_present key (t : table) :
  existsb (has_key key) t = true -> is_Some (select key t).
Proof.
  intros Hex. destruct (select key t) eqn:E; [eauto|].
  apply select_absent in E. congruence.
Qed.

Lemma select_snoc key k v (t : table) :
  select key (t ++ [(k, v)]) =
  match select key t with
  | Some x => Some x
  | None => if String.eqb k key then Some v else None
  end.
Proof.
  unfold select. induction t as [|kv t IH]; simpl.
  - unfold has_key; simpl. destruct (String.eqb k key); reflexivity.
  - destruct (has_key key kv); simpl; [reflexivity | exact IH].
Qed.

Lemma overwrite_keys key value t : map fst (overwrite key value t) = map fst t.
Proof.
  unfold overwrite. induction t as [|kv t IH]; simpl; [done|].
  rewrite IH. destruct (has_key key kv); reflexivity.
Qed.

Lemma has_key_pair key k v : has_key key (k, v) = String.eqb k key.
Proof. reflexivity. Qed.

Lemma select_overwrite key value k t :
  select k (overwrite key value t) =
  if String.eqb key k then (fun _ => value) <$> select k t else select k t.
Proof.
  unfold select, overwrite. induction t as [|[k0 v0] t IH]; simpl.
  - destruct (String.eqb key k); reflexivity.
  - rewrite (has_key_pair key), (has_key_pair k).
    destruct (String.eqb k0 key) eqn:E1; simpl; rewrite has_key_pair.
    + apply String.eqb_eq in E1; subst k0.
      destruct (String.eqb key k) eqn:E2; simpl; [done | exact IH].
    + destruct (String.eqb k0 k) eqn:E2; simpl; [|exact IH].
      apply String.eqb_eq in E2; subst k0.
      by rewrite String.eqb_sym, E1.
Qed.

Lemma count_absent key (t : table) :
  key ∉ map fst t -> count key t = 0.
Proof.
  unfold count. induction t as [|kv t IH]; simpl; [done|].
  rewrite not_elem_of_cons. intros [Hne Hnot].
  destruct (has_key key kv) eqn:E.
  - apply has_key_true in E. congruence.
  - auto.
Qed.

Lemma count_unique key (t : table) :
  NoDup (map fst t) -> key ∈ map fst t -> count key t = 1.
Proof.
  unfold count. induction t as [|kv t IH]; simpl.
  - intros _ Hin. by apply elem_of_nil in Hin.
  - rewrite NoDup_cons, elem_of_cons. intros [Hfresh Hnd] Hin.
    destruct (has_key key kv) eqn:E; simpl.
    + apply has_key_true in E. subst key.
      f_equal. by apply (count_absent (fst kv)).
    + apply has_key_false in E. destruct Hin as [->|Hin]; [done | auto].
Qed.

Lemma count_app key (t1 t2 : table) :
  count key (t1 ++ t2) = count key t1 + count key t2.
Proof. unfold count. by rewrite List.filter_app, length_app. Qed.

End SettingsFacts.

Section SettingsContract.

Import Settings SettingsFacts.

Lemma ensureSetting_spec (s : Server) (key fallback : string) :
  ensureSetting key fallback s =
  match select key (settings s) with
  | Some v => Ok (v, s)
  | None =>
      Ok (fallback, mkServer (users s) (settings s ++ [(key, fallback)]) (disk s))
  end.
Proof.
  unfold ensureSetting. async.
  destruct (select key (settings s)) eqn:E; async.
  - by destruct s.
  - apply select_absent in E. unfold insert. by rewrite E.
Qed.

Lemma getSetting_spec (s : Server) (key fallback : string) :
  getSetting key fallback s = Ok (default fallback (select key (settings s)), s).
Proof.
  unfold getSetting. async.
  destruct (select key (settings s)); async; by destruct s.
Qed.

Lemma setSetting_spec (s : Server) (key value : string) :
  setSetting key value s =
  Ok (tt, mkServer (users s)
            (if existsb (has_key key) (settings s)
             then overwrite key value (settings s)
             else settings s ++ [(key, value)])
            (disk s)).
Proof.
  unfold setSetting. async. unfold upsert.
  by destruct (existsb (has_key key) (settings s)).
Qed.

Lemma upsert_keys_NoDup key value (t : table) :
  NoDup (map fst t) ->
  NoDup (map fst (if existsb (has_key key) t
                  then overwrite key value t
                  else t ++ [(key, value)])).
Proof.
  intros Hnd. destruct (existsb (has_key key) t) eqn:E.
  - by rewrite overwrite_keys.
  - rewrite map_app. simpl. apply NoDup_app. split; [done|]. split.
    + intros k Hk Hk'. apply list_elem_of_singleton in Hk'. subst k.
      by apply absent_iff in E.
    + apply NoDup_singleton.
Qed.

(** C7.  Over a settings table holding at most one row per key:
    [ensureSetting] returns the stored value and writes nothing when the
    key is present, and otherwise inserts the fallback and returns it;
    [getSetting] returns the stored value or the fallback and never
    writes; [setSetting] leaves exactly one row for the key, holding the
    new value, and touches no other key; and every one of the three
    leaves a table with at most one row per key. *)
Theorem settings_accessors_contract (s : Server) (key fallback value : string) :
  NoDup (map fst (settings s)) ->
  (match select key (settings s) with
   | Some v => ensureSetting key fallback s = Ok (v, s)
   | None =>
       ensureSetting key fallback s =
         Ok (fallback,
             mkServer (users s) (settings s ++ [(key, fallback)]) (disk s))
       /\ select key (settings s ++ [(key, fallback)]) = Some fallback
       /\ count key (settings s ++ [(key, fallback)]) = 1
   end)
  /\ getSetting key fallback s =
       Ok (default fallback (select key (settings s)), s)
  /\ (exists t',
        setSetting key value s = Ok (tt, mkServer (users s) t' (disk s))
        /\ select key t' = Some value
        /\ count key t' = 1
        /\ forall k, k <> key -> select k t' = select k (settings s))
  /\ (forall v s', ensureSetting key fallback s = Ok (v, s') ->
        NoDup (map fst (settings s')))
  /\ (forall v s', getSetting key fallback s = Ok (v, s') ->
        NoDup (map fst (settings s')))
  /\ (forall s', setSetting key value s = Ok (tt, s') ->
        NoDup (map fst (settings s'))).
Proof.
  intros Hnd.
  assert (Hsnoc : forall v, select key (settings s) = None ->
            select key (settings s ++ [(key, v)]) = Some v
            /\ count key (settings s ++ [(key, v)]) = 1
            /\ NoDup (map fst (settings s ++ [(key, v)]))).
  { intros v E. rewrite select_snoc, E, String.eqb_refl.
    apply select_absent in E.
    pose proof (upsert_keys_NoDup key v _ Hnd) as Hnd'. rewrite E in Hnd'.
    apply absent_iff in E.
    rewrite count_app, (count_absent _ _ E). unfold count; simpl.
    rewrite has_key_pair, String.eqb_refl. done. }
  repeat split.
  - rewrite ensureSetting_spec.
    destruct (select key (settings s)) eqn:E; [done|].
    destruct (Hsnoc fallback eq_refl) as (? & ? & ?). done.
  - apply getSetting_spec.
  - rewrite setSetting_spec. eexists. split; [reflexivity|].
    destruct (existsb (has_key key) (settings s)) eqn:E.
    + destruct (select_present _ _ E) as [x Hx].
      repeat split.
      * by rewrite select_overwrite, String.eqb_refl, Hx.
      * apply count_unique; rewrite overwrite_keys; [done|].
        destruct (decide (key ∈ map fst (settings s))) as [|Hn]; [done|].
        apply absent_iff in Hn. congruence.
      * intros k Hk. rewrite select_overwrite.
        destruct (String.eqb key k) eqn:E2; [|done].
        apply String.eqb_eq in E2. congruence.
    + apply select_absent in E. destruct (Hsnoc value E) as (? & ? & ?).
      repeat split; [done..|].
      intros k Hk. rewrite select_snoc.
      destruct (select k (settings s)); [done|].
      destruct (String.eqb key k) eqn:E2; [|done].
      apply String.eqb_eq in E2. congruence.
  - intros v s'. rewrite ensureSetting_spec.
    destruct (select key (settings s)) eqn:E; intros [= <- <-]; [done|].
    simpl. by destruct (Hsnoc fallback eq_refl) as (? & ? & ?).
  - intros v s'. rewrite getSetting_spec. by intros [= <- <-].
  - intros s'. rewrite setSetting_spec. intros [= <-]. simpl.
    by apply upsert_keys_NoDup.
Qed.

End SettingsContract.

(** The contract at a table with two rows. *)
Lemma settings_accessors_contract_witness :
  let s := mkServer [] [("cheat_image_url", "/img/a.svg"); ("theme", "dark")] ∅ in
  getSetting "cheat_zip_path" "downloads/x.zip" s = Ok ("downloads/x.zip", s)
  /\ getSetting "theme" "light" s = Ok ("dark", s).
Proof.
  intros s.
  assert (Hnd : NoDup (map fst (settings s))).
  { apply (bool_decide_unpack _). by vm_compute. }
  split.
  - exact (proj1 (proj2 (settings_accessors_contract s "cheat_zip_path"
             "downloads/x.zip" "v" Hnd))).
  - exact (proj1 (proj2 (settings_accessors_contract s "theme" "light" "v" Hnd))).
Defined.

(** ** Look-ups in the users table *)

Module UsersFacts.

Import Users.

Lemma find_present {A : Type} (p : A -> bool) (l : list A) :
  present (List.find p l) = existsb p l.
Proof.
  induction l as [|x l IH]; simpl; [done|]. by destruct (p x).
Qed.

Lemma find_elem {A : Type} (p : A -> bool) (l : list A) (x : A) :
  List.find p l = Some x -> x ∈ l /\ p x = true.
Proof.
  intros Hf. apply List.find_some in Hf. by rewrite list_elem_of_In.
Qed.

Lemma existsb_elem {A : Type} (p : A -> bool) (l : list A) :
  existsb p l = true <-> exists x, x ∈ l /\ p x = true.
Proof.
  rewrite List.existsb_exists. by setoid_rewrite list_elem_of_In.
Qed.

Lemma has_username_true name r : has_username name r = true <-> username r = name.
Proof. apply String.eqb_eq. Qed.

Lemma has_email_true e r : has_email e r = true <-> email r = Some e.
Proof.
  unfold has_email. destruct (email r) as [x|]; [|split; discriminate].
  rewrite String.eqb_eq. split; congruence.
Qed.

Lemma by_username_present name (t : table) :
  present (by_username name t) = true <->
  exists r, r ∈ t /\ username r = name.
Proof.
  unfold by_username. rewrite find_present, existsb_elem.
  by setoid_rewrite has_username_true.
Qed.

Lemma by_email_present e (t : table) :
  present (by_email e t) = true <-> exists r, r ∈ t /\ email r = Some e.
Proof.
  unfold by_email. rewrite find_present, existsb_elem.
  by setoid_rewrite has_email_true.
Qed.

Lemma insert_fresh name e hash admin (t : table) :
  present (by_username name t) = false ->
  present (by_email e t) = false ->
  insert name (Some e) hash admin t =
    Ok (next_id t, t ++ [Row (next_id t) name (Some e) hash admin]).
Proof.
  unfold by_username, by_email, insert. rewrite !find_present.
  by intros -> ->.
Qed.

End UsersFacts.

(** ** The captcha check *)

Lemma captcha_check `{Runtime} (stored : option string) (submitted : string) :
  falsy stored || differs (Js.toLowerCase submitted) stored = false
  <-> captchaMatches stored submitted.
Proof.
  unfold captchaMatches, falsy, differs. rewrite orb_false_iff, negb_false_iff.
  rewrite bool_decide_eq_true. split.
  - intros [Hf ->]. eexists. split; [done|]. split; [|done].
    intros E. rewrite E in Hf. discriminate.
  - intros (s & -> & Hs & <-). split; [|done].
    destruct (Js.toLowerCase submitted); [done | reflexivity].
Qed.

(** ** The regular expression matcher *)

Module RegexFacts.

Import Js.

Lemma app_cons_inv (l1 l2 : list N) (u : N) (l : list N) :
  l1 ++ l2 = u :: l ->
  (l1 = [] /\ l2 = u :: l)
  \/ exists l1', l1 = u :: l1' /\ l = l1' ++ l2.
Proof.
  destruct l1 as [|a l1']; [by left|].
  intros [= -> <-]. right. by exists l1'.
Qed.

Lemma nullable_iff (r : regex) : nullable r = true <-> Matches r [].
Proof.
  split.
  - induction r as [| |p|r1 IH1 r2 IH2|r1 IH1 r2 IH2|r IH]; simpl; intros Hn;
      try discriminate.
    + constructor.
    + apply andb_true_iff in Hn as [H1 H2].
      exact (MCat r1 r2 [] [] (IH1 H1) (IH2 H2)).
    + apply orb_true_iff in Hn as [H1|H2];
        [apply MAltL | apply MAltR]; auto.
    + constructor.
  - intros Hm. remember (@nil N) as l eqn:Hl.
    induction Hm as [|p c Hp|r1 r2 l1 l2 _ IH1 _ IH2|r1 r2 l _ IH|r1 r2 l _ IH
                    |r|r l1 l2 _ _ _ _]; simpl; try done.
    + apply app_eq_nil in Hl as [-> ->]. by rewrite IH1, IH2.
    + by rewrite IH.
    + rewrite IH by done. apply orb_true_r.
Qed.

Lemma deriv_sound (u : N) (r : regex) (l : list N) :
  Matches (deriv u r) l -> Matches r (u :: l).
Proof.
  revert l. induction r as [| |p|r1 IH1 r2 IH2|r1 IH1 r2 IH2|r IH];
    simpl; intros l Hm.
  - inversion Hm.
  - inversion Hm.
  - destruct (p u) eqn:Hp; inversion Hm; subst. by constructor.
  - assert (Hcat : forall t, Matches (Cat (deriv u r1) r2) t ->
                             Matches (Cat r1 r2) (u :: t)).
    { intros t Ht. inversion Ht as [| |? ? l1 l2 H1 H2| | | |]; subst.
      exact (MCat r1 r2 (u :: l1) l2 (IH1 _ H1) H2). }
    destruct (nullable r1) eqn:Hn; [|by apply Hcat].
    inversion Hm as [| | |? ? ? Hl|? ? ? Hr| |]; subst; [by apply Hcat|].
    apply nullable_iff in Hn.
    exact (MCat r1 r2 [] (u :: l) Hn (IH2 _ Hr)).
  - inversion Hm as [| | |? ? ? Hl|? ? ? Hr| |]; subst;
      [apply MAltL | apply MAltR]; auto.
  - inversion Hm as [| |? ? l1 l2 H1 H2| | | |]; subst.
    exact (MStarCons r (u :: l1) l2 (IH _ H1) H2).
Qed.

Lemma deriv_complete (u : N) (r : regex) (l t : list N) :
  Matches r t -> t = u :: l -> Matches (deriv u r) l.
Proof.
  intros Hm. revert l.
  induction Hm as [|p a Hp|r1 r2 l1 l2 H1 IH1 H2 IH2|r1 r2 t H IH|r1 r2 t H IH
                  |r|r l1 l2 H1 IH1 H2 IH2]; intros l Ht; simpl.
  - discriminate.
  - injection Ht as -> <-. rewrite Hp. constructor.
  - apply app_cons_inv in Ht as [[-> ->] | (l1' & -> & ->)].
    + apply nullable_iff in H1. rewrite H1. apply MAltR. by apply IH2.
    + assert (Hc : Matches (Cat (deriv u r1) r2) (l1' ++ l2)).
      { constructor; [by apply IH1 | done]. }
      destruct (nullable r1); [by apply MAltL | done].
  - apply MAltL. by apply IH.
  - apply MAltR. by apply IH.
  - discriminate.
  - apply app_cons_inv in Ht as [[-> ->] | (l1' & -> & ->)].
    + by apply IH2.
    + constructor; [by apply IH1 | done].
Qed.

(** The matcher decides the denotation. *)
Lemma accepts_iff (r : regex) (l : list N) : accepts r l = true <-> Matches r l.
Proof.
  revert r. induction l as [|u l IH]; intros r; simpl.
  - apply nullable_iff.
  - rewrite IH. split; [apply deriv_sound|].
    intros Hm. by apply (deriv_complete u r l _ Hm).
Qed.

Lemma test_iff (r : regex) (s : string) : test r s = true <-> Matches r (units s).
Proof. apply accepts_iff. Qed.

Lemma matches_star_class (p : N -> bool) (l : list N) :
  Matches (Star (Class p)) l <-> forallb p l = true.
Proof.
  split.
  - intros Hm. remember (Star (Class p)) as r eqn:Hr.
    induction Hm as [| | | | |r|r l1 l2 H1 _ H2 IH2]; try discriminate.
    + reflexivity.
    + injection Hr as ->. inversion H1 as [|? c Hc| | | | |]; subst.
      change (p c && forallb p l2 = true). by rewrite Hc, IH2.
  - induction l as [|c l IH]; simpl; intros He.
    + constructor.
    + apply andb_true_iff in He as [Hc Hs].
      exact (MStarCons (Class p) [c] l (MClass p c Hc) (IH Hs)).
Qed.

Lemma matches_plus_class (p : N -> bool) (l : list N) :
  Matches (Plus (Class p)) l <-> l <> [] /\ forallb p l = true.
Proof.
  unfold Plus. split.
  - intros Hm. inversion Hm as [| |? ? l1 l2 H1 H2| | | |]; subst.
    inversion H1 as [|? c Hc| | | | |]; subst. apply matches_star_class in H2.
    split; [discriminate|]. change (p c && forallb p l2 = true). by rewrite Hc, H2.
  - intros [Hne He]. destruct l as [|c l]; [done|]. simpl in He.
    apply andb_true_iff in He as [Hc Hs].
    exact (MCat (Class p) (Star (Class p)) [c] l
             (MClass p c Hc) (proj2 (matches_star_class p l) Hs)).
Qed.

Lemma matches_chr (a : N) (l : list N) :
  Matches (chr a) l <-> l = [a].
Proof.
  unfold chr. split.
  - intros Hm. inversion Hm as [|? c Hc| | | | |]; subst.
    apply N.eqb_eq in Hc. by subst.
  - intros ->. constructor. apply N.eqb_refl.
Qed.

Lemma matches_cat (r1 r2 : regex) (l : list N) :
  Matches (Cat r1 r2) l <->
  exists l1 l2, l = l1 ++ l2 /\ Matches r1 l1 /\ Matches r2 l2.
Proof.
  split.
  - intros Hm. inversion Hm; subst. eauto.
  - intros (l1 & l2 & -> & H1 & H2). by constructor.
Qed.

(** The pattern of the registration form denotes the e-mail shape. *)
Lemma emailRegex_shape (s : string) :
  test emailRegex s = true <-> emailShaped s.
Proof.
  rewrite test_iff. unfold emailRegex, emailShaped, emailPart. cbv zeta.
  set (p := fun u => negb ((u =? 0x40)%N || is_space u)).
  generalize (units s). intros l. split.
  - intros Hm.
    apply matches_cat in Hm as (a & t1 & -> & Ha & Hm).
    apply matches_cat in Hm as (x & t2 & -> & Hx & Hm).
    apply matches_cat in Hm as (b & t3 & -> & Hb & Hm).
    apply matches_cat in Hm as (y & d & -> & Hy & Hd).
    apply matches_chr in Hx as ->. apply matches_chr in Hy as ->.
    apply matches_plus_class in Ha, Hb, Hd.
    by exists a, b, d.
  - intros (a & b & d & -> & Ha & Hb & Hd).
    apply matches_plus_class in Ha, Hb, Hd.
    apply MCat; [done|]. apply (MCat _ _ [_]); [by apply matches_chr|].
    apply MCat; [done|]. apply (MCat _ _ [_]); [by apply matches_chr|]. done.
Qed.

Lemma emailRegex_rejects (s : string) :
  test emailRegex s = false <-> ~ emailShaped s.
Proof.
  rewrite <- emailRegex_shape. by destruct (test emailRegex s).
Qed.

End RegexFacts.

(** ** Registration *)

Section Registration.

Context `{Runtime}.

Import UsersFacts.

Lemma truthy_false (s : string) : Js.truthy s = false <-> s = EmptyString.
Proof. destruct s; simpl; split; congruence. Qed.

Lemma wp_getSetting (key fallback : string) (s : Server) Q :
  wp (getSetting key fallback) s Q =
  Q (default fallback (Settings.select key (settings s))) s.
Proof. unfold wp. by rewrite getSetting_spec. Qed.


(** A form nothing speaks against adds one row and signs its user in. *)
Lemma postRegister_accepted (env : Env) (req : Request) (c : Ctx) :
  (forall g, ~ refusal g req c) ->
  let username := Js.trim (default EmptyString (Form.username (body req))) in
  let email :=
    Js.toLowerCase (Js.trim (default EmptyString (Form.email (body req)))) in
  let password := default EmptyString (Form.password (body req)) in
  let lastID := Users.next_id (users (server c)) in
  postRegister env req c =
    Ok (Redirect (Js.or_else (default "/" (Form.next (body req))) "/"),
        mkCtx
          (Session.Make (Some (Session.User lastID username email false)) None
             (Some (Session.Flash "success" "Аккаунт создан, добро пожаловать!")))
          (mkServer
             (users (server c) ++
                [Users.Row lastID username (Some email)
                   (bcrypt_hash password (salt env)) 0])
             (settings (server c)) (disk (server c)))).
Proof.
  intros Hno. cbv zeta. apply wp_returns.
  destruct c as [sess srv]. unfold postRegister. wp_run.
  destruct (falsy _ || differs _ _) eqn:E1.
  { exfalso. apply (Hno WrongCaptcha). simpl. unfold submitted.
    rewrite <- captcha_check. simpl in E1. congruence. }
  destruct (negb (Js.truthy _) || negb (Js.truthy _) || negb (Js.truthy _)) eqn:E2.
  { exfalso. apply (Hno MissingField). simpl.
    rewrite !orb_true_iff, !negb_true_iff, !truthy_false in E2. tauto. }
  destruct (Js.length _ <? 3)%nat eqn:E3.
  { exfalso. apply (Hno ShortUsername). simpl. by apply Nat.ltb_lt. }
  destruct (negb (Js.test _ _)) eqn:E4.
  { exfalso. apply (Hno MalformedEmail). simpl.
    by apply RegexFacts.emailRegex_rejects, negb_true_iff. }
  wp_run.
  destruct (present (Users.by_username _ _)) eqn:E5.
  { exfalso. apply (Hno UsernameTaken). simpl. by apply by_username_present. }
  wp_run.
  destruct (present (Users.by_email _ _)) eqn:E6.
  { exfalso. apply (Hno EmailTaken). simpl. by apply by_email_present. }
  wp_run. unfold wp at 1. simpl in *.
  rewrite (insert_fresh _ _ _ _ _ E5 E6). wp_run. done.
Qed.


End Registration.


(** ** Every request is answered *)

Section Totality.

Context `{Runtime}.

Import UsersFacts.

Lemma wp_setSetting (key value : string) (s : Server) Q :
  wp (setSetting key value) s Q =
  Q tt (mkServer (users s)
          (if existsb (Settings.has_key key) (settings s)
           then Settings.overwrite key value (settings s)
           else settings s ++ [(key, value)])
          (disk s)).
Proof. unfold wp. by rewrite setSetting_spec. Qed.

Lemma wp_insert name e hash admin (t : Users.table) Q :
  present (Users.by_username name t) = false ->
  present (Users.by_email e t) = false ->
  wp (Users.insert name (Some e) hash admin) t Q =
  Q (Users.next_id t) (t ++ [Users.Row (Users.next_id t) name (Some e) hash admin]).
Proof. intros E1 E2. unfold wp. by rewrite insert_fresh. Qed.

End Totality.

(** Symbolic execution through every branch of a handler. *)
Ltac wp_branch :=
  match goal with
  | |- context [wp (if ?b then _ else _) _ _] => destruct b eqn:?
  | |- context [wp (match ?o with Some _ => _ | None => _ end) _ _] =>
      destruct o eqn:?
  | |- context [wp (match ?o with Ok _ => _ | Threw _ => _ end) _ _] =>
      destruct o as [[|]|] eqn:?
  | |- context [wp (match ?o with (_, _) => _ end) _ _] =>
      destruct o as [[?|] [?|]] eqn:?
  | |- context [wp (let (_, _) := ?o in _) _ _] =>
      destruct o as [[?|] [?|]] eqn:?
  end.

Ltac wp_all :=
  repeat first
    [ progress wp_run
    | rewrite wp_getSetting
    | rewrite wp_setSetting
    | rewrite wp_insert by (simpl in *; assumption)
    | progress unfold unlink, writeFile
    | wp_branch ].

(** ** The middleware before the routes *)

Section Middleware.

Context `{Runtime}.

(** A static mount reads the disk and touches nothing. *)
Lemma serveStatic_pure root req urlPath (c : Ctx) :
  exists o,
    (forall sess,
       serveStatic root req urlPath (mkCtx sess (server c)) =
         Ok (o, mkCtx sess (server c)))
    /\ (method req <> GET -> method req <> HEAD -> o = Passed).
Proof.
  unfold serveStatic.
  destruct (method req); try (by exists Passed);
    (eexists; split; [intros sess; unfold gets; simpl; reflexivity | done]).
Qed.

(** So do the two mounts together, and they pass on every request that
    is neither GET nor HEAD. *)
Lemma staticMounts_pure (req : Request) (c : Ctx) :
  exists o,
    staticMounts req c = Ok (o, c)
    /\ (forall sess,
          staticMounts req (mkCtx sess (server c)) = Ok (o, mkCtx sess (server c)))
    /\ (method req <> GET -> method req <> HEAD -> o = Passed).
Proof.
  cut (exists o,
         (forall sess,
            staticMounts req (mkCtx sess (server c)) = Ok (o, mkCtx sess (server c)))
         /\ (method req <> GET -> method req <> HEAD -> o = Passed)).
  { intros (o & Ho & Hp). exists o. split; [|done].
    specialize (Ho (session c)). by destruct c. }
  unfold staticMounts.
  destruct (serveStatic_pure PUBLIC_DIR req (path req) c) as (o & Ho & Hp).
  destruct (Express.mounted "/uploads" (path req)) as [rest|].
  - destruct (serveStatic_pure UPLOADS_DIR req rest c) as (o' & Ho' & Hp').
    exists (match o with Passed => o' | _ => o end). split.
    + intros sess. unfold bind. rewrite Ho. destruct o; first [done | apply Ho'].
    + intros Hg Hh. rewrite (Hp Hg Hh). by apply Hp'.
  - exists o. split; [|done].
    intros sess. unfold bind. rewrite Ho. by destruct o.
Qed.

(** The application, by what the body parser and the static mounts make
    of the request. *)
Lemma app_unfold (env : Env) (req : Request) (c : Ctx) (o : StaticOutcome) :
  staticMounts req c = Ok (o, c) ->
  app env req c =
    if parseError req then Ok (InternalError, c)
    else match o with
         | Served file => Ok (StaticFile file, c)
         | Directory => Ok (DirectoryRedirect, c)
         | Failed => errorHandler c
         | Passed => router env req (localsOf c) (handlerEntry c)
         end.
Proof.
  intros Hs. unfold app. destruct (parseError req); [done|].
  unfold bind at 1. rewrite Hs. by destruct o.
Qed.

Lemma app_static (env : Env) (req : Request) (c : Ctx) (file : string) :
  parseError req = false ->
  staticMounts req c = Ok (Served file, c) ->
  app env req c = Ok (StaticFile file, c).
Proof. intros Hp Hs. by rewrite (app_unfold env req c _ Hs), Hp. Qed.

Lemma app_routed (env : Env) (req : Request) (c : Ctx) :
  parseError req = false ->
  staticMounts req c = Ok (Passed, c) ->
  app env req c = router env req (localsOf c) (handlerEntry c).
Proof. intros Hp Hs. by rewrite (app_unfold env req c _ Hs), Hp. Qed.

Lemma errorHandler_spec (c : Ctx) :
  errorHandler c = Ok (Redirect "back", withFlash (Some somethingWrong) c).
Proof. reflexivity. Qed.


End Middleware.

(** ** The captcha *)

Section Captcha.

Context `{Runtime}.

Ltac kept := unfold captchaKept; simpl; auto.

Lemma postRegister_consumes env req c :
  wp (postRegister env req) c (fun _ c' => Session.captcha (session c') = None).
Proof. destruct c as [[u cap fl] srv]. unfold postRegister. wp_all; done. Qed.

Lemma postLogin_consumes req c :
  wp (postLogin req) c (fun _ c' => Session.captcha (session c') = None).
Proof. destruct c as [[u cap fl] srv]. unfold postLogin. wp_all; done. Qed.

Lemma getIndex_kept req locals c :
  wp (getIndex req locals) c (fun _ c' => captchaKept c c').
Proof. destruct c as [[u cap fl] srv]. unfold getIndex. wp_all; kept. Qed.

Lemma getDownload_kept c : wp getDownload c (fun _ c' => captchaKept c c').
Proof. destruct c as [[u cap fl] srv]. unfold getDownload. wp_all; kept. Qed.

Lemma getAdmin_kept locals c :
  wp (getAdmin locals) c (fun _ c' => captchaKept c c').
Proof. destruct c as [[u cap fl] srv]. unfold getAdmin. wp_all; kept. Qed.

Lemma postUploadImage_kept env req c :
  wp (postUploadImage env req) c (fun _ c' => captchaKept c c').
Proof.
  destruct c as [[u cap fl] srv]. unfold postUploadImage, multer_single.
  wp_all; kept.
Qed.

Lemma postUploadZip_kept env req c :
  wp (postUploadZip env req) c (fun _ c' => captchaKept c c').
Proof.
  destruct c as [[u cap fl] srv]. unfold postUploadZip, multer_single.
  wp_all; kept.
Qed.

Lemma requireAuth_wp req (next : Handler) c Q :
  Q (Redirect ("/login?next=" +:+ Js.encodeURIComponent (originalUrl req))) c ->
  wp next c Q ->
  wp (requireAuth req next) c Q.
Proof. intros HQ Hn. unfold requireAuth. wp_all; done. Qed.

Lemma requireAdmin_wp (next : Handler) c Q :
  Q (Redirect "/login?next=/admin") c ->
  wp next c Q ->
  wp (requireAdmin next) c Q.
Proof. intros HQ Hn. unfold requireAdmin. wp_all; done. Qed.

Lemma router_kept env req locals c :
  routed GET "/captcha" req = false ->
  wp (router env req locals) c (fun _ c' => captchaKept c c').
Proof.
  intros Hr. unfold router. rewrite Hr.
  repeat match goal with
         | |- wp (if ?b then _ else _) _ _ => destruct b
         end.
  - apply getIndex_kept.
  - unfold getRegister. wp_all. kept.
  - eapply wp_mono; [|apply postRegister_consumes]. kept.
  - unfold getLogin. wp_all. kept.
  - eapply wp_mono; [|apply postLogin_consumes]. kept.
  - apply requireAuth_wp; [kept|]. unfold postLogout. wp_all. kept.
  - apply requireAuth_wp; [kept|]. apply getDownload_kept.
  - apply requireAdmin_wp; [kept|]. apply getAdmin_kept.
  - apply requireAdmin_wp; [kept|]. apply postUploadImage_kept.
  - apply requireAdmin_wp; [kept|]. apply postUploadZip_kept.
  - unfold unrouted.
    destruct (method req), (Express.allowed routes (path req)); wp_all; kept.
Qed.

(** Every request is answered, and only [GET /captcha] can leave an
    answer outstanding that was not outstanding before. *)
Lemma app_answers (env : Env) (req : Request) (c : Ctx) :
  wp (app env req) c (fun _ c' =>
    routed GET "/captcha" req = false -> captchaKept c c').
Proof.
  unfold wp. destruct (staticMounts_pure req c) as (o & Ho & _ & _).
  rewrite (app_unfold env req c o Ho).
  destruct (parseError req); [intros _; kept|].
  destruct o; try (intros _; kept).
  - destruct (routed GET "/captcha" req) eqn:Hr.
    + unfold router. rewrite Hr. unfold getCaptcha. by async.
    + pose proof (router_kept env req (localsOf c) (handlerEntry c) Hr) as Hk.
      unfold wp in Hk.
      destruct (router env req (localsOf c) (handlerEntry c)) as [[r c']|e];
        [|done].
      intros _. destruct Hk as [Hk|Hk]; unfold captchaKept; rewrite Hk; simpl; auto.
Qed.



Lemma postLogin_wrong_captcha req c :
  ~ captchaMatches (Session.captcha (session c)) (submitted req) ->
  postLogin req c =
    Ok (Redirect "/login",
        mkCtx (Session.Make (Session.user (session c)) None (Some badCaptcha))
          (server c)).
Proof.
  intros Hno. apply wp_returns. destruct c as [[u cap fl] srv].
  unfold submitted in Hno. unfold postLogin. wp_run.
  destruct (falsy _ || differs _ _) eqn:E; [wp_run; done|].
  apply captcha_check in E. done.
Qed.

Lemma no_captcha_no_match (submission : string) :
  ~ captchaMatches None submission.
Proof. by intros (s & [=] & _). Qed.



Lemma serve_app (l1 l2 : list (Env * Request)) (c : Ctx) :
  serve (l1 ++ l2) c =
  match serve l1 c with
  | Ok (rs1, c1) =>
      match serve l2 c1 with
      | Ok (rs2, c2) => Ok (rs1 ++ rs2, c2)
      | Threw e => Threw e
      end
  | Threw e => Threw e
  end.
Proof.
  revert c. induction l1 as [|[env req] l1 IH]; intros c; simpl.
  - by destruct (serve l2 c) as [[rs2 c2]|e].
  - destruct (app env req c) as [[r c']|e]; [|done].
    rewrite IH. destruct (serve l1 c') as [[rs1 c1]|e]; [|done].
    by destruct (serve l2 c1) as [[rs2 c2]|e].
Qed.



End Captcha.


(** ** The return path survives its encoding *)

Module UriFacts.

Import Js.

Lemma hex_roundtrip (c : ascii) :
  hex_value (hex_digit (nat_of_ascii c / 16)) = Some (nat_of_ascii c / 16)
  /\ hex_value (hex_digit (nat_of_ascii c mod 16)) = Some (nat_of_ascii c mod 16)
  /\ ascii_of_nat (16 * (nat_of_ascii c / 16) + nat_of_ascii c mod 16) = c.
Proof.
  destruct c as [[] [] [] [] [] [] [] []]; vm_compute; auto.
Qed.

Lemma decode_plain (c : ascii) (r : string) :
  uri_unreserved c = true ->
  decodeURIComponent (String c r) = String c <$> decodeURIComponent r.
Proof.
  destruct c as [[] [] [] [] [] [] [] []]; intros Hu;
    first [reflexivity | discriminate Hu].
Qed.

Lemma decode_escape (h l : ascii) (r : string) :
  decodeURIComponent (String "%" (String h (String l r))) =
  match hex_value h, hex_value l, decodeURIComponent r with
  | Some a, Some b, Some r' => Some (String (ascii_of_nat (16 * a + b)) r')
  | _, _, _ => None
  end.
Proof. reflexivity. Qed.

Lemma decode_encode (s : string) :
  decodeURIComponent (encodeURIComponent s) = Some s.
Proof.
  induction s as [|c r IH].
  - reflexivity.
  - cbn [encodeURIComponent]. destruct (uri_unreserved c) eqn:Hu.
    + by rewrite (decode_plain c _ Hu), IH.
    + rewrite decode_escape.
      destruct (hex_roundtrip c) as (-> & -> & ->). by rewrite IH.
Qed.

End UriFacts.

(** ** The gates *)

Section Gates.

Context `{Runtime}.

Lemma requireAdmin_refuses (next : Handler) (c : Ctx) :
  notAdmin (session c) ->
  requireAdmin next c = Ok (Redirect "/login?next=/admin", c).
Proof.
  intros Hn. unfold requireAdmin. async.
  destruct Hn as [-> | (u & -> & ->)]; reflexivity.
Qed.

Lemma requireAuth_refuses (req : Request) (next : Handler) (c : Ctx) :
  Session.user (session c) = None ->
  requireAuth req next c =
    Ok (Redirect ("/login?next=" +:+ Js.encodeURIComponent (originalUrl req)), c).
Proof. intros Hn. unfold requireAuth. async. by rewrite Hn. Qed.

Lemma router_admin (env : Env) (req : Request) (locals : Locals) (c : Ctx) :
  adminRoute req ->
  notAdmin (session c) ->
  router env req locals c = Ok (Redirect "/login?next=/admin", c).
Proof.
  intros Hr Hn. destruct req as [m p url q b f].
  unfold router, routed, adminRoute in *. simpl in *.
  destruct Hr as [[-> ->] | [[-> ->] | [-> ->]]]; simpl;
    by apply requireAdmin_refuses.
Qed.

(** C5.  On a session without a user, or whose user is not an
    administrator, the admin gate answers with a redirect to
    [/login?next=/admin] whatever handler stands behind it, leaving
    session and server as they were, and so do the three admin routes;
    the plain gate sends a session without a user to [/login] with the
    original URL, URI-encoded, as its [next] parameter. *)
Theorem gates_redirect (env : Env) (req : Request) (c : Ctx) :
  (notAdmin (session c) ->
     (forall next : Handler,
        requireAdmin next c = Ok (Redirect "/login?next=/admin", c))
     /\ (adminRoute req ->
         forall locals,
           router env req locals c = Ok (Redirect "/login?next=/admin", c)))
  /\ (Session.user (session c) = None ->
      (forall next : Handler,
         requireAuth req next c =
           Ok (Redirect
                 ("/login?next=" +:+ Js.encodeURIComponent (originalUrl req)), c))
      /\ Js.decodeURIComponent (Js.encodeURIComponent (originalUrl req)) =
           Some (originalUrl req)).
Proof.
  split.
  - intros Hn. split.
    + intros next. by apply requireAdmin_refuses.
    + intros Hr locals. by apply router_admin.
  - intros Hn. split.
    + intros next. by apply requireAuth_refuses.
    + apply UriFacts.decode_encode.
Qed.

End Gates.

(** A signed-in user without the admin flag asks for the admin page; a
    visitor asks for the download. *)
Lemma gates_redirect_witness :
  let bob := Session.Make (Some (Session.User 2 "bob" "bob@x.org" false)) None None in
  let srv := mkServer [] [] ∅ in
  router (H := demoRuntime) demoEnv (demoGet "/admin") (mkLocals None None)
    (mkCtx bob srv) = Ok (Redirect "/login?next=/admin", mkCtx bob srv)
  /\ requireAuth (demoGet "/download?v=1") (getDownload (H := demoRuntime))
       (mkCtx Session.fresh srv) =
     Ok (Redirect "/login?next=%2Fdownload%3Fv%3D1", mkCtx Session.fresh srv).
Proof.
  intros bob srv. split.
  - refine (proj2 (proj1 (gates_redirect (H := demoRuntime) demoEnv
              (demoGet "/admin") (mkCtx bob srv)) _) _ (mkLocals None None)).
    + right. exists (Session.User 2 "bob" "bob@x.org" false). split; reflexivity.
    + left. split; reflexivity.
  - exact (proj1 (proj2 (gates_redirect (H := demoRuntime) demoEnv
              (demoGet "/download?v=1") (mkCtx Session.fresh srv)) eq_refl)
             (getDownload (H := demoRuntime))).
Defined.

(** ** The download route *)

Section DownloadRoute.

Context `{Runtime}.

Lemma DEFAULT_ZIP_PATH_value : DEFAULT_ZIP_PATH = "downloads/whitecore-default.zip".
Proof. reflexivity. Qed.

Lemma toAbsolutePath_default :
  toAbsolutePath DEFAULT_ZIP_PATH =
    Some (Path.join [__dirname; "downloads/whitecore-default.zip"]).
Proof. rewrite DEFAULT_ZIP_PATH_value. reflexivity. Qed.

Lemma toAbsolutePath_None (storedPath : string) :
  toAbsolutePath storedPath = None <-> storedPath = EmptyString.
Proof.
  unfold toAbsolutePath. destruct storedPath as [|a r]; simpl; [done|].
  destruct (Path.is_slash a); split; discriminate.
Qed.

(** A process started on an empty database has both defaults stored. *)
Lemma boot_settings (env : Env) (files : gset string) :
  exists s,
    boot env files = Ok (tt, s)
    /\ settings s = [("cheat_image_url", DEFAULT_IMAGE_URL);
                     ("cheat_zip_path", DEFAULT_ZIP_PATH)]
    /\ disk s = files.
Proof. eexists. split; [reflexivity|]. split; reflexivity. Qed.

Lemma getDownload_spec (c : Ctx) :
  getDownload c =
  match toAbsolutePath
          (default DEFAULT_ZIP_PATH
             (Settings.select "cheat_zip_path" (settings (server c)))) with
  | Some file =>
      if bool_decide (file ∈ disk (server c))
      then Ok (Download file (Js.or_else (Path.basename file) "whitecore.zip")
                 [("Cache-Control", "no-store")], c)
      else notAvailable c
  | None => notAvailable c
  end.
Proof.
  destruct c as [sess srv]. unfold getDownload, notAvailable.
  unfold bind at 1, await at 1, zoom at 1. rewrite getSetting_spec. simpl.
  destruct (toAbsolutePath _) as [file|]; [|by destruct srv].
  async. unfold existsSync. simpl.
  destruct (bool_decide (file ∈ disk srv)); by destruct srv.
Qed.

(** C4.  For a signed-in session, [GET /download] is answered by a
    redirect to [/] with an error flash when the stored archive path
    resolves to nothing or to a file that is not on disk, and otherwise
    by that file as an attachment with [Cache-Control: no-store]; it never
    throws.  In particular a process started on an empty database whose
    default archive is not on disk answers with the redirect. *)
Theorem download_available_or_redirect (req : Request) (c : Ctx) (u : Session.user_t) :
  Session.user (session c) = Some u ->
  (match toAbsolutePath
           (default DEFAULT_ZIP_PATH
              (Settings.select "cheat_zip_path" (settings (server c)))) with
   | Some file =>
       if bool_decide (file ∈ disk (server c))
       then requireAuth req getDownload c =
              Ok (Download file (Js.or_else (Path.basename file) "whitecore.zip")
                    [("Cache-Control", "no-store")], c)
       else requireAuth req getDownload c = notAvailable c
   | None => requireAuth req getDownload c = notAvailable c
   end)
  /\ (forall env files s,
        boot env files = Ok (tt, s) ->
        server c = s ->
        Path.join [__dirname; "downloads/whitecore-default.zip"] ∉ files ->
        requireAuth req getDownload c = notAvailable c).
Proof.
  intros Hu.
  assert (Hgate : requireAuth req getDownload c = getDownload c).
  { unfold requireAuth. async. by rewrite Hu. }
  rewrite Hgate, getDownload_spec. split.
  - destruct (toAbsolutePath _) as [file|]; [|done].
    by destruct (bool_decide (file ∈ disk (server c))).
  - intros env files s Hboot Hs Hfile.
    destruct (boot_settings env files) as (s' & Hboot' & Hset & Hdisk).
    rewrite Hboot' in Hboot. injection Hboot as <-. subst s'.
    rewrite Hset.
    replace (Settings.select "cheat_zip_path" _) with (Some DEFAULT_ZIP_PATH)
      by reflexivity.
    change (default DEFAULT_ZIP_PATH (Some DEFAULT_ZIP_PATH)) with DEFAULT_ZIP_PATH.
    rewrite toAbsolutePath_default, Hdisk.
    by rewrite bool_decide_eq_false_2.
Qed.

End DownloadRoute.

(** A freshly started process without the default archive on disk. *)
Lemma download_available_or_redirect_witness :
  let bob := Session.Make (Some (Session.User 2 "bob" "bob@x.org" false)) None None in
  match boot (H := demoRuntime) demoEnv ∅ with
  | Ok (_, s) =>
      requireAuth (demoGet "/download") (getDownload (H := demoRuntime))
        (mkCtx bob s) = notAvailable (mkCtx bob s)
  | Threw _ => False
  end.
Proof.
  intros bob.
  destruct (boot (H := demoRuntime) demoEnv ∅) as [[[] s]|e] eqn:Hs;
    [|discriminate Hs].
  refine (proj2 (download_available_or_redirect (H := demoRuntime)
            (demoGet "/download") (mkCtx bob s) _ eq_refl) demoEnv ∅ s Hs eq_refl _).
  apply not_elem_of_empty.
Defined.

(** ** Login *)

Section Login.

Context `{Runtime}.

Import UsersFacts.

Lemma by_username_or_email_Some name (t : Users.table) (r : Users.row) :
  Users.by_username_or_email name (Js.toLowerCase name) t = Some r ->
  r ∈ t /\ answers name r.
Proof.
  unfold Users.by_username_or_email, Users.by_username, Users.by_email.
  destruct (List.find (Users.has_username name) t) as [x|] eqn:Hu.
  - intros [= ->]. apply find_elem in Hu as [Hin Hp]. split; [done|].
    left. by apply has_username_true.
  - intros He. apply find_elem in He as [Hin Hp]. split; [done|].
    right. by apply has_email_true.
Qed.


(** Under the constraints of the table a username names one row, and so
    does an e-mail. *)
Lemma username_names_one (t : Users.table) (r r' : Users.row) :
  NoDup (map Users.username t) ->
  r ∈ t -> r' ∈ t -> Users.username r = Users.username r' -> r = r'.
Proof.
  induction t as [|x t IH]; intros Hnd Hr Hr' Heq.
  - by apply elem_of_nil in Hr.
  - simpl in Hnd. apply NoDup_cons in Hnd as [Hx Hnd].
    apply elem_of_cons in Hr as [->|Hr], Hr' as [->|Hr']; [done| | |by apply IH].
    + destruct Hx. rewrite Heq. by apply list_elem_of_fmap_2.
    + destruct Hx. rewrite <- Heq. by apply list_elem_of_fmap_2.
Qed.

Lemma email_names_one (t : Users.table) (r r' : Users.row) (e : string) :
  NoDup (omap Users.email t) ->
  r ∈ t -> r' ∈ t -> Users.email r = Some e -> Users.email r' = Some e -> r = r'.
Proof.
  induction t as [|x t IH]; intros Hnd Hr Hr' He He'.
  - by apply elem_of_nil in Hr.
  - assert (Hin : forall y, y ∈ t -> Users.email y = Some e ->
                            e ∈ omap Users.email t).
    { intros y Hy Hey. apply list_elem_of_omap. eauto. }
    apply elem_of_cons in Hr as [->|Hr], Hr' as [->|Hr']; [done| | |].
    + simpl in Hnd. rewrite He in Hnd. apply NoDup_cons in Hnd as [Hx _].
      destruct Hx. by apply (Hin r').
    + simpl in Hnd. rewrite He' in Hnd. apply NoDup_cons in Hnd as [Hx _].
      destruct Hx. by apply (Hin r).
    + apply IH; try done. simpl in Hnd.
      destruct (Users.email x); [by apply NoDup_cons in Hnd as [_ ?] | done].
Qed.

(** Under the constraints of the table the look-up finds the row the
    identifier stands for. *)
Lemma lookup_standsFor name (t : Users.table) (r : Users.row) :
  usersOk t ->
  Users.by_username_or_email name (Js.toLowerCase name) t = Some r <->
  standsFor name t r.
Proof.
  intros (_ & Hname & Hmail).
  unfold Users.by_username_or_email, Users.by_username, Users.by_email, standsFor.
  destruct (List.find (Users.has_username name) t) as [x|] eqn:Hu.
  - apply find_elem in Hu as [Hx Hpx]. apply has_username_true in Hpx.
    split.
    + intros [= ->]. split; [done|]. by left.
    + intros [Hr [Hn | [Hnone _]]].
      * f_equal. apply (username_names_one t); [done..|]. by rewrite Hpx, Hn.
      * by destruct (Hnone x Hx).
  - assert (Hnone : forall y, y ∈ t -> Users.username y <> name).
    { intros y Hy Hn. apply list_elem_of_In in Hy.
      pose proof (List.find_none _ _ Hu y Hy) as Hf.
      apply has_username_true in Hn. congruence. }
    split.
    + intros He. apply find_elem in He as [Hr Hp]. apply has_email_true in Hp.
      split; [done|]. right. by split.
    + intros [Hr [Hn | [_ He]]]; [by destruct (Hnone r Hr)|].
      destruct (List.find (Users.has_email (Js.toLowerCase name)) t)
        as [y|] eqn:Hf.
      * apply find_elem in Hf as [Hy Hpy]. apply has_email_true in Hpy.
        f_equal. by apply (email_names_one t y r (Js.toLowerCase name)).
      * apply list_elem_of_In in Hr.
        pose proof (List.find_none _ _ Hf r Hr) as Hn.
        apply has_email_true in He. congruence.
Qed.

Lemma postLogin_spec (req : Request) (c : Ctx) :
  captchaMatches (Session.captcha (session c)) (submitted req) ->
  let identifier := Js.trim (default EmptyString (Form.username (body req))) in
  let password := default EmptyString (Form.password (body req)) in
  let answer (u : option Session.user_t) (f : Session.flash_t) :=
    mkCtx (Session.Make u None (Some f)) (server c) in
  postLogin req c =
  match Users.by_username_or_email identifier (Js.toLowerCase identifier)
          (users (server c)) with
  | None => Ok (Redirect "/login", answer (Session.user (session c)) userNotFound)
  | Some r =>
      if bcrypt_compare password (Users.password_hash r)
      then Ok (Redirect (Js.or_else (default "/" (Form.next (body req))) "/"),
               answer (Some (snapshot r)) loggedIn)
      else Ok (Redirect "/login", answer (Session.user (session c)) wrongPassword)
  end.
Proof.
  intros Hm. cbv zeta. unfold submitted in Hm. apply captcha_check in Hm.
  destruct c as [[u cap fl] [us st dk]]. simpl in Hm.
  unfold postLogin. async. rewrite Hm. async.
  destruct (Users.by_username_or_email _ _ us) as [r|]; async; [|done].
  by destruct (bcrypt_compare _ _).
Qed.


End Login.


(** ** Prefixes and suffixes *)

Module StringFacts.

Lemma startsWith_iff (s p : string) :
  Js.startsWith s p = true <-> exists r, s = p +:+ r.
Proof.
  unfold Js.startsWith. revert s.
  induction p as [|a p IH]; intros s; destruct s as [|b s]; simpl.
  - split; [by exists EmptyString | done].
  - split; [by eexists | done].
  - split; [done | by intros [r ?]].
  - destruct (Ascii.ascii_dec a b) as [->|Hne].
    + rewrite IH. split; intros [r Hr]; exists r.
      * simpl. by rewrite Hr.
      * by injection Hr.
    + split; [done | intros [r Hr]; by injection Hr].
Qed.

Lemma length_append (a b : string) :
  String.length (a +:+ b) = String.length a + String.length b.
Proof. induction a as [|c a IH]; simpl; [done | by rewrite IH]. Qed.

Lemma substring_all (p : string) : String.substring 0 (String.length p) p = p.
Proof. induction p as [|c p IH]; simpl; [done | by rewrite IH]. Qed.

Lemma substring_append (r p : string) :
  String.substring (String.length r) (String.length p) (r +:+ p) = p.
Proof. induction r as [|c r IH]; simpl; [apply substring_all | exact IH]. Qed.

Lemma split_at (s : string) (k : nat) :
  k <= String.length s ->
  exists r,
    String.length r = k
    /\ s = r +:+ String.substring k (String.length s - k) s.
Proof.
  revert k. induction s as [|c s IH]; intros k Hk; simpl in *.
  - exists EmptyString. assert (k = 0) as -> by lia. done.
  - destruct k as [|k].
    + exists EmptyString. split; [done|]. simpl. by rewrite substring_all.
    + destruct (IH k) as (r & Hr & Hs); [lia|].
      exists (String c r). split; [simpl; by rewrite Hr|].
      change (String c s = String c (r +:+ String.substring k (String.length s - k) s)).
      by rewrite <- Hs.
Qed.

Lemma endsWith_iff (s p : string) :
  Js.endsWith s p = true <-> exists r, s = r +:+ p.
Proof.
  unfold Js.endsWith. rewrite andb_true_iff, Nat.leb_le, String.eqb_eq. split.
  - intros [Hle Hsub].
    destruct (split_at s (String.length s - String.length p)) as (r & Hr & Hs);
      [lia|].
    exists r. rewrite Hs at 1. f_equal. rewrite <- Hsub at 3. f_equal. lia.
  - intros [r ->]. rewrite length_append. split; [lia|].
    replace (String.length r + String.length p - String.length p)
      with (String.length r) by lia.
    apply substring_append.
Qed.

End StringFacts.

(** ** The upload slots *)

Section UploadFilters.

Context `{Runtime}.

Lemma uploadImage_fileFilter_accepts (file : File.t) :
  uploadImage_fileFilter file = Ok true <->
  Js.startsWith (File.mimetype file) "image/" = true.
Proof.
  unfold uploadImage_fileFilter.
  destruct (Js.startsWith _ _); split; (done || discriminate).
Qed.

Lemma uploadZip_fileFilter_accepts (file : File.t) :
  uploadZip_fileFilter file = Ok true <->
  Js.endsWith (Js.toLowerCase (File.originalname file)) ".zip" = true.
Proof.
  unfold uploadZip_fileFilter.
  destruct (Js.endsWith _ _); split; (done || discriminate).
Qed.

Lemma multer_single_refused field fileFilter destination filename req (s : Server) :
  (filePart req = None
   \/ exists file, filePart req = Some file /\ fileFilter file <> Ok true) ->
  exists err,
    multer_single field fileFilter destination filename req s = Ok ((err, None), s).
Proof.
  unfold multer_single. intros [-> | (file & -> & Hno)]; [by eexists|].
  destruct (negb (Js.truthy _)); [by eexists|].
  destruct (negb (String.eqb _ _)); [by eexists|].
  destruct (fileFilter file) as [[|]|e]; [done | by eexists | by eexists].
Qed.

Lemma postUploadImage_refused env req c :
  (filePart req = None
   \/ exists file, filePart req = Some file /\ uploadImage_fileFilter file <> Ok true) ->
  uploadRefused c (postUploadImage env req c).
Proof.
  intros Hno. destruct c as [sess srv].
  destruct (multer_single_refused "cheatImage" uploadImage_fileFilter UPLOADS_DIR
              (imageStorage_filename env) req srv Hno) as [err Hm].
  unfold uploadRefused, postUploadImage. unfold bind at 1, await at 1, zoom at 1.
  simpl. rewrite Hm. destruct err as [err|]; async; destruct srv; by eexists.
Qed.

Lemma postUploadZip_refused env req c :
  (filePart req = None
   \/ exists file, filePart req = Some file /\ uploadZip_fileFilter file <> Ok true) ->
  uploadRefused c (postUploadZip env req c).
Proof.
  intros Hno. destruct c as [sess srv].
  destruct (multer_single_refused "cheatZip" uploadZip_fileFilter DOWNLOADS_DIR
              (zipStorage_filename env) req srv Hno) as [err Hm].
  unfold uploadRefused, postUploadZip. unfold bind at 1, await at 1, zoom at 1.
  simpl. rewrite Hm. destruct err as [err|]; async; destruct srv; by eexists.
Qed.

(** C8.  The image slot's filter accepts a file exactly when its MIME
    type starts with [image/], and the archive slot's exactly when its
    original name in lower case ends with [.zip].  A request whose file
    part is missing or is refused by the filter is answered by an error
    flash and a redirect to [/admin], and the server state (settings,
    files on disk, users) is what it was: no setting is changed and no
    file is deleted. *)
Theorem upload_allow_lists (env : Env) (req : Request) (c : Ctx) :
  (forall file,
     (uploadImage_fileFilter file = Ok true <->
      exists rest, File.mimetype file = "image/" +:+ rest)
     /\ (uploadZip_fileFilter file = Ok true <->
         exists stem, Js.toLowerCase (File.originalname file) = stem +:+ ".zip"))
  /\ ((filePart req = None
       \/ exists file,
            filePart req = Some file /\ uploadImage_fileFilter file <> Ok true) ->
      uploadRefused c (postUploadImage env req c))
  /\ ((filePart req = None
       \/ exists file,
            filePart req = Some file /\ uploadZip_fileFilter file <> Ok true) ->
      uploadRefused c (postUploadZip env req c)).
Proof.
  split; [|split].
  - intros file. split.
    + by rewrite uploadImage_fileFilter_accepts, StringFacts.startsWith_iff.
    + by rewrite uploadZip_fileFilter_accepts, StringFacts.endsWith_iff.
  - apply postUploadImage_refused.
  - apply postUploadZip_refused.
Qed.

End UploadFilters.

(** A text file offered to the archive slot. *)
Lemma upload_allow_lists_witness :
  let admin := Session.Make (Some (Session.User 1 "RURI" EmptyString true)) None None in
  let srv := mkServer [] [("cheat_zip_path", "downloads/whitecore-1.zip")]
               {["/srv/whitecore/downloads/whitecore-1.zip"]} in
  let req := demoPost "/admin/upload-zip" Form.empty
               (Some (File.Make "cheatZip" "notes.txt" "text/plain")) in
  uploadRefused (mkCtx admin srv)
    (postUploadZip (H := demoRuntime) demoEnv req (mkCtx admin srv)).
Proof.
  intros admin srv req.
  refine (proj2 (proj2 (upload_allow_lists (H := demoRuntime) demoEnv req
            (mkCtx admin srv))) _).
  right. exists (File.Make "cheatZip" "notes.txt" "text/plain").
  split; [reflexivity | discriminate].
Defined.

(** ** Replacing an asset *)

Section Replacement.

Context `{Runtime}.

Lemma multer_single_accepted field fileFilter destination filename req file
    (s : Server) :
  filePart req = Some file ->
  File.originalname file <> EmptyString ->
  File.fieldname file = field ->
  fileFilter file = Ok true ->
  multer_single field fileFilter destination filename req s =
    Ok ((None, Some (filename file)),
        mkServer (users s) (settings s)
          ({[Path.join [destination; filename file]]} ∪ disk s)).
Proof.
  intros Hpart Hname <- Hok. unfold multer_single. rewrite Hpart.
  destruct (File.originalname file) as [|a r] eqn:E; [done|]. simpl.
  rewrite String.eqb_refl, Hok. reflexivity.
Qed.

Lemma zip_name_not_empty (file : File.t) :
  uploadZip_fileFilter file = Ok true -> File.originalname file <> EmptyString.
Proof.
  intros Hok E. unfold uploadZip_fileFilter in Hok. rewrite E in Hok.
  discriminate Hok.
Qed.

Lemma difference_absent (d : gset string) (p : string) : p ∉ d -> d ∖ {[p]} = d.
Proof. intros Hp. apply difference_disjoint_L, disjoint_singleton_r, Hp. Qed.

(** A stored path inside [downloads] resolves below the script's
    directory. *)
Lemma toAbsolutePath_downloads (prev : string) :
  Js.startsWith prev "downloads" = true ->
  toAbsolutePath prev = Some (Path.join [__dirname; prev]).
Proof.
  intros Hp. apply StringFacts.startsWith_iff in Hp as [r ->]. reflexivity.
Qed.

(** A stored URL inside [/uploads/] is taken for an absolute path of the
    file system. *)
Lemma toAbsolutePath_uploads (prev : string) :
  Js.startsWith prev "/uploads/" = true ->
  toAbsolutePath prev = Some prev.
Proof.
  intros Hp. apply StringFacts.startsWith_iff in Hp as [r ->]. reflexivity.
Qed.

Lemma select_upserted key v (t : Settings.table) :
  Settings.select key
    (if existsb (Settings.has_key key) t
     then Settings.overwrite key v t
     else t ++ [(key, v)]) = Some v.
Proof.
  destruct (existsb _ t) eqn:E.
  - destruct (SettingsFacts.select_present _ _ E) as [x Hx].
    by rewrite SettingsFacts.select_overwrite, String.eqb_refl, Hx.
  - apply SettingsFacts.select_absent in E.
    by rewrite SettingsFacts.select_snoc, E, String.eqb_refl.
Qed.

(** The archive slot: the setting names the new file, and the file the
    previous value resolves to is gone when that value began with
    [downloads]. *)
Lemma postUploadZip_accepted env req c file :
  filePart req = Some file ->
  File.fieldname file = "cheatZip" ->
  uploadZip_fileFilter file = Ok true ->
  let filename := zipStorage_filename env file in
  let prev := default DEFAULT_ZIP_PATH
                (Settings.select "cheat_zip_path" (settings (server c))) in
  let written := {[Path.join [DOWNLOADS_DIR; filename]]} ∪ disk (server c) in
  exists c',
    postUploadZip env req c = Ok (Redirect "/admin", c')
    /\ Settings.select "cheat_zip_path" (settings (server c')) =
         Some (Path.join ["downloads"; filename])
    /\ disk (server c') =
         (if Js.startsWith prev "downloads"
          then written ∖ {[Path.join [__dirname; prev]]}
          else written).
Proof.
  intros Hpart Hfield Hok. cbv zeta. destruct c as [sess [us st dk]].
  simpl server. simpl settings. simpl disk.
  set (filename := zipStorage_filename env file).
  set (prev := default DEFAULT_ZIP_PATH (Settings.select "cheat_zip_path" st)).
  set (written := {[Path.join [DOWNLOADS_DIR; filename]]} ∪ dk).
  cut (wp (postUploadZip env req) (mkCtx sess (mkServer us st dk))
         (fun r c' =>
            r = Redirect "/admin"
            /\ Settings.select "cheat_zip_path" (settings (server c')) =
                 Some (Path.join ["downloads"; filename])
            /\ disk (server c') =
                 (if Js.startsWith prev "downloads"
                  then written ∖ {[Path.join [__dirname; prev]]}
                  else written))).
  { rewrite wp_total. intros (r & c' & -> & -> & ? & ?). eauto. }
  pose proof (select_upserted "cheat_zip_path") as Hsel.
  unfold postUploadZip. rewrite wp_bind. unfold await at 1. rewrite wp_zoom.
  unfold wp at 1.
  rewrite (multer_single_accepted _ _ _ _ _ file _ Hpart
             (zip_name_not_empty _ Hok) Hfield Hok).
  simpl server. simpl session. simpl users. simpl settings. simpl disk.
  cbv beta. fold filename written.
  rewrite wp_bind. unfold await at 1.
  rewrite wp_zoom, wp_getSetting.
  simpl server. simpl session. simpl users. simpl settings. simpl disk.
  fold prev. cbv beta. rewrite wp_bind.
  destruct (Js.startsWith prev "downloads") eqn:Hp.
  - assert (Js.truthy prev = true) as ->.
    { apply StringFacts.startsWith_iff in Hp as [r ->]. reflexivity. }
    simpl andb. cbv iota. rewrite (toAbsolutePath_downloads _ Hp).
    wp_run. unfold existsSync. simpl disk.
    destruct (bool_decide (Path.join [__dirname; prev] ∈ written)) eqn:Hin.
    + unfold unlink. wp_run. rewrite wp_setSetting. wp_run. simpl.
      by rewrite Hsel.
    + wp_run. rewrite wp_setSetting. wp_run. simpl. rewrite Hsel.
      apply bool_decide_eq_false in Hin.
      by rewrite (difference_absent _ _ Hin).
  - rewrite andb_false_r. wp_run. rewrite wp_setSetting. wp_run. simpl.
    by rewrite Hsel.
Qed.

(** The image slot: the setting names the new file; what is unlinked
    when the previous value began with [/uploads/] is that value read as
    a path from the root of the file system. *)
Lemma postUploadImage_accepted env req c file :
  filePart req = Some file ->
  File.fieldname file = "cheatImage" ->
  File.originalname file <> EmptyString ->
  uploadImage_fileFilter file = Ok true ->
  let filename := imageStorage_filename env file in
  let prev := default DEFAULT_IMAGE_URL
                (Settings.select "cheat_image_url" (settings (server c))) in
  let written := {[Path.join [UPLOADS_DIR; filename]]} ∪ disk (server c) in
  exists c',
    postUploadImage env req c = Ok (Redirect "/admin", c')
    /\ Settings.select "cheat_image_url" (settings (server c')) =
         Some ("/uploads/" +:+ filename)
    /\ disk (server c') =
         (if Js.startsWith prev "/uploads/" then written ∖ {[prev]} else written).
Proof.
  intros Hpart Hfield Hname Hok. cbv zeta. destruct c as [sess [us st dk]].
  simpl server. simpl settings. simpl disk.
  set (filename := imageStorage_filename env file).
  set (prev := default DEFAULT_IMAGE_URL (Settings.select "cheat_image_url" st)).
  set (written := {[Path.join [UPLOADS_DIR; filename]]} ∪ dk).
  cut (wp (postUploadImage env req) (mkCtx sess (mkServer us st dk))
         (fun r c' =>
            r = Redirect "/admin"
            /\ Settings.select "cheat_image_url" (settings (server c')) =
                 Some ("/uploads/" +:+ filename)
            /\ disk (server c') =
                 (if Js.startsWith prev "/uploads/"
                  then written ∖ {[prev]} else written))).
  { rewrite wp_total. intros (r & c' & -> & -> & ? & ?). eauto. }
  pose proof (select_upserted "cheat_image_url") as Hsel.
  unfold postUploadImage. rewrite wp_bind. unfold await at 1. rewrite wp_zoom.
  unfold wp at 1.
  rewrite (multer_single_accepted _ _ _ _ _ file _ Hpart Hname Hfield Hok).
  simpl server. simpl session. simpl users. simpl settings. simpl disk.
  cbv beta. fold filename written.
  rewrite wp_bind. unfold await at 1.
  rewrite wp_zoom, wp_getSetting.
  simpl server. simpl session. simpl users. simpl settings. simpl disk.
  fold prev. cbv beta. rewrite wp_bind.
  destruct (Js.startsWith prev "/uploads/") eqn:Hp.
  - assert (Js.truthy prev = true) as ->.
    { apply StringFacts.startsWith_iff in Hp as [r ->]. reflexivity. }
    simpl andb. cbv iota. rewrite (toAbsolutePath_uploads _ Hp).
    wp_run. unfold existsSync. simpl disk.
    destruct (bool_decide (prev ∈ written)) eqn:Hin.
    + unfold unlink. wp_run. rewrite wp_setSetting. wp_run. simpl.
      by rewrite Hsel.
    + wp_run. rewrite wp_setSetting. wp_run. simpl. rewrite Hsel.
      apply bool_decide_eq_false in Hin.
      by rewrite (difference_absent _ _ Hin).
  - rewrite andb_false_r. wp_run. rewrite wp_setSetting. wp_run. simpl.
    by rewrite Hsel.
Qed.

End Replacement.

(** C3.  Replacing the image while the setting points at an uploaded
    image: the installation lives in [/srv/whitecore], the setting is
    [/uploads/cheat-1.png], and that file, the one served under this URL,
    is on disk.  After an accepted upload the setting names the new file,
    and the previous file is still on disk: the handler looked for it at
    [/uploads/cheat-1.png] from the root of the file system. *)
Theorem image_replacement_keeps_previous_file :
  let admin := Session.Make (Some (Session.User 1 "RURI" EmptyString true)) None None in
  let srv := mkServer [] [("cheat_image_url", "/uploads/cheat-1.png")]
               {["/srv/whitecore/uploads/cheat-1.png"]} in
  let req := demoPost "/admin/upload-image" Form.empty
               (Some (File.Make "cheatImage" "new.png" "image/png")) in
  app (H := demoRuntime) demoEnv (demoGet "/uploads/cheat-1.png") (mkCtx admin srv)
    = Ok (StaticFile "/srv/whitecore/uploads/cheat-1.png", mkCtx admin srv)
  /\ exists c',
       app (H := demoRuntime) demoEnv req (mkCtx admin srv) = Ok (Redirect "/admin", c')
       /\ Settings.select "cheat_image_url" (settings (server c')) =
            Some "/uploads/cheat-2.png"
       /\ "/srv/whitecore/uploads/cheat-2.png" ∈ disk (server c')
       /\ "/srv/whitecore/uploads/cheat-1.png" ∈ disk (server c').
Proof.
  intros admin srv req. split.
  - vm_compute. reflexivity.
  - eexists. split; [vm_compute; reflexivity|].
    split; [reflexivity|]. split; apply (bool_decide_unpack _); by vm_compute.
Qed.

(** ** The flash message *)

Section Flash.

Context `{Runtime}.

(** The pages rendered with the locals change nothing. *)
Lemma getIndex_pure req locals c : exists r, getIndex req locals c = Ok (r, c).
Proof.
  cut (wp (getIndex req locals) c (fun _ c' => c' = c)).
  { rewrite wp_total. intros (r & c' & -> & ->). eauto. }
  destruct c as [sess [us st dk]]. unfold getIndex. wp_all; done.
Qed.

Lemma getAdmin_pure locals c : exists r, getAdmin locals c = Ok (r, c).
Proof.
  cut (wp (getAdmin locals) c (fun _ c' => c' = c)).
  { rewrite wp_total. intros (r & c' & -> & ->). eauto. }
  destruct c as [sess [us st dk]]. unfold getAdmin. wp_all; done.
Qed.

(** The locals reach the response only: the context a route leaves does
    not depend on them. *)
Lemma router_locals env req (l l' : Locals) (c : Ctx) r c' :
  router env req l c = Ok (r, c') ->
  exists r0, router env req l' c = Ok (r0, c').
Proof.
  unfold router.
  repeat match goal with
         | |- context [if ?b then _ else _] => destruct b
         end; try by eauto.
  - destruct (getIndex_pure req l c) as [r1 ->].
    destruct (getIndex_pure req l' c) as [r2 ->]. intros [= <- <-]. eauto.
  - unfold getRegister, ret. intros [= <- <-]. eauto.
  - unfold getLogin, ret. intros [= <- <-]. eauto.
  - unfold requireAdmin. async.
    destruct (match Session.user (session c) with
              | Some u => negb (Session.isAdmin u)
              | None => true
              end); [by eauto|].
    destruct (getAdmin_pure l c) as [r1 ->].
    destruct (getAdmin_pure l' c) as [r2 ->]. intros [= <- <-]. eauto.
Qed.

(** C10, as amended.  The locals middleware is reached by the requests
    that the body parser accepted and that both static mounts passed on,
    which they do with every request that is neither GET nor HEAD.  Such
    a request has the pending flash copied into the locals and deleted
    from the session before its route handler runs, so that handler
    starts from a session without a flash, and the context the request
    leaves does not depend on the flash that was pending: the flash is
    consumed whether or not a page is rendered.  A request that a static
    mount answers, with a file or with the redirect for a directory, and
    a request whose body the parser refused, do not reach the
    middleware: the session, and with it a pending flash, is left as it
    was.  A request on which a static mount fails goes to the error
    handler, which puts its own flash in place of the pending one. *)
Theorem flash_consumed_unless_static (env : Env) (req : Request) (c : Ctx) :
  exists o,
    staticMounts req c = Ok (o, c)
    /\ (method req <> GET -> method req <> HEAD -> o = Passed)
    /\ (parseError req = true -> app env req c = Ok (InternalError, c))
    /\ (parseError req = false ->
        match o with
        | Served file => app env req c = Ok (StaticFile file, c)
        | Directory => app env req c = Ok (DirectoryRedirect, c)
        | Failed =>
            app env req c =
              Ok (Redirect "back", withFlash (Some somethingWrong) c)
        | Passed =>
            app env req c = router env req (localsOf c) (handlerEntry c)
            /\ Session.flash (session (handlerEntry c)) = None
            /\ forall f r c',
                 app env req (withFlash f c) = Ok (r, c') ->
                 exists r0, app env req (withFlash None c) = Ok (r0, c')
        end).
Proof.
  destruct (staticMounts_pure req c) as (o & Ho & Hf & Hm).
  exists o. split; [done|]. split; [done|].
  rewrite (app_unfold env req c o Ho). split; [by intros ->|]. intros Hp.
  rewrite Hp. destruct o; try done.
  - split; [done|]. split; [done|]. intros f r c'.
    rewrite !(app_routed env req (withFlash _ c) Hp) by apply Hf.
    apply router_locals.
Qed.

End Flash.

(** C10, as stated, fails on a request for a public script: the flash
    set by a refused login is still in the session after the script has
    been served, and reaches the page rendered two requests later. *)
Lemma flash_survives_static_request :
  let srv := mkServer [] [] {["/srv/whitecore/public/js/admin.js"]} in
  let c0 := mkCtx Session.fresh srv in
  let c1 := mkCtx (Session.Make None None (Some badCaptcha)) srv in
  ~ localsRunOnEveryRequest (H := demoRuntime)
  /\ serve (H := demoRuntime)
       [(demoEnv, demoPost "/login" Form.empty None);
        (demoEnv, demoGet "/js/admin.js")] c0
     = Ok ([Redirect "/login"; StaticFile "/srv/whitecore/public/js/admin.js"], c1)
  /\ app (H := demoRuntime) demoEnv (demoGet "/login") c1
     = Ok (Render "login" (mkLocals None (Some badCaptcha))
             [("title", VString "Вход"); ("next", VString "/")], c0).
Proof.
  intros srv c0 c1. split; [|split].
  - intros Hall. specialize (Hall demoEnv (demoGet "/js/admin.js") c1).
    vm_compute in Hall. discriminate Hall.
  - vm_compute. reflexivity.
  - vm_compute. reflexivity.
Qed.

(** ** The bot *)

Section BotFrontEnd.

Context `{Runtime}.

Lemma loginWithCredentials_spec (username password : string) (s : Server) :
  Bot.loginWithCredentials username password s =
  Ok (match Users.by_username_or_email (Js.trim username)
              (Js.toLowerCase (Js.trim username)) (users s) with
      | Some r =>
          if bcrypt_compare password (Users.password_hash r)
          then Some (botSnapshot r) else None
      | None => None
      end, s).
Proof.
  destruct s as [us st dk]. unfold Bot.loginWithCredentials. async.
  destruct (Users.by_username_or_email _ _ us) as [r|]; async; [|done].
  by destruct (bcrypt_compare _ _).
Qed.

(** The web login and the bot run the same credential check. *)
Lemma credential_checks_agree (req : Request) (c : Ctx) :
  captchaMatches (Session.captcha (session c)) (submitted req) ->
  let username := default EmptyString (Form.username (body req)) in
  let password := default EmptyString (Form.password (body req)) in
  exists o r c',
    Bot.loginWithCredentials username password (server c) = Ok (o, server c)
    /\ postLogin req c = Ok (r, c')
    /\ server c' = server c
    /\ match o with
       | Some bu =>
           exists su,
             Session.user (session c') = Some su
             /\ Session.id su = Bot.id bu
             /\ Session.username su = Bot.username bu
             /\ Session.isAdmin su = Bot.isAdmin bu
             /\ Session.flash (session c') = Some loggedIn
       | None =>
           Session.user (session c') = Session.user (session c)
           /\ (Session.flash (session c') = Some userNotFound
               \/ Session.flash (session c') = Some wrongPassword)
       end.
Proof.
  intros Hm username password.
  rewrite loginWithCredentials_spec, (postLogin_spec req c Hm). cbv zeta.
  fold username password.
  destruct (Users.by_username_or_email _ _ (users (server c))) as [row|].
  - destruct (bcrypt_compare password (Users.password_hash row)).
    + do 3 eexists. repeat split. exists (snapshot row). by repeat split.
    + do 3 eexists. repeat split. simpl. by right.
  - do 3 eexists. repeat split. simpl. by left.
Qed.

Lemma onLogin_spec (chat : Z) (credentials : string) (bc : Bot.Ctx) :
  (exists u,
     botLoginYields credentials (Bot.server bc) u
     /\ Bot.onLogin chat credentials bc =
          Ok (Bot.sendMessage (Bot.greeting u),
              Bot.mkCtx (<[chat := u]> (Bot.sessions bc)) (Bot.server bc)))
  \/ ((forall u, ~ botLoginYields credentials (Bot.server bc) u)
      /\ exists r, Bot.onLogin chat credentials bc = Ok (r, bc)).
Proof.
  destruct bc as [ss srv]. unfold Bot.onLogin, botLoginYields. simpl.
  destruct (Js.split_spaces credentials !! 0%nat) as [name|] eqn:E0; simpl.
  2: { right. split; [|by eexists]. by intros u (? & ? & [=] & _). }
  destruct (Js.split_spaces credentials !! 1%nat) as [pass|] eqn:E1; simpl.
  2: { rewrite orb_true_r. right. split; [|by eexists].
       by intros u (? & ? & _ & [=] & _). }
  destruct (negb (Js.truthy name) || negb (Js.truthy pass)) eqn:Et.
  { right. split; [|by eexists].
    intros u (n & p & [= <-] & [= <-] & Hn & Hp & _).
    rewrite orb_true_iff, !negb_true_iff, !truthy_false in Et. tauto. }
  rewrite orb_false_iff, !negb_false_iff in Et. destruct Et as [Hn Hp].
  pose proof (loginWithCredentials_spec name pass srv) as Hl.
  destruct (match Users.by_username_or_email _ _ (users srv) with
            | Some r => if bcrypt_compare pass (Users.password_hash r)
                        then Some (botSnapshot r) else None
            | None => None
            end) as [u|].
  - left. exists u. split.
    + exists name, pass. repeat split; try done.
      * intros ->. discriminate Hn.
      * intros ->. discriminate Hp.
    + unfold bind, Bot.await, zoom, modify, ret. simpl. rewrite Hl.
      by destruct srv.
  - right. split.
    + intros u (n & p & [= <-] & [= <-] & _ & _ & Hl').
      rewrite Hl in Hl'. discriminate Hl'.
    + unfold bind, Bot.await, zoom, ret. simpl. rewrite Hl.
      destruct srv. by eexists.
Qed.

Lemma onDownload_spec (chat : Z) (bc : Bot.Ctx) :
  exists r,
    Bot.onDownload chat bc = Ok (r, bc)
    /\ ((exists file name, r = Bot.sendDocument file name) ->
        is_Some (Bot.sessions bc !! chat)).
Proof.
  destruct bc as [ss srv]. unfold Bot.onDownload.
  unfold bind at 1, gets at 1. simpl.
  destruct (ss !! chat) as [u|] eqn:E.
  - unfold bind at 1, Bot.await at 1, zoom at 1. rewrite getSetting_spec. simpl.
    destruct (toAbsolutePath _) as [file|]; async.
    + destruct (existsSync file srv); destruct srv; eexists; split; eauto.
    + destruct srv. eexists; split; eauto.
  - eexists. split; [reflexivity|]. by intros (? & ? & [=]).
Qed.

(** Every bot command is answered; it leaves the server state alone and
    changes the session map at its own chat only. *)
Lemma onText_spec (chat : Z) (cmd : Bot.Command) (bc : Bot.Ctx) :
  exists r after,
    Bot.onText chat cmd bc = Ok (r, Bot.mkCtx after (Bot.server bc))
    /\ botSessionsAfter chat cmd (Bot.sessions bc) after (Bot.server bc).
Proof.
  destruct cmd as [|credentials| |]; simpl.
  - destruct bc. by do 2 eexists.
  - destruct (onLogin_spec chat credentials bc) as [(u & Hy & ->) | (Hno & r & ->)].
    + do 2 eexists. split; [reflexivity|]. left. eauto.
    + destruct bc. do 2 eexists. split; [reflexivity|]. by right.
  - destruct (onDownload_spec chat bc) as (r & -> & _).
    destruct bc. by do 2 eexists.
  - destruct bc. by do 2 eexists.
Qed.

Lemma step_bot (chat : Z) (cmd : Bot.Command) (sys : System) :
  exists r after,
    step (BotMessage chat cmd) sys =
      Ok (BotReply r, mkSystem (sys_server sys) (webSessions sys) after)
    /\ botSessionsAfter chat cmd (botSessions sys) after (sys_server sys).
Proof.
  destruct (onText_spec chat cmd (Bot.mkCtx (botSessions sys) (sys_server sys)))
    as (r & after & Hr & Ha).
  exists r, after. split; [|done]. simpl. by rewrite Hr.
Qed.

Lemma step_web (sid : nat) (env : Env) (req : Request) (sys : System) :
  exists r c,
    step (WebRequest sid env req) sys =
      Ok (WebResponse r,
          mkSystem (server c) (<[sid := session c]> (webSessions sys))
            (botSessions sys)).
Proof.
  pose proof (app_answers env req
                (mkCtx (default Session.fresh (webSessions sys !! sid))
                   (sys_server sys))) as Ha.
  apply wp_total in Ha. destruct Ha as (r & c & Ha & _).
  exists r, c. simpl. by rewrite Ha.
Qed.

Lemma entry_after (chat chat' : Z) (cmd : Bot.Command) before after s u :
  botSessionsAfter chat' cmd before after s ->
  after !! chat = Some u ->
  (before !! chat = Some u /\ BotMessage chat' cmd <> BotMessage chat Bot.Logout)
  \/ (chat' = chat
      /\ exists credentials, cmd = Bot.Login credentials
                             /\ botLoginYields credentials s u).
Proof.
  intros Ha Hu. destruct cmd as [|credentials| |]; simpl in Ha.
  - subst after. by left.
  - destruct Ha as [(u' & Hy & ->) | (_ & ->)]; [|by left].
    destruct (decide (chat' = chat)) as [->|Hne].
    + rewrite lookup_insert_eq in Hu. injection Hu as ->. right. eauto.
    + rewrite lookup_insert_ne in Hu by done. by left.
  - subst after. by left.
  - subst after. destruct (decide (chat' = chat)) as [->|Hne].
    + by rewrite lookup_delete_eq in Hu.
    + rewrite lookup_delete_ne in Hu by done. left. split; [done|]. congruence.
Qed.

(** An entry of the session map at the end of a run was there from the
    start and never logged out, or was placed by a successful [/login]. *)
Lemma bot_sessions_origin (evs : list Event) (sys : System) outs sys' chat u :
  run evs sys = Ok (outs, sys') ->
  botSessions sys' !! chat = Some u ->
  (botSessions sys !! chat = Some u
   /\ Forall (fun ev => ev <> BotMessage chat Bot.Logout) evs)
  \/ placedByLogin evs sys chat u.
Proof.
  revert sys outs. induction evs as [|ev rest IH]; intros sys outs Hrun Hu.
  - injection Hrun as <- <-. left. by split.
  - simpl in Hrun.
    destruct (step ev sys) as [[o sys1]|e] eqn:Hstep; [|done].
    destruct (run rest sys1) as [[os sys2]|e] eqn:Hrest; [|done].
    injection Hrun as <- <-.
    destruct (IH sys1 os Hrest Hu) as [[Hu1 Hrest_ok] | Hplaced].
    + destruct ev as [sid env req | chat' cmd].
      * destruct (step_web sid env req sys) as (r & c & Hs).
        rewrite Hs in Hstep. injection Hstep as <- <-. simpl in Hu1.
        left. split; [done|]. by constructor.
      * destruct (step_bot chat' cmd sys) as (r & after & Hs & Ha).
        rewrite Hs in Hstep. injection Hstep as <- <-. simpl in Hu1.
        destruct (entry_after chat chat' cmd _ _ _ u Ha Hu1)
          as [[Hb Hne] | (-> & credentials & -> & Hy)].
        -- left. split; [done|]. by constructor.
        -- right. exists [], credentials, rest, [], sys. by repeat split.
    + right. destruct Hplaced as (pre & credentials & post & outs1 & sys3 & -> & Hpre & Hy & Hpost).
      exists (ev :: pre), credentials, post, (o :: outs1), sys3.
      repeat split; [| done..]. simpl. by rewrite Hstep, Hpre.
Qed.

Lemma postLogin_without_captcha (req : Request) (c : Ctx) :
  Session.captcha (session c) = None ->
  postLogin req c =
    Ok (Redirect "/login",
        mkCtx (Session.Make (Session.user (session c)) None (Some badCaptcha))
          (server c)).
Proof.
  intros Hc. apply postLogin_wrong_captcha. rewrite Hc.
  apply no_captcha_no_match.
Qed.

(** C9.  The bot's credential check is the web login's: for a form that
    passes the captcha check, [loginWithCredentials] on the same username
    and password yields a user exactly when [POST /login] signs the
    session in, with the same id, username and admin flag, and neither
    writes to the server state.  The bot asks for no captcha: its
    [/login] succeeds whenever the check yields a user, where the web
    login without an outstanding captcha is refused.  [/download] sends
    the document only to a chat with an entry in the session map; an
    entry is there only through a [/login] of that chat whose check
    yielded it and that no [/logout] of the chat followed.  The map is
    apart from the web sessions: web requests leave it as it is, bot
    commands leave the web sessions as they are, and neither front end's
    answer depends on the other's sessions. *)
Theorem bot_front_end :
  (forall (req : Request) (c : Ctx),
     captchaMatches (Session.captcha (session c)) (submitted req) ->
     exists o r c',
       Bot.loginWithCredentials (default EmptyString (Form.username (body req)))
         (default EmptyString (Form.password (body req))) (server c)
       = Ok (o, server c)
       /\ postLogin req c = Ok (r, c')
       /\ server c' = server c
       /\ match o with
          | Some bu =>
              exists su,
                Session.user (session c') = Some su
                /\ Session.id su = Bot.id bu
                /\ Session.username su = Bot.username bu
                /\ Session.isAdmin su = Bot.isAdmin bu
                /\ Session.flash (session c') = Some loggedIn
          | None =>
              Session.user (session c') = Session.user (session c)
              /\ (Session.flash (session c') = Some userNotFound
                  \/ Session.flash (session c') = Some wrongPassword)
          end)
  /\ (forall chat credentials bc u,
        botLoginYields credentials (Bot.server bc) u ->
        exists u',
          Bot.onText chat (Bot.Login credentials) bc =
            Ok (Bot.sendMessage (Bot.greeting u'),
                Bot.mkCtx (<[chat := u']> (Bot.sessions bc)) (Bot.server bc)))
  /\ (forall (req : Request) (c : Ctx),
        Session.captcha (session c) = None ->
        postLogin req c =
          Ok (Redirect "/login",
              mkCtx (Session.Make (Session.user (session c)) None (Some badCaptcha))
                (server c)))
  /\ (forall chat bc file name bc',
        Bot.onText chat Bot.Download bc = Ok (Bot.sendDocument file name, bc') ->
        is_Some (Bot.sessions bc !! chat))
  /\ (forall evs sys outs sys' chat u,
        botSessions sys = ∅ ->
        run evs sys = Ok (outs, sys') ->
        botSessions sys' !! chat = Some u ->
        placedByLogin evs sys chat u)
  /\ (forall ev sys,
        exists o sys',
          step ev sys = Ok (o, sys')
          /\ match ev with
             | WebRequest _ _ _ => botSessions sys' = botSessions sys
             | BotMessage _ _ => webSessions sys' = webSessions sys
             end)
  /\ (forall ev srv web web' bot bot',
        match ev with
        | WebRequest _ _ _ =>
            output_of (step ev (mkSystem srv web bot)) =
            output_of (step ev (mkSystem srv web bot'))
        | BotMessage _ _ =>
            output_of (step ev (mkSystem srv web bot)) =
            output_of (step ev (mkSystem srv web' bot))
        end).
Proof.
  repeat apply conj.
  - apply credential_checks_agree.
  - intros chat credentials bc u Hy. simpl.
    destruct (onLogin_spec chat credentials bc) as [(u' & _ & ->) | (Hno & _)].
    + by exists u'.
    + by destruct (Hno u).
  - apply postLogin_without_captcha.
  - intros chat bc file name bc' Hd. simpl in Hd.
    destruct (onDownload_spec chat bc) as (r & Hr & Hentry).
    rewrite Hr in Hd. injection Hd as -> _. apply Hentry. eauto.
  - intros evs sys outs sys' chat u Hempty Hrun Hu.
    destruct (bot_sessions_origin evs sys outs sys' chat u Hrun Hu)
      as [[Hinit _] | Hp]; [|done].
    by rewrite Hempty, lookup_empty in Hinit.
  - intros [sid env req | chat cmd] sys.
    + destruct (step_web sid env req sys) as (r & c & ->). by do 2 eexists.
    + destruct (step_bot chat cmd sys) as (r & after & -> & _). by do 2 eexists.
  - intros [sid env req | chat cmd] srv web web' bot bot'; simpl.
    + by destruct (app env req _) as [[r c]|e].
    + by destruct (Bot.onText chat cmd _) as [[r c]|e].
Qed.

End BotFrontEnd.

(** The administrator logs in from chat 7; a web request follows. *)
Lemma bot_front_end_witness :
  let ruri := Users.Row 1 "RURI" None "$2a$10$salt$Wat3hahak" 1 in
  let sys := mkSystem (mkServer [ruri] [] ∅) ∅ ∅ in
  let evs := [BotMessage 7 (Bot.Login "RURI Wat3hahak");
              WebRequest 1 demoEnv (demoGet "/")] in
  placedByLogin (H := demoRuntime) evs sys 7 (Bot.User 1 "RURI" true).
Proof.
  intros ruri sys evs.
  destruct (run (H := demoRuntime) evs sys) as [[outs sys']|e] eqn:Hrun;
    [|discriminate Hrun].
  refine (proj1 (proj2 (proj2 (proj2 (proj2 (bot_front_end (H := demoRuntime))))))
            evs sys outs sys' 7%Z (Bot.User 1 "RURI" true) eq_refl Hrun _).
  vm_compute in Hrun. injection Hrun as _ <-. reflexivity.
Defined.

(** ** What a request may change *)

Section Transitions.

Context `{Runtime}.

Import UsersFacts.

Lemma find_absent {A : Type} (p : A -> bool) (l : list A) :
  List.find p l = None <-> existsb p l = false.
Proof.
  rewrite <- find_present. destruct (List.find p l); simpl; split; congruence.
Qed.

Ltac stay := unfold transition, usersStep, settingsStep, userStep; simpl; auto.

Lemma transition_refl (c : Ctx) : transition c c.
Proof. stay. Qed.

Lemma postRegister_transition env req c :
  wp (postRegister env req) c (fun _ c' => transition c c').
Proof.
  destruct c as [[u cap fl] [us st dk]]. unfold postRegister. wp_run.
  destruct (falsy _ || differs _ _); wp_run; [stay|].
  destruct (negb (Js.truthy _) || negb (Js.truthy _) || negb (Js.truthy _));
    wp_run; [stay|].
  destruct (Js.length _ <? 3)%nat; wp_run; [stay|].
  destruct (negb (Js.test _ _)) eqn:E4; wp_run; [stay|].
  destruct (present (Users.by_username _ _)) eqn:E5; wp_run; [stay|].
  destruct (present (Users.by_email _ _)) eqn:E6; wp_run; [stay|].
  simpl in E5, E6. rewrite (wp_insert _ _ _ _ _ _ E5 E6). wp_run.
  apply negb_false_iff, RegexFacts.emailRegex_shape in E4.
  unfold transition, usersStep, settingsStep, userStep. simpl.
  split; [|split; [by left|]].
  - right. do 3 eexists. repeat split; [| |exact E4].
    + by destruct (Users.by_username _ us).
    + by destruct (Users.by_email _ us).
  - right. right. eexists. split; [apply elem_of_app; right; constructor|].
    reflexivity.
Qed.

Lemma postLogin_transition req c :
  wp (postLogin req) c (fun _ c' => transition c c').
Proof.
  destruct c as [[u cap fl] [us st dk]]. unfold postLogin. wp_run.
  destruct (falsy _ || differs _ _); wp_run; [stay|].
  destruct (Users.by_username_or_email _ _ _) as [row|] eqn:Hf; wp_run; [|stay].
  destruct (negb (bcrypt_compare _ _)); wp_run; [stay|].
  unfold transition, usersStep, settingsStep, userStep. simpl.
  split; [by left|]. split; [by left|]. right. right. exists row.
  split; [|reflexivity]. simpl in Hf.
  by apply by_username_or_email_Some in Hf as [? _].
Qed.

Lemma postUploadImage_transition env req c :
  wp (postUploadImage env req) c (fun _ c' => transition c c').
Proof.
  destruct c as [[u cap fl] [us st dk]]. unfold postUploadImage, multer_single.
  wp_all; unfold transition, usersStep, settingsStep, userStep; simpl;
    (split; [by left|]); (split; [|by left]); first [by left | right; eauto].
Qed.

Lemma postUploadZip_transition env req c :
  wp (postUploadZip env req) c (fun _ c' => transition c c').
Proof.
  destruct c as [[u cap fl] [us st dk]]. unfold postUploadZip, multer_single.
  wp_all; unfold transition, usersStep, settingsStep, userStep; simpl;
    (split; [by left|]); (split; [|by left]); first [by left | right; eauto].
Qed.

Lemma router_transition env req locals c :
  wp (router env req locals) c (fun _ c' => transition c c').
Proof.
  unfold router.
  repeat match goal with
         | |- wp (if ?b then _ else _) _ _ => destruct b
         end.
  - destruct c as [[u cap fl] srv]. unfold getCaptcha. wp_all. stay.
  - destruct (getIndex_pure req locals c) as [r Hr]. unfold wp. rewrite Hr. stay.
  - unfold getRegister. wp_all. stay.
  - apply postRegister_transition.
  - unfold getLogin. wp_all. stay.
  - apply postLogin_transition.
  - apply requireAuth_wp; [stay|]. unfold postLogout. wp_all. stay.
  - apply requireAuth_wp; [stay|].
    destruct c as [[u cap fl] [us st dk]]. unfold getDownload. wp_all; stay.
  - apply requireAdmin_wp; [stay|].
    destruct (getAdmin_pure locals c) as [r Hr]. unfold wp. rewrite Hr. stay.
  - apply requireAdmin_wp; [stay|]. apply postUploadImage_transition.
  - apply requireAdmin_wp; [stay|]. apply postUploadZip_transition.
  - unfold unrouted.
    destruct (method req), (Express.allowed routes (path req)); wp_all; stay.
Qed.

(** Every request is answered, and it changes the tables and the
    session's user only in the ways of [transition]. *)
Lemma app_transition env req c :
  wp (app env req) c (fun _ c' => transition c c').
Proof.
  unfold wp.
  destruct (staticMounts_pure req c) as (o & Ho & _).
  rewrite (app_unfold env req c o Ho).
  destruct (parseError req); [apply transition_refl|].
  destruct o; try apply transition_refl.
  - pose proof (router_transition env req (localsOf c) (handlerEntry c)) as Hw.
    unfold wp in Hw.
    destruct (router env req (localsOf c) (handlerEntry c)) as [[r c']|e]; [|done].
    exact Hw.
  - rewrite errorHandler_spec. stay.
Qed.

End Transitions.

(** ** Invariants of the running process *)

Section ProcessInvariants.

Context `{Runtime}.

Import UsersFacts.

Lemma id_below_next (t : Users.table) (r : Users.row) :
  r ∈ t -> Users.id r < Users.next_id t.
Proof.
  unfold Users.next_id. induction t as [|x t IH]; intros Hin.
  - by apply elem_of_nil in Hin.
  - simpl. apply elem_of_cons in Hin as [->|Hin]; [lia|].
    specialize (IH Hin). lia.
Qed.

Lemma by_username_fresh name (t : Users.table) :
  Users.by_username name t = None -> name ∉ map Users.username t.
Proof.
  unfold Users.by_username. intros Hf Hin.
  apply list_elem_of_fmap in Hin as (r & -> & Hr).
  pose proof (List.find_none _ _ Hf r) as Hn.
  rewrite <- list_elem_of_In in Hn. specialize (Hn Hr).
  unfold Users.has_username in Hn. by rewrite String.eqb_refl in Hn.
Qed.

Lemma by_email_fresh e (t : Users.table) :
  Users.by_email e t = None -> e ∉ omap Users.email t.
Proof.
  unfold Users.by_email. intros Hf Hin.
  apply list_elem_of_omap in Hin as (r & Hr & He).
  pose proof (List.find_none _ _ Hf r) as Hn.
  rewrite <- list_elem_of_In in Hn. specialize (Hn Hr).
  unfold Users.has_email in Hn. rewrite He in Hn.
  by rewrite String.eqb_refl in Hn.
Qed.

Lemma NoDup_snoc {A : Type} (l : list A) (x : A) :
  NoDup l -> x ∉ l -> NoDup (l ++ [x]).
Proof.
  intros Hl Hx. apply NoDup_app. split; [done|]. split; [|apply NoDup_singleton].
  intros y Hy Hy'. apply list_elem_of_singleton in Hy'. by subst.
Qed.

Lemma usersStep_ok (t t' : Users.table) :
  usersOk t -> usersStep t t' -> usersOk t'.
Proof.
  intros (Hid & Hname & Hmail) [-> | (name & e & hash & Hn & He & _ & ->)];
    [done|].
  unfold usersOk. rewrite !map_app, omap_app. simpl.
  split; [|split].
  - apply NoDup_snoc; [done|]. intros Hin.
    apply list_elem_of_fmap in Hin as (r & Hr & Hin).
    apply id_below_next in Hin. lia.
  - apply NoDup_snoc; [done | by apply by_username_fresh].
  - apply NoDup_snoc; [done | by apply by_email_fresh].
Qed.

Lemma usersStep_grows (t t' : Users.table) (r : Users.row) :
  usersStep t t' -> r ∈ t -> r ∈ t'.
Proof.
  intros [-> | (name & e & hash & _ & _ & _ & ->)] Hr; [done|].
  apply elem_of_app. by left.
Qed.

Lemma usersStep_admins (t t' : Users.table) :
  usersStep t t' -> admins t' = admins t.
Proof.
  intros [-> | (name & e & hash & _ & _ & _ & ->)]; [done|].
  unfold admins. rewrite List.filter_app. simpl. apply app_nil_r.
Qed.

Lemma settingsStep_ok (t t' : Settings.table) :
  NoDup (map fst t) -> settingsStep t t' -> NoDup (map fst t').
Proof.
  intros Hnd [-> | (key & value & ->)]; [done|]. by apply upsert_keys_NoDup.
Qed.

(** A web request as a step of the process. *)
Lemma step_web_transition (sid : nat) (env : Env) (req : Request) (sys : System) :
  let c := mkCtx (default Session.fresh (webSessions sys !! sid)) (sys_server sys) in
  exists r c',
    step (WebRequest sid env req) sys =
      Ok (WebResponse r,
          mkSystem (server c') (<[sid := session c']> (webSessions sys))
            (botSessions sys))
    /\ transition c c'.
Proof.
  intros c. pose proof (app_transition env req c) as Ha.
  apply wp_total in Ha. destruct Ha as (r & c' & Ha & Ht).
  exists r, c'. split; [|done]. simpl. fold c. by rewrite Ha.
Qed.

Lemma run_invariant (P : System -> Prop) :
  (forall ev sys, P sys -> exists o sys', step ev sys = Ok (o, sys') /\ P sys') ->
  forall evs sys,
    P sys -> exists outs sys', run evs sys = Ok (outs, sys') /\ P sys'.
Proof.
  intros Hstep evs. induction evs as [|ev rest IH]; intros sys HP; simpl.
  - eauto.
  - destruct (Hstep ev sys HP) as (o & sys1 & -> & HP1).
    destruct (IH sys1 HP1) as (outs & sys2 & -> & HP2). eauto.
Qed.

(** X1.  Whatever web requests and bot commands the process handles,
    in whatever order, none of them fails on a constraint of the
    database, and the tables keep theirs: ids, usernames and non-null
    e-mails of the users stay unique, and the settings keep one row per
    key. *)
Theorem process_keeps_constraints (evs : list Event) (sys : System) :
  serverOk (sys_server sys) ->
  exists outs sys',
    run evs sys = Ok (outs, sys') /\ serverOk (sys_server sys').
Proof.
  revert evs sys.
  apply (run_invariant (fun sys => serverOk (sys_server sys))).
  intros [sid env req | chat cmd] sys [Hu Hs].
  - destruct (step_web_transition sid env req sys) as (r & c' & -> & Hus & Hst & _).
    do 2 eexists. split; [reflexivity|]. simpl in *. split.
    + by apply (usersStep_ok _ _ Hu).
    + by apply (settingsStep_ok _ _ Hs).
  - destruct (step_bot chat cmd sys) as (r & after & -> & _).
    do 2 eexists. split; [reflexivity|]. by split.
Qed.

Lemma loginWithCredentials_row (name pass : string) (s : Server) (u : Bot.user_t) :
  Bot.loginWithCredentials name pass s = Ok (Some u, s) ->
  exists row, row ∈ users s /\ u = botSnapshot row.
Proof.
  rewrite loginWithCredentials_spec.
  destruct (Users.by_username_or_email _ _ (users s)) as [row|] eqn:Hf; [|done].
  destruct (bcrypt_compare _ _); [|done].
  intros [= <-]. exists row. split; [|done].
  by apply by_username_or_email_Some in Hf as [? _].
Qed.

(** X2.  No sequence of web requests and bot commands makes an
    administrator.  If every identity held by the process is the
    snapshot of a row of the users table, then after any run this is
    still so, the rows carrying the admin flag are the same as at the
    start, and hence a web session whose user has the admin flag set
    owes it to a row that was an admin row before the run. *)
Theorem identities_stay_backed (evs : list Event) (sys : System) :
  identitiesBacked sys ->
  exists outs sys',
    run evs sys = Ok (outs, sys')
    /\ identitiesBacked sys'
    /\ admins (users (sys_server sys')) = admins (users (sys_server sys))
    /\ forall sid s u,
         webSessions sys' !! sid = Some s ->
         Session.user s = Some u ->
         Session.isAdmin u = true ->
         exists row, row ∈ admins (users (sys_server sys)) /\ u = snapshot row.
Proof.
  intros Hb.
  destruct (run_invariant
              (fun sys' => identitiesBacked sys'
                 /\ admins (users (sys_server sys')) = admins (users (sys_server sys))))
    with (evs := evs) (sys := sys) as (outs & sys' & Hrun & Hb' & Hadm); [|done|].
  - clear evs Hb. intros [sid env req | chat cmd] sys1 [[Hweb Hbot] Hadm].
    + destruct (step_web_transition sid env req sys1)
        as (r & c' & -> & Hus & _ & Huser).
      do 2 eexists. split; [reflexivity|]. simpl in *.
      split; [split|].
      * intros sid' s u Hs Hu. cbn [webSessions sys_server] in Hs |- *.
        destruct (decide (sid = sid')) as [<-|Hne].
        -- rewrite lookup_insert_eq in Hs. injection Hs as <-.
           destruct Huser as [Hsame | [Hnone | (row & Hrow & Hsnap)]].
           ++ rewrite Hsame in Hu.
              destruct (webSessions sys1 !! sid) as [s0|] eqn:E; [|done].
              destruct (Hweb sid s0 u E Hu) as (row & Hrow & ->).
              exists row. split; [|done]. by apply (usersStep_grows _ _ _ Hus).
           ++ congruence.
           ++ exists row. split; [done|]. congruence.
        -- rewrite lookup_insert_ne in Hs by done.
           destruct (Hweb sid' s u Hs Hu) as (row & Hrow & ->).
           exists row. split; [|done]. by apply (usersStep_grows _ _ _ Hus).
      * intros chat u Hu. cbn [botSessions sys_server] in Hu |- *.
        destruct (Hbot chat u Hu) as (row & Hrow & ->).
        exists row. split; [|done]. by apply (usersStep_grows _ _ _ Hus).
      * by rewrite (usersStep_admins _ _ Hus).
    + destruct (step_bot chat cmd sys1) as (r & after & -> & Ha).
      do 2 eexists. split; [reflexivity|]. simpl. split; [split|]; [done| |done].
      intros chat' u Hu. cbn [botSessions sys_server] in Hu |- *.
      destruct (entry_after chat' chat cmd _ _ _ u Ha Hu)
        as [[Hbefore _] | (-> & credentials & -> & Hy)].
      * by apply (Hbot chat' u).
      * destruct Hy as (name & pass & _ & _ & _ & _ & Hl).
        by apply (loginWithCredentials_row name pass).
  - exists outs, sys'. split; [done|]. split; [done|]. split; [done|].
    intros sid s u Hs Hu Hadmin.
    destruct Hb' as [Hweb _]. destruct (Hweb sid s u Hs Hu) as (row & Hrow & ->).
    exists row. split; [|done]. rewrite <- Hadm. unfold admins.
    apply list_elem_of_In, List.filter_In. split; [by apply list_elem_of_In|].
    exact Hadmin.
Qed.

End ProcessInvariants.

(** A registration and a bot login on a database that holds the
    administrator. *)
Lemma process_keeps_constraints_witness :
  let sys := mkSystem
               (mkServer [Users.Row 1 "RURI" None "$2a$10$salt$Wat3hahak" 1]
                  [("cheat_zip_path", "downloads/whitecore-1.zip")] ∅) ∅ ∅ in
  let evs := [WebRequest 1 demoEnv
                (demoPost "/register"
                   (Form.Make (Some "alice") (Some "a@b.cc") (Some "pw")
                      (Some "x") None) None);
              BotMessage 7 (Bot.Login "RURI Wat3hahak")] in
  exists outs sys',
    run (H := demoRuntime) evs sys = Ok (outs, sys') /\ serverOk (sys_server sys').
Proof.
  intros sys evs. apply (process_keeps_constraints (H := demoRuntime) evs sys).
  split; [split; [|split]|]; simpl.
  - apply NoDup_singleton.
  - apply NoDup_singleton.
  - apply NoDup_nil_2.
  - apply NoDup_singleton.
Defined.

(** A visitor's registration next to the administrator's session. *)
Lemma identities_stay_backed_witness :
  let row := Users.Row 1 "RURI" None "$2a$10$salt$Wat3hahak" 1 in
  let sys := mkSystem (mkServer [row] [] ∅)
               {[ 1%nat := Session.Make (Some (snapshot row)) None None ]} ∅ in
  let evs := [WebRequest 2 demoEnv
                (demoPost "/register"
                   (Form.Make (Some "alice") (Some "a@b.cc") (Some "pw")
                      (Some "x") None) None)] in
  exists outs sys',
    run (H := demoRuntime) evs sys = Ok (outs, sys')
    /\ identitiesBacked sys'
    /\ admins (users (sys_server sys')) = [row].
Proof.
  intros row sys evs.
  destruct (identities_stay_backed (H := demoRuntime) evs sys)
    as (outs & sys' & Hrun & Hb & Hadm & _).
  - split.
    + intros sid s u Hs Hu. unfold sys in Hs. simpl in Hs.
      apply lookup_singleton_Some in Hs as [_ <-].
      injection Hu as <-. exists row. split; [constructor | reflexivity].
    + intros chat u Hu. unfold sys in Hu. simpl in Hu.
      rewrite lookup_empty in Hu. discriminate Hu.
  - exists outs, sys'. split; [exact Hrun|]. split; [exact Hb|]. exact Hadm.
Defined.

(** ** Starting the process *)

Section Bootstrap.

Context `{Runtime}.

Import UsersFacts SettingsFacts.

Lemma ensureSetting_table (key fallback : string) (s : Server) :
  ensureSetting key fallback s =
    Ok (default fallback (Settings.select key (settings s)),
        mkServer (users s) (ensured key fallback (settings s)) (disk s)).
Proof.
  rewrite ensureSetting_spec. unfold ensured.
  destruct (Settings.select key (settings s)); [by destruct s | done].
Qed.

Lemma select_ensured (k key fallback : string) (t : Settings.table) :
  Settings.select k (ensured key fallback t) =
  match Settings.select k t with
  | Some v => Some v
  | None => if String.eqb key k then Some fallback else None
  end.
Proof.
  unfold ensured. destruct (Settings.select key t) as [v|] eqn:E.
  - destruct (Settings.select k t) eqn:E'; [done|].
    destruct (String.eqb key k) eqn:Hk; [|done].
    apply String.eqb_eq in Hk. congruence.
  - apply select_snoc.
Qed.

Lemma ensured_present (key fallback : string) (t : Settings.table) :
  is_Some (Settings.select key t) -> ensured key fallback t = t.
Proof. unfold ensured. by intros [v ->]. Qed.

Lemma ensured_ok (key fallback : string) (t : Settings.table) :
  NoDup (map fst t) -> NoDup (map fst (ensured key fallback t)).
Proof.
  intros Hnd. unfold ensured.
  destruct (Settings.select key t) eqn:E; [done|].
  apply select_absent in E.
  pose proof (upsert_keys_NoDup key fallback t Hnd) as Hu. by rewrite E in Hu.
Qed.

Lemma ensureAdminUser_table (env : Env) (s : Server) :
  exists id,
    ensureAdminUser env s = Ok (id, mkServer (seeded env (users s)) (settings s) (disk s)).
Proof.
  destruct s as [us st dk]. unfold ensureAdminUser, seeded. async.
  destruct (Users.by_username "RURI" us) as [r|] eqn:E; async; [by eexists|].
  unfold Users.insert. unfold Users.by_username in E.
  apply find_absent in E. rewrite E. by eexists.
Qed.

Lemma by_username_snoc name (t : Users.table) (r : Users.row) :
  Users.by_username name (t ++ [r]) =
  match Users.by_username name t with
  | Some x => Some x
  | None => if Users.has_username name r then Some r else None
  end.
Proof.
  unfold Users.by_username. induction t as [|x t IH]; simpl; [done|].
  by destruct (Users.has_username name x).
Qed.

Lemma seeded_has_admin (env : Env) (t : Users.table) :
  is_Some (Users.by_username "RURI" (seeded env t)).
Proof.
  unfold seeded. destruct (Users.by_username "RURI" t) as [r|] eqn:E; [by eauto|].
  rewrite by_username_snoc, E. simpl. eauto.
Qed.

Lemma seeded_twice (env env' : Env) (t : Users.table) :
  seeded env' (seeded env t) = seeded env t.
Proof.
  destruct (seeded_has_admin env t) as [r Hr]. unfold seeded at 1. by rewrite Hr.
Qed.

Lemma seeded_ok (env : Env) (t : Users.table) : usersOk t -> usersOk (seeded env t).
Proof.
  intros (Hid & Hname & Hmail). unfold seeded.
  destruct (Users.by_username "RURI" t) eqn:E; [done|].
  unfold usersOk. rewrite !map_app, omap_app. simpl. rewrite app_nil_r.
  split; [|split; [|done]].
  - apply NoDup_snoc; [done|]. intros Hin.
    apply list_elem_of_fmap in Hin as (r & Hr & Hin).
    apply id_below_next in Hin. lia.
  - apply NoDup_snoc; [done | by apply by_username_fresh].
Qed.

Lemma bootstrap_table (env : Env) (s : Server) :
  bootstrap env s =
    Ok (tt,
        mkServer (seeded env (users s))
          (ensured "cheat_zip_path" DEFAULT_ZIP_PATH
             (ensured "cheat_image_url" DEFAULT_IMAGE_URL (settings s)))
          (disk s)).
Proof.
  unfold bootstrap. unfold bind at 1. rewrite ensureSetting_table.
  unfold bind at 1. rewrite ensureSetting_table. simpl.
  unfold bind at 1.
  destruct (ensureAdminUser_table env
              (mkServer (users s)
                 (ensured "cheat_zip_path" DEFAULT_ZIP_PATH
                    (ensured "cheat_image_url" DEFAULT_IMAGE_URL (settings s)))
                 (disk s))) as [id ->].
  reflexivity.
Qed.

(** X3.  Starting the process never fails, whatever the database holds,
    and is safe to repeat.  It keeps every stored setting and every
    user row (an administrator whose password was changed keeps the
    changed hash), adds the two default settings and the default
    administrator only where they are missing, leaves the disk alone and
    keeps the constraints of the tables; starting again on the result
    changes nothing. *)
Theorem bootstrap_restart (env env' : Env) (s : Server) :
  exists s',
    bootstrap env s = Ok (tt, s')
    /\ (forall key v,
          Settings.select key (settings s) = Some v ->
          Settings.select key (settings s') = Some v)
    /\ is_Some (Settings.select "cheat_image_url" (settings s'))
    /\ is_Some (Settings.select "cheat_zip_path" (settings s'))
    /\ (forall r, Users.by_username "RURI" (users s) = Some r -> users s' = users s)
    /\ (Users.by_username "RURI" (users s) = None ->
        users s' =
          users s ++ [Users.Row (Users.next_id (users s)) "RURI" None
                        (bcrypt_hash "Wat3hahak" (salt env)) 1])
    /\ disk s' = disk s
    /\ (serverOk s -> serverOk s')
    /\ bootstrap env' s' = Ok (tt, s').
Proof.
  eexists. split; [apply bootstrap_table|]. simpl.
  split; [|split; [|split; [|split; [|split; [|split; [|split]]]]]].
  - intros key v Hv. by rewrite !select_ensured, Hv.
  - rewrite !select_ensured.
    destruct (Settings.select "cheat_image_url" (settings s)); simpl; eauto.
  - rewrite !select_ensured.
    destruct (Settings.select "cheat_zip_path" (settings s)); simpl; eauto.
  - intros r Hr. unfold seeded. by rewrite Hr.
  - intros Hr. unfold seeded. by rewrite Hr.
  - done.
  - intros [Hu Hs]. split; simpl.
    + by apply seeded_ok.
    + by do 2 apply ensured_ok.
  - rewrite bootstrap_table. simpl. rewrite seeded_twice. do 2 f_equal.
    f_equal.
    assert (Himg : is_Some (Settings.select "cheat_image_url"
              (ensured "cheat_zip_path" DEFAULT_ZIP_PATH
                 (ensured "cheat_image_url" DEFAULT_IMAGE_URL (settings s))))).
    { rewrite !select_ensured.
      destruct (Settings.select "cheat_image_url" (settings s)); simpl; eauto. }
    rewrite (ensured_present "cheat_image_url" _ _ Himg).
    apply ensured_present. rewrite select_ensured.
    destruct (Settings.select "cheat_zip_path" _); simpl; eauto.
Qed.

End Bootstrap.

(** ** From an account to a session *)

Section Accounts.

Context `{Runtime}.

Import UsersFacts.

(** X4.  An accepted registration can be used to sign in.  Suppose a
    registration form is accepted, bcrypt verifies the password against
    the hash it made of it, and a later login form carries that password
    and an identifier that is the new username, or that lower-cases to
    the new e-mail while no account has the identifier as its username.
    Then, however many accounts were registered before or in between
    (the table keeping its uniqueness constraints), a login that passes
    the captcha check signs the session in as the registered user, with
    the id the registration returned and without the admin flag. *)
Theorem register_then_login (env : Env) (req : Request) (c : Ctx)
    (login : Request) (c2 : Ctx) (later : Users.table) :
  let username := Js.trim (default EmptyString (Form.username (body req))) in
  let email :=
    Js.toLowerCase (Js.trim (default EmptyString (Form.email (body req)))) in
  let password := default EmptyString (Form.password (body req)) in
  let identifier := Js.trim (default EmptyString (Form.username (body login))) in
  let row := Users.Row (Users.next_id (users (server c))) username (Some email)
               (bcrypt_hash password (salt env)) 0 in
  (forall g, ~ refusal g req c) ->
  bcrypt_compare password (bcrypt_hash password (salt env)) = true ->
  default EmptyString (Form.password (body login)) = password ->
  users (server c2) = users (server c) ++ row :: later ->
  usersOk (users (server c2)) ->
  identifier = username
  \/ (Js.toLowerCase identifier = email
      /\ forall x, x ∈ users (server c2) -> Users.username x <> identifier) ->
  captchaMatches (Session.captcha (session c2)) (submitted login) ->
  (exists c1,
     postRegister env req c = Ok (Redirect (Js.or_else (default "/" (Form.next (body req))) "/"), c1)
     /\ users (server c1) = users (server c) ++ [row])
  /\ postLogin login c2 =
       Ok (Redirect (Js.or_else (default "/" (Form.next (body login))) "/"),
           mkCtx
             (Session.Make
                (Some (Session.User (Users.next_id (users (server c))) username
                         email false))
                None (Some loggedIn))
             (server c2)).
Proof.
  intros username email password identifier row Hacc Hbc Hpw Hus Hok Hid Hcap.
  split.
  - eexists. split; [apply (postRegister_accepted env req c Hacc)|]. reflexivity.
  - assert (Hrow : standsFor identifier (users (server c2)) row).
    { split.
      - rewrite Hus. apply elem_of_app. right. by left.
      - destruct Hid as [-> | [Hlow Hnone]]; [by left|].
        right. split; [done|]. simpl. by rewrite Hlow. }
    apply (lookup_standsFor _ _ _ Hok) in Hrow.
    rewrite (postLogin_spec login c2 Hcap). cbv zeta. fold identifier.
    rewrite Hrow, Hpw. simpl Users.password_hash. by rewrite Hbc.
Qed.

(** X5.  The seeded administrator can sign in after the first start.
    On a database with no user called RURI and no e-mail [ruri], once
    the process has started, a login with the default credentials that
    passes the captcha check signs the session in with the admin flag,
    provided bcrypt verifies the default password against the hash it
    made of it; and that session passes the admin gate. *)
Theorem seeded_admin_signs_in (env : Env) (s : Server) (login : Request) (c : Ctx)
    (next : Handler) :
  Users.by_username "RURI" (users s) = None ->
  (forall x, x ∈ users s -> Users.email x <> Some "ruri") ->
  bcrypt_compare "Wat3hahak" (bcrypt_hash "Wat3hahak" (salt env)) = true ->
  bootstrap env s = Ok (tt, server c) ->
  Js.trim (default EmptyString (Form.username (body login))) = "RURI" ->
  default EmptyString (Form.password (body login)) = "Wat3hahak" ->
  captchaMatches (Session.captcha (session c)) (submitted login) ->
  exists c',
    postLogin login c =
      Ok (Redirect (Js.or_else (default "/" (Form.next (body login))) "/"), c')
    /\ Session.user (session c') =
         Some (Session.User (Users.next_id (users s)) "RURI" EmptyString true)
    /\ server c' = server c
    /\ requireAdmin next c' = next c'.
Proof.
  intros Hnone Hmail Hbc Hboot Hname Hpw Hcap.
  rewrite bootstrap_table in Hboot. injection Hboot as Hsrv.
  assert (Hus : users (server c) =
                users s ++ [Users.Row (Users.next_id (users s)) "RURI" None
                              (bcrypt_hash "Wat3hahak" (salt env)) 1]).
  { rewrite <- Hsrv. simpl. unfold seeded. by rewrite Hnone. }
  eexists. rewrite (postLogin_spec login c Hcap). cbv zeta.
  rewrite Hname, Hus, Hpw.
  unfold Users.by_username_or_email. rewrite by_username_snoc, Hnone.
  change (Users.has_username "RURI" _) with true. cbv iota.
  simpl Users.password_hash. rewrite Hbc. split; [reflexivity|].
  split; [reflexivity|]. split; [reflexivity|].
  unfold requireAdmin. reflexivity.
Qed.

End Accounts.

(** Alice registers and signs in with her e-mail address. *)
Lemma register_then_login_witness :
  let admin := Users.Row 1 "RURI" None "$2a$10$salt$Wat3hahak" 1 in
  let alice := Users.Row 2 "alice" (Some "alice@mail.io") "$2a$10$salt$secret" 0 in
  let c := mkCtx (Session.Make None (Some "abc12") None) (mkServer [admin] [] ∅) in
  let req := demoPost "/register"
               (Form.Make (Some " alice ") (Some "Alice@Mail.io") (Some "secret")
                  (Some "ABC12") None) None in
  let c2 := mkCtx (Session.Make None (Some "abc12") None)
              (mkServer [admin; alice] [] ∅) in
  let login := demoPost "/login"
                 (Form.Make (Some "ALICE@mail.io") None (Some "secret")
                    (Some "AbC12") None)
                 None in
  postLogin (H := demoRuntime) login c2 =
    Ok (Redirect "/",
        mkCtx
          (Session.Make (Some (Session.User 2 "alice" "alice@mail.io" false)) None
             (Some loggedIn))
          (server c2)).
Proof.
  intros admin alice c req c2 login.
  refine (proj2 (register_then_login (H := demoRuntime) demoEnv req c login c2 []
                   _ _ _ _ _ _ _)).
  - intros [] Hg; unfold refusal in Hg; cbv zeta in Hg.
    + apply Hg. exists "abc12". split; [reflexivity|]. split; [discriminate | reflexivity].
    + destruct Hg as [E|[E|E]]; discriminate E.
    + vm_compute in Hg. lia.
    + apply Hg. apply RegexFacts.emailRegex_shape. reflexivity.
    + destruct Hg as (r & Hr & E). apply list_elem_of_singleton in Hr. subst r.
      discriminate E.
    + destruct Hg as (r & Hr & E). apply list_elem_of_singleton in Hr. subst r.
      discriminate E.
  - reflexivity.
  - reflexivity.
  - reflexivity.
  - repeat split; simpl; apply (bool_decide_unpack _); vm_compute; exact I.
  - right. split; [reflexivity|].
    intros x Hx E. apply elem_of_cons in Hx as [-> | Hx]; [discriminate E|].
    apply list_elem_of_singleton in Hx. subst x. discriminate E.
  - exists "abc12". split; [reflexivity|]. split; [discriminate | reflexivity].
Defined.

(** The first login on an empty database. *)
Lemma seeded_admin_signs_in_witness :
  let s := mkServer [] [] ∅ in
  let c := mkCtx (Session.Make None (Some "abc12") None)
             (mkServer [Users.Row 1 "RURI" None "$2a$10$salt$Wat3hahak" 1]
                [("cheat_image_url", DEFAULT_IMAGE_URL);
                 ("cheat_zip_path", DEFAULT_ZIP_PATH)] ∅) in
  let login := demoPost "/login"
                 (Form.Make (Some "RURI") None (Some "Wat3hahak") (Some "ABC12") None)
                 None in
  exists c',
    postLogin (H := demoRuntime) login c = Ok (Redirect "/", c')
    /\ Session.user (session c') = Some (Session.User 1 "RURI" EmptyString true).
Proof.
  intros s c login.
  destruct (seeded_admin_signs_in (H := demoRuntime) demoEnv s login c
              (fun c => Ok (Redirect "/", c)))
    as (c' & Hrun & Hu & _).
  - reflexivity.
  - intros x Hx. apply elem_of_nil in Hx. destruct Hx.
  - reflexivity.
  - reflexivity.
  - reflexivity.
  - reflexivity.
  - exists "abc12". split; [reflexivity|]. split; [discriminate | reflexivity].
  - exists c'. split; [exact Hrun | exact Hu].
Defined.

(** ** Issuing a captcha, signing out, and the pages around the archive *)

Section Pages.

Context `{Runtime}.


(** X7.  Signing out forgets the whole session.  For a signed-in
    session [POST /logout] answers with a redirect to [/] and leaves a
    session without user, outstanding captcha or pending flash, the
    server state untouched; after it the logout, download and admin
    gates all answer with the login redirect.  Without a user the route
    itself answers with the login redirect and changes nothing. *)
Theorem logout_forgets_session (req : Request) (c : Ctx) :
  (Session.user (session c) = None ->
   requireAuth req postLogout c =
     Ok (Redirect ("/login?next=" +:+ Js.encodeURIComponent (originalUrl req)), c))
  /\ (forall u,
        Session.user (session c) = Some u ->
        let c' := mkCtx Session.fresh (server c) in
        requireAuth req postLogout c = Ok (Redirect "/", c')
        /\ (forall req' (next : Handler),
              requireAuth req' next c' =
                Ok (Redirect
                      ("/login?next=" +:+ Js.encodeURIComponent (originalUrl req')),
                    c'))
        /\ (forall next : Handler,
              requireAdmin next c' = Ok (Redirect "/login?next=/admin", c'))).
Proof.
  split.
  - by apply requireAuth_refuses.
  - intros u Hu. cbv zeta. split; [|split].
    + unfold requireAuth, postLogout. async. rewrite Hu. by destruct c.
    + intros req' next. by apply requireAuth_refuses.
    + intros next. apply requireAdmin_refuses. by left.
Qed.

Lemma getIndex_spec (req : Request) (locals : Locals) (c : Ctx) :
  getIndex req locals c =
  Ok (Render "index" locals
        [("title", VString "Whitecore Client");
         ("cheatImageUrl",
            VString (default DEFAULT_IMAGE_URL
                       (Settings.select "cheat_image_url" (settings (server c)))));
         ("zipExists",
            VBool match toAbsolutePath
                          (default DEFAULT_ZIP_PATH
                             (Settings.select "cheat_zip_path" (settings (server c)))) with
                  | Some p => bool_decide (p ∈ disk (server c))
                  | None => false
                  end);
         ("downloadUrl",
            VString (if present (Session.user (session c))
                     then "/download" else "/login?next=/"))], c).
Proof.
  apply wp_returns. destruct c as [sess [us st dk]]. unfold getIndex. wp_all.
  split; [|done]. reflexivity.
Qed.

(** X8.  The home page and the download route agree.  [GET /] changes
    nothing; it links a signed-in session to [/download] and a visitor
    to the login page; and it shows the archive as available exactly
    when [GET /download] on the same state sends a file rather than the
    not-available redirect. *)
Theorem home_page_agrees_with_download (req : Request) (locals : Locals) (c : Ctx) :
  exists image available,
    getIndex req locals c =
      Ok (Render "index" locals
            [("title", VString "Whitecore Client");
             ("cheatImageUrl", VString image);
             ("zipExists", VBool available);
             ("downloadUrl",
                VString (if present (Session.user (session c))
                         then "/download" else "/login?next=/"))], c)
    /\ image = default DEFAULT_IMAGE_URL
                 (Settings.select "cheat_image_url" (settings (server c)))
    /\ (available = true ->
        exists file,
          file ∈ disk (server c)
          /\ getDownload c =
               Ok (Download file (Js.or_else (Path.basename file) "whitecore.zip")
                     [("Cache-Control", "no-store")], c))
    /\ (available = false -> getDownload c = notAvailable c).
Proof.
  do 2 eexists. split; [apply getIndex_spec|]. split; [reflexivity|].
  rewrite getDownload_spec.
  destruct (toAbsolutePath _) as [file|]; [|by split].
  destruct (bool_decide (file ∈ disk (server c))) eqn:E; split; try done.
  intros _. exists file. split; [|done]. by apply bool_decide_eq_true in E.
Qed.

Lemma onDownload_eval (chat : Z) (bc : Bot.Ctx) (u : Bot.user_t) :
  Bot.sessions bc !! chat = Some u ->
  Bot.onDownload chat bc =
  match toAbsolutePath
          (default DEFAULT_ZIP_PATH
             (Settings.select "cheat_zip_path" (settings (Bot.server bc)))) with
  | Some file =>
      if bool_decide (file ∈ disk (Bot.server bc))
      then Ok (Bot.sendDocument file (Path.basename file), bc)
      else Ok (Bot.sendMessage "Файл пока недоступен, свяжитесь с админом", bc)
  | None => Ok (Bot.sendMessage "Файл пока недоступен, свяжитесь с админом", bc)
  end.
Proof.
  intros Hu. destruct bc as [ss srv]. unfold Bot.onDownload.
  unfold bind at 1, gets at 1. simpl in *. rewrite Hu.
  unfold bind at 1, Bot.await at 1, zoom at 1. rewrite getSetting_spec. simpl.
  destruct (toAbsolutePath _) as [file|]; [|by destruct srv].
  async. unfold existsSync. simpl.
  destruct (bool_decide (file ∈ disk srv)); by destruct srv.
Qed.

(** X9.  The bot and the web front end decide the download alike.  On
    the same server state, a chat that is logged in gets the document
    exactly when a signed-in web session gets the attachment, and it is
    the same file; otherwise both answer that the file is not available.
    A chat that is not logged in is told to log in, whatever is on
    disk. *)
Theorem bot_download_agrees_with_web (chat : Z) (bc : Bot.Ctx) (c : Ctx) :
  Bot.server bc = server c ->
  (Bot.sessions bc !! chat = None ->
   Bot.onDownload chat bc =
     Ok (Bot.sendMessage "Сначала залогиньтесь: /login <логин> <пароль>", bc))
  /\ (is_Some (Bot.sessions bc !! chat) ->
      (forall file name headers,
         getDownload c = Ok (Download file name headers, c) ->
         Bot.onDownload chat bc = Ok (Bot.sendDocument file (Path.basename file), bc))
      /\ (getDownload c = notAvailable c ->
          Bot.onDownload chat bc =
            Ok (Bot.sendMessage "Файл пока недоступен, свяжитесь с админом", bc))
      /\ ((exists file name headers,
             getDownload c = Ok (Download file name headers, c))
          \/ getDownload c = notAvailable c)).
Proof.
  intros Hsrv. split.
  - intros Hnone. destruct bc as [ss srv]. unfold Bot.onDownload.
    unfold bind at 1, gets at 1. simpl in *. by rewrite Hnone.
  - intros [u Hu]. rewrite (onDownload_eval chat bc u Hu), getDownload_spec, Hsrv.
    unfold notAvailable.
    destruct (toAbsolutePath _) as [file|]; [|split; [|split]]; try done;
      [|by right].
    destruct (bool_decide (file ∈ disk (server c))); split; [|split| |split];
      try done.
    + by intros ? ? ? [= <- _ _].
    + left. by do 3 eexists.
    + by right.
Qed.

End Pages.

(** A logged-in chat asks for the archive that is on disk. *)
Lemma bot_download_agrees_with_web_witness :
  let srv := mkServer [] [("cheat_zip_path", "downloads/whitecore-1.zip")]
               {["/srv/whitecore/downloads/whitecore-1.zip"]} in
  let bc := Bot.mkCtx {[ 7%Z := Bot.User 1 "RURI" true ]} srv in
  Bot.onDownload (H := demoRuntime) 7 bc =
    Ok (Bot.sendDocument "/srv/whitecore/downloads/whitecore-1.zip" "whitecore-1.zip",
        bc).
Proof.
  intros srv bc.
  refine (proj1 (proj2 (bot_download_agrees_with_web (H := demoRuntime) 7 bc
                          (mkCtx Session.fresh srv) eq_refl) _)
            "/srv/whitecore/downloads/whitecore-1.zip" "whitecore-1.zip"
            [("Cache-Control", "no-store")] _).
  - exists (Bot.User 1 "RURI" true). reflexivity.
  - vm_compute. reflexivity.
Defined.

(** ** Paths below the script's directory *)

Module PathFacts.

Import Path.

Lemma sapp_cons (c : ascii) (a b : string) : String c a +:+ b = String c (a +:+ b).
Proof. reflexivity. Qed.

Lemma app_empty_l (b : string) : EmptyString +:+ b = b.
Proof. reflexivity. Qed.

Lemma app_empty_r (a : string) : a +:+ EmptyString = a.
Proof. induction a as [|c a IH]; [done|]. by rewrite sapp_cons, IH. Qed.

Lemma sapp_assoc (a b c : string) : (a +:+ b) +:+ c = a +:+ (b +:+ c).
Proof. induction a as [|x a IH]; [done|]. by rewrite !sapp_cons, IH. Qed.

Lemma every_app (p : ascii -> bool) (a b : string) :
  Js.every p (a +:+ b) = Js.every p a && Js.every p b.
Proof.
  induction a as [|c a IH]; [done|].
  rewrite sapp_cons. simpl. by rewrite IH, andb_assoc.
Qed.

Lemma every_rev_app (p : ascii -> bool) (a b : string) :
  Js.every p (String.rev_app a b) = Js.every p a && Js.every p b.
Proof.
  revert b. induction a as [|c a IH]; intros b; simpl; [done|].
  rewrite IH. simpl. destruct (p c), (Js.every p a); simpl; auto.
Qed.

(** *** Splitting into segments *)

Lemma segments_go_slash (cur a b : string) :
  segments_go cur (a +:+ String "/" b) =
  segments_go cur a ++ segments_go EmptyString b.
Proof.
  revert cur. induction a as [|c a IH]; intros cur.
  - reflexivity.
  - rewrite sapp_cons. simpl. destruct (is_slash c); [|apply IH].
    by rewrite IH.
Qed.

Lemma segments_go_plain (cur x : string) :
  Js.every notSlash x = true -> segments_go cur x = [String.rev_app cur x].
Proof.
  revert cur. induction x as [|c x IH]; intros cur Hx; simpl in *; [done|].
  apply andb_true_iff in Hx as [Hc Hx]. unfold notSlash in Hc.
  apply negb_true_iff in Hc. rewrite Hc. by rewrite IH.
Qed.

Lemma segments_plain (x : string) :
  Js.every notSlash x = true -> segments x = [x].
Proof. intros Hx. unfold segments. by rewrite segments_go_plain. Qed.

Lemma segments_slash (a b : string) :
  segments (a +:+ "/" +:+ b) = segments a ++ segments b.
Proof. unfold segments. apply segments_go_slash. Qed.

Lemma segments_go_noslash (cur s : string) :
  Js.every notSlash cur = true ->
  Forall (fun x => Js.every notSlash x = true) (segments_go cur s).
Proof.
  revert cur. induction s as [|c s IH]; intros cur Hcur; simpl.
  - repeat constructor. unfold String.rev. by rewrite every_rev_app, Hcur.
  - destruct (is_slash c) eqn:Hc.
    + constructor; [|by apply IH].
      unfold String.rev. by rewrite every_rev_app, Hcur.
    + apply IH. simpl. rewrite Hcur. unfold notSlash. by rewrite Hc.
Qed.

Lemma segments_noslash (s : string) :
  Forall (fun x => Js.every notSlash x = true) (segments s).
Proof. by apply segments_go_noslash. Qed.

Lemma segments_join (l : list string) :
  l <> [] ->
  Forall (fun x => Js.every notSlash x = true) l ->
  segments (join_with_slash l) = l.
Proof.
  induction l as [|x l IH]; intros Hne Hall; [done|].
  apply Forall_cons in Hall as [Hx Hl].
  destruct l as [|y l].
  - simpl. by apply segments_plain.
  - change (join_with_slash (x :: y :: l))
      with (x +:+ "/" +:+ join_with_slash (y :: l)).
    rewrite segments_slash, (segments_plain x Hx), IH by done. reflexivity.
Qed.

Lemma join_with_slash_snoc (l : list string) (x : string) :
  l <> [] ->
  join_with_slash (l ++ [x]) = join_with_slash l +:+ "/" +:+ x.
Proof.
  induction l as [|a l IH]; intros Hne; [done|].
  destruct l as [|b l]; [reflexivity|].
  change (join_with_slash ((a :: b :: l) ++ [x]))
    with (a +:+ "/" +:+ join_with_slash ((b :: l) ++ [x])).
  rewrite IH by done.
  change (join_with_slash (a :: b :: l))
    with (a +:+ "/" +:+ join_with_slash (b :: l)).
  by rewrite !sapp_assoc.
Qed.

(** *** Strings that do not end in a slash *)

Lemma ends_inside (a f r : string) :
  f <> EmptyString -> a +:+ f = r +:+ "/" -> exists f', f = f' +:+ "/".
Proof.
  revert r. induction a as [|c a IH]; intros r Hf Heq.
  - by exists r.
  - destruct r as [|c' r].
    + rewrite sapp_cons in Heq. injection Heq as _ Heq.
      destruct a; [by destruct f | discriminate].
    + rewrite !sapp_cons in Heq. injection Heq as _ Heq. by apply (IH r).
Qed.

Lemma endsWith_plain (a f : string) :
  f <> EmptyString -> Js.every notSlash f = true ->
  Js.endsWith (a +:+ f) "/" = false.
Proof.
  intros Hf Hns. destruct (Js.endsWith (a +:+ f) "/") eqn:E; [|done].
  apply StringFacts.endsWith_iff in E as [r Hr].
  destruct (ends_inside a f r Hf Hr) as [f' ->].
  rewrite every_app in Hns. simpl in Hns. by rewrite andb_false_r in Hns.
Qed.

Lemma dropTrailingSlashes_plain (a f : string) :
  f <> EmptyString -> Js.every notSlash f = true ->
  dropTrailingSlashes (a +:+ f) = a +:+ f.
Proof.
  intros Hf Hns.
  assert (Hf' : dropTrailingSlashes f = f /\ dropTrailingSlashes f <> EmptyString).
  { clear a. induction f as [|c f IH]; [done|]. simpl in *.
    apply andb_true_iff in Hns as [Hc Hns].
    unfold notSlash in Hc. apply negb_true_iff in Hc.
    destruct f as [|d f].
    - simpl. by rewrite Hc.
    - destruct IH as [IH1 IH2]; [done..|]. rewrite IH1.
      split; [|done]. by destruct (dropTrailingSlashes (String d f)). }
  destruct Hf' as [Hd Hne].
  induction a as [|c a IH]; [done|].
  rewrite sapp_cons. simpl. rewrite IH.
  destruct (a +:+ f) eqn:E; [|done].
  destruct a; [|discriminate]. simpl in E. by subst.
Qed.

(** *** Resolving dot segments *)

Lemma proper_tests (x : string) :
  proper x ->
  String.eqb x EmptyString || String.eqb x "." = false
  /\ String.eqb x ".." = false.
Proof.
  intros (H0 & H1 & H2). rewrite orb_false_iff.
  repeat split; by apply String.eqb_neq.
Qed.

Lemma resolve_dots_app (b : bool) (st l1 l2 : list string) :
  resolve_dots b st (l1 ++ l2) = resolve_dots b (resolve_dots b st l1) l2.
Proof.
  revert st. induction l1 as [|seg l1 IH]; intros st; simpl; [done|].
  destruct (_ || _); [apply IH|].
  destruct (String.eqb seg ".."); [|apply IH].
  destruct st as [|top below]; [destruct b; apply IH|].
  destruct (String.eqb top ".."); apply IH.
Qed.

Lemma resolve_dots_proper (b : bool) (st l : list string) :
  Forall proper l -> resolve_dots b st l = rev l ++ st.
Proof.
  intros Hl. revert st. induction Hl as [|seg l Hseg _ IH]; intros st; simpl; [done|].
  destruct (proper_tests seg Hseg) as [-> ->].
  rewrite IH. simpl. by rewrite <- List.app_assoc.
Qed.

Lemma resolve_dots_from (P : string -> Prop) (b : bool) (st l : list string) :
  Forall P st -> Forall P l -> Forall P (resolve_dots b st l).
Proof.
  intros Hst Hl. revert st Hst.
  induction Hl as [|seg l Hseg _ IH]; intros st Hst; simpl; [done|].
  destruct (_ || _); [by apply IH|].
  destruct (String.eqb seg "..").
  - destruct st as [|top below].
    + destruct b; apply IH; by repeat constructor.
    + apply Forall_cons in Hst as [Htop Hbelow].
      destruct (String.eqb top ".."); apply IH; by repeat constructor.
  - apply IH. by constructor.
Qed.

Lemma resolve_dots_rooted (st l : list string) :
  Forall proper st -> Forall proper (resolve_dots false st l).
Proof.
  revert st. induction l as [|seg l IH]; intros st Hst; simpl; [done|].
  destruct (String.eqb seg EmptyString || String.eqb seg ".") eqn:E1; [by apply IH|].
  destruct (String.eqb seg "..") eqn:E2.
  - destruct st as [|top below]; [by apply IH|].
    apply Forall_cons in Hst as [Htop Hbelow].
    destruct (proper_tests top Htop) as [_ ->]. by apply IH.
  - apply IH. constructor; [|done].
    apply orb_false_iff in E1 as [E0 E1].
    repeat split; by apply String.eqb_neq.
Qed.

(** *** Normalising below an absolute directory *)

Lemma normalize_absolute (p : string) :
  isAbsolute p = true ->
  normalize p =
  match join_with_slash (rev (resolve_dots false [] (segments p))) with
  | EmptyString => "/"
  | body => "/" +:+ (if Js.endsWith p "/" then body +:+ "/" else body)
  end.
Proof.
  intros Hp. destruct p as [|c r]; [discriminate|].
  unfold normalize. rewrite Hp. simpl negb.
  by destruct (join_with_slash _).
Qed.

Lemma app_not_empty (a b : string) : b <> EmptyString -> a +:+ b <> EmptyString.
Proof. intros Hb E. destruct a; [done | discriminate]. Qed.

Lemma last_exists {A : Type} (l : list A) :
  l <> [] -> exists init x, l = init ++ [x].
Proof.
  induction l as [|a l IH]; [done|]. intros _.
  destruct l as [|b l]; [by exists [], a|].
  destruct IH as (init & x & ->); [done|]. by exists (a :: init), x.
Qed.

Lemma join_with_slash_ends (l : list string) (x : string) :
  exists prefix, join_with_slash (l ++ [x]) = prefix +:+ x.
Proof.
  destruct l as [|a l]; [by exists EmptyString|].
  rewrite join_with_slash_snoc by done. eexists. by rewrite <- sapp_assoc.
Qed.

Lemma plain_parts (xs : list string) :
  Forall plainSegment xs ->
  Forall (fun x => Js.every notSlash x = true) xs /\ Forall proper xs.
Proof.
  intros Hxs. split; eapply Forall_impl; try exact Hxs;
    intros x (? & ? & ? & ?); done.
Qed.

(** A path made of plain segments below an absolute directory keeps
    those segments, after the resolved segments of the directory. *)
Lemma normalize_under (dir : string) (xs : list string) :
  isAbsolute dir = true ->
  xs <> [] ->
  Forall plainSegment xs ->
  normalize (dir +:+ "/" +:+ join_with_slash xs) =
    "/" +:+ join_with_slash (rev (resolve_dots false [] (segments dir)) ++ xs).
Proof.
  intros Hdir Hne Hxs. destruct (plain_parts xs Hxs) as [Hns Hpr].
  rewrite normalize_absolute.
  2: { destruct dir as [|c d]; [discriminate|]. by rewrite sapp_cons. }
  rewrite segments_slash, (segments_join xs Hne Hns), resolve_dots_app.
  rewrite (resolve_dots_proper false _ xs Hpr), rev_app_distr, rev_involutive.
  destruct (last_exists xs Hne) as (init & x & ->).
  apply Forall_app in Hxs as [_ Hx]. apply List.Forall_inv in Hx.
  destruct Hx as (Hxns & Hx0 & _).
  destruct (join_with_slash_ends init x) as [pre Hpre].
  assert (Hend : Js.endsWith (dir +:+ "/" +:+ join_with_slash (init ++ [x])) "/" = false).
  { rewrite Hpre, <- !sapp_assoc. by apply endsWith_plain. }
  rewrite Hend.
  destruct (join_with_slash_ends
              (rev (resolve_dots false [] (segments dir)) ++ init) x) as [pre' Hpre'].
  rewrite <- List.app_assoc in Hpre'.
  destruct (join_with_slash (_ ++ init ++ [x])) eqn:E; [|done].
  by destruct (app_not_empty pre' x Hx0).
Qed.

Lemma join_two (a b : string) :
  Js.truthy a = true -> Js.truthy b = true ->
  join [a; b] = normalize (a +:+ "/" +:+ b).
Proof.
  intros Ha Hb. unfold join.
  rewrite filter_cons_True by (by rewrite Ha).
  rewrite filter_cons_True by (by rewrite Hb).
  rewrite filter_nil. reflexivity.
Qed.

Lemma absolute_truthy (p : string) : isAbsolute p = true -> Js.truthy p = true.
Proof. by destruct p. Qed.

Lemma plain_truthy (x : string) : plainSegment x -> Js.truthy x = true.
Proof. intros (_ & H0 & _). by destruct x. Qed.

(** [path.join] of an absolute directory and a plain name. *)
Lemma join_child (dir x : string) :
  isAbsolute dir = true -> plainSegment x ->
  join [dir; x] =
    "/" +:+ join_with_slash (rev (resolve_dots false [] (segments dir)) ++ [x]).
Proof.
  intros Hdir Hx.
  rewrite join_two; [|by apply absolute_truthy|by apply plain_truthy].
  apply (normalize_under dir [x]); [done..|]. by constructor.
Qed.

Lemma resolved_segments (dir : string) :
  let kept := rev (resolve_dots false [] (segments dir)) in
  Forall (fun x => Js.every notSlash x = true) kept /\ Forall proper kept.
Proof.
  cbv zeta. split; apply Forall_rev.
  - apply resolve_dots_from; [constructor | apply segments_noslash].
  - apply resolve_dots_rooted. constructor.
Qed.

(** The segments of a path made by [join_child] are the ones it was
    made of. *)
Lemma segments_rooted (l : list string) :
  l <> [] ->
  Forall (fun x => Js.every notSlash x = true) l ->
  segments ("/" +:+ join_with_slash l) = EmptyString :: l.
Proof.
  intros Hne Hl.
  change ("/" +:+ join_with_slash l)
    with (EmptyString +:+ "/" +:+ join_with_slash l).
  by rewrite segments_slash, segments_join.
Qed.

Lemma snoc_not_nil {A : Type} (l : list A) (x : A) : l ++ [x] <> [].
Proof. by destruct l. Qed.

(** Joining in two steps or in one gives the same path. *)
Lemma join_nested (dir a f : string) :
  isAbsolute dir = true -> plainSegment a -> plainSegment f ->
  join [join [dir; a]; f] = join [dir; a +:+ "/" +:+ f]
  /\ join [join [dir; a]; f] =
       "/" +:+ join_with_slash
                 (rev (resolve_dots false [] (segments dir)) ++ [a; f]).
Proof.
  intros Hdir Ha Hf.
  destruct (resolved_segments dir) as [Hns Hpr]. cbv zeta in Hns, Hpr.
  set (kept := rev (resolve_dots false [] (segments dir))) in *.
  assert (Hone : join [join [dir; a]; f] =
                 "/" +:+ join_with_slash (kept ++ [a; f])).
  { rewrite (join_child dir a Hdir Ha). fold kept.
    rewrite join_child; [|reflexivity|done].
    rewrite segments_rooted.
    2: apply snoc_not_nil.
    2: { apply Forall_app. split; [done|]. constructor; [apply Ha | constructor]. }
    change (resolve_dots false [] (EmptyString :: kept ++ [a]))
      with (resolve_dots false [] (kept ++ [a])).
    rewrite resolve_dots_proper.
    2: { apply Forall_app. split; [done|]. constructor; [apply Ha | constructor]. }
    rewrite app_nil_r, rev_involutive, <- List.app_assoc. reflexivity. }
  split; [|done]. rewrite Hone.
  rewrite join_two.
  - symmetry. apply (normalize_under dir [a; f]); [done..|].
    constructor; [done|]. constructor; [done|]. constructor.
  - by apply absolute_truthy.
  - destruct Ha as (_ & Ha0 & _). by destruct a.
Qed.

(** [path.join] of two plain names puts a slash between them. *)
Lemma join_plain (a f : string) :
  plainSegment a -> plainSegment f -> join [a; f] = a +:+ "/" +:+ f.
Proof.
  intros Ha Hf. rewrite join_two by (by apply plain_truthy).
  pose proof Ha as (Hans & Ha0 & _). pose proof Hf as (Hfns & Hf0 & _).
  assert (Hseg : segments (a +:+ "/" +:+ f) = [a; f]).
  { by rewrite segments_slash, !segments_plain. }
  assert (Hend : Js.endsWith (a +:+ "/" +:+ f) "/" = false).
  { rewrite <- sapp_assoc. by apply endsWith_plain. }
  unfold normalize. rewrite Hseg, Hend.
  rewrite resolve_dots_proper.
  2: { constructor; [apply Ha|]. constructor; [apply Hf|]. constructor. }
  destruct a as [|c a']; [done|].
  simpl in Hans. apply andb_true_iff in Hans as [Hc _].
  unfold notSlash in Hc. apply negb_true_iff in Hc.
  rewrite sapp_cons. simpl isAbsolute. rewrite Hc. reflexivity.
Qed.

(** [path.basename] of a path ending in a plain name is that name. *)
Lemma basename_rooted (l : list string) (f : string) :
  Forall (fun x => Js.every notSlash x = true) l ->
  plainSegment f ->
  basename ("/" +:+ join_with_slash (l ++ [f])) = f.
Proof.
  intros Hl (Hfns & Hf0 & _). unfold basename.
  destruct (join_with_slash_ends l f) as [pre Hpre].
  rewrite Hpre at 1. rewrite <- sapp_assoc, dropTrailingSlashes_plain by done.
  rewrite sapp_assoc, <- Hpre, segments_rooted.
  - change (EmptyString :: l ++ [f]) with ((EmptyString :: l) ++ [f]).
    by rewrite last_snoc.
  - apply snoc_not_nil.
  - apply Forall_app. split; [done|]. constructor; [done|]. constructor.
Qed.

(** *** Names given to stored files *)

Lemma splitLastDot_app (s pre ext : string) :
  splitLastDot s = Some (pre, ext) -> s = pre +:+ ext.
Proof.
  revert pre ext. induction s as [|c s IH]; intros pre ext; simpl; [done|].
  destruct (splitLastDot s) as [[pre' ext']|].
  - intros [= <- <-]. rewrite sapp_cons. f_equal. by apply IH.
  - destruct (Ascii.eqb c "."); [|done]. by intros [= <- <-].
Qed.

Lemma basename_noslash (p : string) : Js.every notSlash (basename p) = true.
Proof.
  unfold basename.
  pose proof (segments_noslash (dropTrailingSlashes p)) as Hall.
  destruct (last (segments (dropTrailingSlashes p))) as [x|] eqn:E; [|done].
  simpl. apply last_Some_elem_of in E.
  by apply (proj1 (Forall_forall _ _) Hall x).
Qed.

Lemma extname_noslash (p : string) : Js.every notSlash (extname p) = true.
Proof.
  unfold extname.
  destruct (splitLastDot (basename p)) as [[pre ext]|] eqn:E; [|done].
  apply splitLastDot_app in E.
  pose proof (basename_noslash p) as Hb. rewrite E, every_app in Hb.
  apply andb_true_iff in Hb as [_ Hb].
  destruct (String.eqb pre EmptyString); [done|].
  by destruct (_ && _).
Qed.

Lemma pretty_N_go_every (p : ascii -> bool) (x : N) (s : string) :
  (forall d, p (pretty_N_char d) = true) ->
  Js.every p s = true -> Js.every p (pretty_N_go x s) = true.
Proof.
  intros Hp. revert s. induction (N.lt_wf_0 x) as [x _ IH]; intros s Hs.
  destruct (decide (x = 0)%N) as [->|Hx]; [done|].
  rewrite pretty_N_go_step by lia.
  apply IH; [apply N.div_lt; lia|]. simpl. by rewrite Hp, Hs.
Qed.

Lemma pretty_N_noslash (x : N) : Js.every notSlash (pretty x) = true.
Proof.
  unfold pretty, pretty_N. destruct (decide (x = 0)%N); [done|].
  apply pretty_N_go_every; [|done].
  intros d. unfold pretty_N_char. by repeat case_match.
Qed.

End PathFacts.

(** ** Stored files and the paths that lead to them *)

Section StoredFiles.

Context `{Runtime}.

Import PathFacts.

Lemma normalize_keeps_absolute (p : string) :
  Path.isAbsolute p = true -> Path.isAbsolute (Path.normalize p) = true.
Proof.
  intros Hp. rewrite (normalize_absolute p Hp).
  by destruct (Path.join_with_slash _).
Qed.

Lemma join_keeps_absolute (dir x : string) :
  Path.isAbsolute dir = true -> Path.isAbsolute (Path.join [dir; x]) = true.
Proof.
  intros Hdir. unfold Path.join.
  rewrite filter_cons_True by (by rewrite (absolute_truthy dir Hdir)).
  destruct (Js.truthy x) eqn:Hx.
  - rewrite filter_cons_True by (by rewrite Hx). rewrite filter_nil.
    apply normalize_keeps_absolute.
    destruct dir as [|c d]; [discriminate|]. exact Hdir.
  - rewrite filter_cons_False by (rewrite Hx; intros []). rewrite filter_nil.
    by apply normalize_keeps_absolute.
Qed.

(** X10.  Stored paths resolve to absolute paths.  When the script's
    directory is absolute, [toAbsolutePath] gives nothing for the empty
    string and an absolute path for every other stored value; a value
    that is itself absolute, and so every value that starts with a
    slash, is returned unchanged and never placed below the script's
    directory. *)
Theorem toAbsolutePath_absolute (storedPath : string) :
  Path.isAbsolute __dirname = true ->
  (storedPath = EmptyString -> toAbsolutePath storedPath = None)
  /\ (storedPath <> EmptyString ->
      exists p, toAbsolutePath storedPath = Some p /\ Path.isAbsolute p = true)
  /\ (forall rest, storedPath = "/" +:+ rest ->
      toAbsolutePath storedPath = Some storedPath).
Proof.
  intros Hdir. split; [by intros ->|]. split.
  - intros Hne. unfold toAbsolutePath.
    destruct storedPath as [|c r]; [done|]. simpl negb. cbv iota.
    destruct (Path.isAbsolute (String c r)) eqn:Habs; [by eexists|].
    eexists. split; [reflexivity|]. by apply join_keeps_absolute.
  - by intros rest ->.
Qed.

Lemma or_else_noslash (a b : string) :
  Js.every notSlash a = true -> Js.every notSlash b = true ->
  Js.every notSlash (Js.or_else a b) = true.
Proof. intros Ha Hb. unfold Js.or_else. by destruct (Js.truthy a). Qed.

(** X11.  Whatever name the client gives an uploaded file, the name it
    is stored under is one plain path segment: it contains no slash and
    is neither empty nor a dot name, so the file lands directly in the
    slot's directory and [path.basename] of its stored path gives the
    name back. *)
Theorem stored_names_are_plain (env : Env) (file : File.t) :
  plainSegment (imageStorage_filename env file)
  /\ plainSegment (zipStorage_filename env file)
  /\ (Path.isAbsolute __dirname = true ->
      Path.basename (Path.join [UPLOADS_DIR; imageStorage_filename env file]) =
        imageStorage_filename env file
      /\ Path.basename (Path.join [DOWNLOADS_DIR; zipStorage_filename env file]) =
           zipStorage_filename env file).
Proof.
  assert (Himg : plainSegment (imageStorage_filename env file)).
  { unfold imageStorage_filename, plainSegment. cbv zeta.
    split; [|by repeat split].
    rewrite !every_app, pretty_N_noslash, or_else_noslash;
      [done | apply extname_noslash | done]. }
  assert (Hzip : plainSegment (zipStorage_filename env file)).
  { unfold zipStorage_filename, plainSegment. cbv zeta.
    split; [|by repeat split].
    rewrite !every_app, pretty_N_noslash, or_else_noslash;
      [done | apply extname_noslash | done]. }
  split; [done|]. split; [done|]. intros Hdir.
  assert (Hbase : forall a f, plainSegment a -> plainSegment f ->
            Path.basename (Path.join [Path.join [__dirname; a]; f]) = f).
  { intros a f Ha Hf.
    destruct (join_nested __dirname a f Hdir Ha Hf) as [_ ->].
    destruct (resolved_segments __dirname) as [Hns _]. cbv zeta in Hns.
    change [a; f] with ([a] ++ [f]). rewrite List.app_assoc.
    apply basename_rooted; [|done].
    apply Forall_app. split; [done|]. constructor; [apply Ha | constructor]. }
  split; apply Hbase; try done; by repeat split.
Qed.

End StoredFiles.

(** The stored image URL is taken for a path from the root. *)
Lemma toAbsolutePath_absolute_witness :
  toAbsolutePath (H := demoRuntime) "/uploads/cheat-1.png" = Some "/uploads/cheat-1.png".
Proof.
  exact (proj2 (proj2 (toAbsolutePath_absolute (H := demoRuntime)
                         "/uploads/cheat-1.png" eq_refl))
           "uploads/cheat-1.png" eq_refl).
Defined.

(** ** From an upload to its delivery *)

Section Delivery.

Context `{Runtime}.

Import PathFacts.

Lemma downloads_plain : plainSegment "downloads".
Proof. by repeat split. Qed.

Lemma uploads_plain : plainSegment "uploads".
Proof. by repeat split. Qed.

Lemma zip_name_plain env file : plainSegment (zipStorage_filename env file).
Proof.
  unfold zipStorage_filename, plainSegment. cbv zeta. split; [|by repeat split].
  rewrite !every_app, pretty_N_noslash, or_else_noslash;
    [done | apply extname_noslash | done].
Qed.

Lemma image_name_plain env file : plainSegment (imageStorage_filename env file).
Proof.
  unfold imageStorage_filename, plainSegment. cbv zeta. split; [|by repeat split].
  rewrite !every_app, pretty_N_noslash, or_else_noslash;
    [done | apply extname_noslash | done].
Qed.

(** The value stored for an archive resolves to the file multer wrote. *)
Lemma archive_setting_resolves (f : string) :
  Path.isAbsolute __dirname = true ->
  plainSegment f ->
  Path.join ["downloads"; f] = "downloads" +:+ "/" +:+ f
  /\ toAbsolutePath (Path.join ["downloads"; f]) =
       Some (Path.join [DOWNLOADS_DIR; f])
  /\ Path.basename (Path.join [DOWNLOADS_DIR; f]) = f.
Proof.
  intros Hdir Hf.
  destruct (join_nested __dirname "downloads" f Hdir downloads_plain Hf)
    as [Hnest Hform].
  split; [by apply join_plain; [apply downloads_plain|]|]. split.
  - rewrite (join_plain "downloads" f downloads_plain Hf).
    rewrite toAbsolutePath_downloads.
    + unfold DOWNLOADS_DIR. by rewrite Hnest.
    + apply StringFacts.startsWith_iff. by eexists.
  - unfold DOWNLOADS_DIR. rewrite Hform.
    destruct (resolved_segments __dirname) as [Hns _]. cbv zeta in Hns.
    change ["downloads"; f] with (["downloads"] ++ [f]). rewrite List.app_assoc.
    apply basename_rooted; [|done].
    apply Forall_app. split; [done|]. constructor; [done | constructor].
Qed.

(** X12.  A replaced archive is the one that is downloaded.  With the
    script's directory absolute, after an accepted archive upload the
    download route sends the file multer has just stored, under the name
    it was stored with, provided the previous archive did not resolve to
    that very file.  If it did (the new file got the name of the current
    one), the handler deletes the file it has just received, and the
    download route answers that nothing is available. *)
Theorem replaced_archive_is_served (env : Env) (req : Request) (c : Ctx)
    (file : File.t) :
  Path.isAbsolute __dirname = true ->
  filePart req = Some file ->
  File.fieldname file = "cheatZip" ->
  uploadZip_fileFilter file = Ok true ->
  let filename := zipStorage_filename env file in
  let stored := Path.join [DOWNLOADS_DIR; filename] in
  let prev := default DEFAULT_ZIP_PATH
                (Settings.select "cheat_zip_path" (settings (server c))) in
  exists c',
    postUploadZip env req c = Ok (Redirect "/admin", c')
    /\ (toAbsolutePath prev <> Some stored ->
        getDownload c' =
          Ok (Download stored filename [("Cache-Control", "no-store")], c'))
    /\ (prev = Path.join ["downloads"; filename] ->
        getDownload c' = notAvailable c').
Proof.
  intros Hdir Hpart Hfield Hok filename stored prev.
  destruct (postUploadZip_accepted env req c file Hpart Hfield Hok)
    as (c' & Hrun & Hsel & Hdisk).
  cbv zeta in Hsel, Hdisk. fold filename in Hsel, Hdisk. fold prev in Hdisk.
  destruct (archive_setting_resolves filename Hdir (zip_name_plain env file))
    as (Hval & Hres & Hbase).
  fold stored in Hres, Hbase, Hdisk.
  exists c'. split; [done|].
  assert (Hd : forall here : bool,
            bool_decide (stored ∈ disk (server c')) = here ->
            getDownload c' =
              if here
              then Ok (Download stored filename [("Cache-Control", "no-store")], c')
              else notAvailable c').
  { intros here Hhere. rewrite getDownload_spec, Hsel. simpl default.
    rewrite Hres, Hhere, Hbase.
    destruct here; [|done]. unfold Js.or_else.
    pose proof (plain_truthy _ (zip_name_plain env file)) as Ht.
    fold filename in Ht. by rewrite Ht. }
  split.
  - intros Hother. apply (Hd true). apply bool_decide_eq_true. rewrite Hdisk.
    destruct (Js.startsWith prev "downloads") eqn:Hp.
    + rewrite (toAbsolutePath_downloads _ Hp) in Hother.
      apply elem_of_difference. split.
      * apply elem_of_union. left. by apply elem_of_singleton.
      * rewrite elem_of_singleton. congruence.
    + apply elem_of_union. left. by apply elem_of_singleton.
  - intros Hsame. apply (Hd false). apply bool_decide_eq_false. rewrite Hdisk.
    assert (Hp : Js.startsWith prev "downloads" = true).
    { rewrite Hsame, Hval. apply StringFacts.startsWith_iff. by eexists. }
    rewrite Hp.
    assert (Hprev : Path.join [__dirname; prev] = stored).
    { pose proof (toAbsolutePath_downloads _ Hp) as Ht.
      rewrite Hsame, Hres in Ht. rewrite Hsame. congruence. }
    rewrite Hprev. intros [_ Hn]%elem_of_difference.
    apply Hn. by apply elem_of_singleton.
Qed.

(** The mount at [/uploads] hands a stored name on with its slash. *)
Lemma mounted_stored_name (x : string) :
  Express.mounted "/uploads" ("/uploads/cheat-" +:+ x) = Some ("/cheat-" +:+ x).
Proof.
  unfold Express.mounted.
  change ("/uploads/cheat-" +:+ x) with ("/uploads" +:+ ("/cheat-" +:+ x)).
  rewrite StringFacts.length_append.
  replace (String.length "/uploads" + String.length ("/cheat-" +:+ x)
           - String.length "/uploads")
    with (String.length ("/cheat-" +:+ x)) by lia.
  rewrite StringFacts.substring_append. reflexivity.
Qed.

(** X13.  A replaced image is asked for where it was stored.  After an
    accepted image upload the home page shows the new URL, the file
    multer stored is on disk under the uploads directory (unless the
    previous value was the very path of that file), and a GET of the new
    URL that the public mount passes on is handed by the mount at
    [/uploads] to [send] with the uploads directory as root and the
    stored name, after a slash, as the path: the request is answered by
    what [send] makes of the stored name in the directory the file was
    written to. *)
Theorem replaced_image_is_served (env : Env) (req : Request) (c : Ctx)
    (file : File.t) (get : Request) (locals : Locals) :
  let filename := imageStorage_filename env file in
  let url := "/uploads/" +:+ filename in
  let stored := Path.join [UPLOADS_DIR; filename] in
  let prev := default DEFAULT_IMAGE_URL
                (Settings.select "cheat_image_url" (settings (server c))) in
  filePart req = Some file ->
  File.fieldname file = "cheatImage" ->
  File.originalname file <> EmptyString ->
  uploadImage_fileFilter file = Ok true ->
  method get = GET ->
  path get = url ->
  exists c' shown,
    postUploadImage env req c = Ok (Redirect "/admin", c')
    /\ getIndex get locals c' = Ok (Render "index" locals shown, c')
    /\ shown !! 1%nat = Some ("cheatImageUrl", VString url)
    /\ (prev <> stored -> stored ∈ disk (server c'))
    /\ Express.mounted "/uploads" url = Some ("/" +:+ filename)
    /\ (send PUBLIC_DIR url (disk (server c')) = Passed ->
        staticMounts get c' =
          Ok (send UPLOADS_DIR ("/" +:+ filename) (disk (server c')), c')).
Proof.
  intros filename url stored prev Hpart Hfield Hname Hok Hget Hpath.
  destruct (postUploadImage_accepted env req c file Hpart Hfield Hname Hok)
    as (c' & Hrun & Hsel & Hdisk).
  cbv zeta in Hsel, Hdisk. fold filename in Hsel, Hdisk. fold prev in Hdisk.
  fold url in Hsel. fold stored in Hdisk.
  assert (Hmount : Express.mounted "/uploads" url = Some ("/" +:+ filename)).
  { apply mounted_stored_name. }
  exists c'. eexists. split; [done|]. split; [apply getIndex_spec|].
  split; [simpl; by rewrite Hsel|]. split; [|split; [done|]].
  - intros Hprev. rewrite Hdisk. destruct (Js.startsWith prev "/uploads/").
    + apply elem_of_difference. split.
      * apply elem_of_union. left. by apply elem_of_singleton.
      * rewrite elem_of_singleton. congruence.
    + apply elem_of_union. left. by apply elem_of_singleton.
  - intros Hpublic. destruct c' as [sess' srv'].
    unfold staticMounts, serveStatic. rewrite Hget, Hpath, Hmount.
    unfold bind, gets. simpl disk. simpl server.
    change (String.eqb url "/") with false.
    change (String.eqb ("/" +:+ filename) "/") with false.
    change (false && _) with false. cbv iota. by rewrite Hpublic.
Qed.

End Delivery.

(** A second archive replaces the first. *)
Lemma replaced_archive_is_served_witness :
  let file := File.Make "cheatZip" "new.zip" "application/zip" in
  let req := demoPost "/admin/upload-zip" Form.empty (Some file) in
  let c := mkCtx (Session.Make (Some (Session.User 1 "RURI" EmptyString true)) None None)
             (mkServer [] [("cheat_zip_path", "downloads/whitecore-1.zip")]
                {["/srv/whitecore/downloads/whitecore-1.zip"]}) in
  exists c',
    postUploadZip (H := demoRuntime) demoEnv req c = Ok (Redirect "/admin", c')
    /\ getDownload (H := demoRuntime) c' =
         Ok (Download "/srv/whitecore/downloads/whitecore-2.zip" "whitecore-2.zip"
               [("Cache-Control", "no-store")], c').
Proof.
  intros file req c.
  pose proof (replaced_archive_is_served (H := demoRuntime) demoEnv req c file
                eq_refl eq_refl eq_refl eq_refl) as Hw.
  cbv zeta in Hw. destruct Hw as (c' & Hrun & Hserved & _).
  exists c'. split; [exact Hrun|]. apply Hserved.
  vm_compute. discriminate.
Defined.

(** A second image replaces the first and is served under its URL. *)
Lemma replaced_image_is_served_witness :
  let file := File.Make "cheatImage" "new.png" "image/png" in
  let req := demoPost "/admin/upload-image" Form.empty (Some file) in
  let c := mkCtx (Session.Make (Some (Session.User 1 "RURI" EmptyString true)) None None)
             (mkServer [] [("cheat_image_url", "/uploads/cheat-1.png")]
                {["/srv/whitecore/uploads/cheat-1.png"]}) in
  exists c',
    postUploadImage (H := demoRuntime) demoEnv req c = Ok (Redirect "/admin", c')
    /\ "/srv/whitecore/uploads/cheat-2.png" ∈ disk (server c')
    /\ staticMounts (H := demoRuntime) (demoGet "/uploads/cheat-2.png") c' =
         Ok (Served "/srv/whitecore/uploads/cheat-2.png", c').
Proof.
  intros file req c.
  destruct (replaced_image_is_served (H := demoRuntime) demoEnv req c file
              (demoGet "/uploads/cheat-2.png") (mkLocals None None)
              eq_refl eq_refl) as (c' & shown & Hrun & _ & _ & Hin & _ & Hs).
  - discriminate.
  - reflexivity.
  - reflexivity.
  - reflexivity.
  - exists c'. split; [exact Hrun|]. split.
    + apply Hin. vm_compute. discriminate.
    + rewrite Hs.
      * vm_compute in Hrun. injection Hrun as <-. vm_compute. reflexivity.
      * vm_compute in Hrun. injection Hrun as <-. vm_compute. reflexivity.
Defined.

(** ** The admin page after an image upload *)

Section AdminPage.

Context `{Runtime}.

Lemma getAdmin_spec (locals : Locals) (c : Ctx) :
  let cheatImageUrl := default DEFAULT_IMAGE_URL
                         (Settings.select "cheat_image_url" (settings (server c))) in
  let zipPath := default DEFAULT_ZIP_PATH
                   (Settings.select "cheat_zip_path" (settings (server c))) in
  let absoluteImage :=
    if Js.startsWith cheatImageUrl "/uploads/"
    then toAbsolutePath cheatImageUrl
    else toAbsolutePath (Path.join ["public"; Js.stripLeadingSlash cheatImageUrl]) in
  getAdmin locals c =
  Ok (Render "admin" locals
        [("title", VString "Админ-панель");
         ("cheatImageUrl", VString cheatImageUrl);
         ("zipPath", VString zipPath);
         ("zipExists",
            VBool match toAbsolutePath zipPath with
                  | Some p => bool_decide (p ∈ disk (server c))
                  | None => false
                  end);
         ("imageExists",
            VBool match absoluteImage with
                  | Some p => bool_decide (p ∈ disk (server c))
                  | None => false
                  end)], c).
Proof.
  cbv zeta. apply wp_returns. destruct c as [sess [us st dk]]. unfold getAdmin.
  wp_all. split; [|done]. reflexivity.
Qed.

(** X15.  The admin page looks for an uploaded image in the wrong place.
    After an accepted image upload the admin page shows the new URL, but
    its [imageExists] flag tests the URL itself as a path from the root
    of the file system; so when no file stands there, the page reports
    the image as missing although the file multer stored is on disk. *)
Theorem admin_page_misses_uploaded_image (env : Env) (req : Request) (c : Ctx)
    (file : File.t) (locals : Locals) :
  let filename := imageStorage_filename env file in
  let url := "/uploads/" +:+ filename in
  let stored := Path.join [UPLOADS_DIR; filename] in
  let prev := default DEFAULT_IMAGE_URL
                (Settings.select "cheat_image_url" (settings (server c))) in
  filePart req = Some file ->
  File.fieldname file = "cheatImage" ->
  File.originalname file <> EmptyString ->
  uploadImage_fileFilter file = Ok true ->
  exists c' shown,
    postUploadImage env req c = Ok (Redirect "/admin", c')
    /\ getAdmin locals c' = Ok (Render "admin" locals shown, c')
    /\ shown !! 1%nat = Some ("cheatImageUrl", VString url)
    /\ shown !! 4%nat =
         Some ("imageExists", VBool (bool_decide (url ∈ disk (server c'))))
    /\ (url ∉ {[stored]} ∪ disk (server c) -> prev <> stored ->
        shown !! 4%nat = Some ("imageExists", VBool false)
        /\ stored ∈ disk (server c')).
Proof.
  intros filename url stored prev Hpart Hfield Hname Hok.
  destruct (postUploadImage_accepted env req c file Hpart Hfield Hname Hok)
    as (c' & Hrun & Hsel & Hdisk).
  cbv zeta in Hsel, Hdisk. fold filename in Hsel, Hdisk. fold prev in Hdisk.
  fold url in Hsel. fold stored in Hdisk.
  assert (Hup : Js.startsWith url "/uploads/" = true).
  { apply StringFacts.startsWith_iff. by exists filename. }
  exists c'. eexists. split; [exact Hrun|]. split; [apply getAdmin_spec|].
  cbv zeta. rewrite Hsel. simpl default. rewrite Hup, (toAbsolutePath_uploads url Hup).
  split; [reflexivity|]. split; [reflexivity|].
  intros Hout Hprev. split.
  - simpl. do 3 f_equal. apply bool_decide_eq_false. rewrite Hdisk.
    destruct (Js.startsWith prev "/uploads/"); [|done].
    intros [Hx _]%elem_of_difference. done.
  - rewrite Hdisk. destruct (Js.startsWith prev "/uploads/").
    + apply elem_of_difference. split.
      * apply elem_of_union. left. by apply elem_of_singleton.
      * rewrite elem_of_singleton. congruence.
    + apply elem_of_union. left. by apply elem_of_singleton.
Qed.

End AdminPage.

(** The page an administrator sees after the first replacement. *)
Lemma admin_page_misses_uploaded_image_witness :
  let file := File.Make "cheatImage" "new.png" "image/png" in
  let req := demoPost "/admin/upload-image" Form.empty (Some file) in
  let c := mkCtx (Session.Make (Some (Session.User 1 "RURI" EmptyString true)) None None)
             (mkServer [] [("cheat_image_url", "/uploads/cheat-1.png")]
                {["/srv/whitecore/uploads/cheat-1.png"]}) in
  exists c' shown,
    postUploadImage (H := demoRuntime) demoEnv req c = Ok (Redirect "/admin", c')
    /\ getAdmin (H := demoRuntime) (mkLocals None None) c' =
         Ok (Render "admin" (mkLocals None None) shown, c')
    /\ shown !! 4%nat = Some ("imageExists", VBool false)
    /\ "/srv/whitecore/uploads/cheat-2.png" ∈ disk (server c').
Proof.
  intros file req c.
  pose proof (admin_page_misses_uploaded_image (H := demoRuntime) demoEnv req c file
                (mkLocals None None) eq_refl eq_refl) as Hw.
  cbv zeta in Hw.
  destruct Hw as (c' & shown & Hrun & Hpage & _ & _ & Hmiss).
  - discriminate.
  - reflexivity.
  - exists c', shown. split; [exact Hrun|]. split; [exact Hpage|].
    apply Hmiss.
    + apply (bool_decide_unpack _). vm_compute. exact I.
    + vm_compute. discriminate.
Defined.

(** ** The words of a [/login] message *)

Section BotWords.

Context `{Runtime}.

(** A character has at least one byte. *)
Lemma chars_not_empty (s : string) : Forall (fun ch => ch <> EmptyString) (Js.chars s).
Proof.
  induction s as [|c r IH]; simpl; [constructor|].
  destruct r as [|d r']; [by repeat constructor|].
  destruct (Js.is_continuation d).
  - destruct (Js.chars (String d r')) as [|ch more]; [by repeat constructor|].
    apply Forall_cons in IH as [_ IH]. by constructor.
  - by constructor.
Qed.

Lemma concat_not_empty (l : list string) :
  l <> [] -> Forall (fun ch => ch <> EmptyString) l -> Js.concat l <> EmptyString.
Proof.
  intros Hl Hne. destruct l as [|x l]; [done|].
  apply Forall_cons in Hne as [Hx _]. simpl. by destruct x.
Qed.

(** A run without white space is read into the current piece. *)
Lemma split_go_word (w cur l : list string) (in_gap : bool) :
  forallb notSpace w = true ->
  w <> [] \/ in_gap = false ->
  Js.split_go cur in_gap (w ++ l) = Js.split_go (rev w ++ cur) false l.
Proof.
  revert cur in_gap. induction w as [|ch w IH]; intros cur in_gap Hw Hne.
  - destruct Hne as [Hne | ->]; [done | reflexivity].
  - simpl in Hw. apply andb_true_iff in Hw as [Hc Hw].
    unfold notSpace in Hc. apply negb_true_iff in Hc.
    simpl. rewrite Hc, <- List.app_assoc. apply IH; [done | by right].
Qed.

(** White space after a gap has begun is skipped. *)
Lemma split_go_gap (gap l : list string) :
  forallb Js.spaceChar gap = true ->
  Js.split_go [] true (gap ++ l) = Js.split_go [] true l.
Proof.
  induction gap as [|ch gap IH]; intros Hg; [done|].
  simpl in Hg. apply andb_true_iff in Hg as [Hc Hg].
  simpl. rewrite Hc. by apply IH.
Qed.

(** A run of white space closes the current piece. *)
Lemma split_go_blank (cur gap l : list string) :
  blank gap ->
  Js.split_go cur false (gap ++ l) =
    Js.concat (rev cur) :: Js.split_go [] true l.
Proof.
  intros [Hne Hg]. destruct gap as [|ch gap]; [done|].
  simpl in Hg. apply andb_true_iff in Hg as [Hc Hg].
  simpl. rewrite Hc. f_equal. by apply split_go_gap.
Qed.

Lemma split_two_words (name gap pass tail : list string) :
  word name -> blank gap -> word pass -> spaced tail ->
  exists more,
    Js.split_go [] false (name ++ gap ++ pass ++ tail) =
      Js.concat name :: Js.concat pass :: more.
Proof.
  intros [Hn0 Hn] Hgap [Hp0 Hp] Htail.
  rewrite (split_go_word name _ _ false Hn (or_intror eq_refl)).
  rewrite (split_go_blank _ gap _ Hgap), app_nil_r, rev_involutive.
  rewrite (split_go_word pass _ _ true Hp (or_introl Hp0)), app_nil_r.
  destruct Htail as [-> | (ch & r & -> & Hc)]; simpl.
  - rewrite rev_involutive. by eexists.
  - rewrite Hc, rev_involutive. by eexists.
Qed.

Lemma split_one_word (name trail : list string) :
  forallb notSpace name = true -> forallb Js.spaceChar trail = true ->
  Js.split_go [] false (name ++ trail) = [Js.concat name]
  \/ Js.split_go [] false (name ++ trail) = [Js.concat name; EmptyString].
Proof.
  intros Hn Ht.
  rewrite (split_go_word name _ _ false Hn (or_intror eq_refl)), app_nil_r.
  destruct trail as [|ch trail].
  - left. simpl. by rewrite rev_involutive.
  - right. assert (Hb : blank (ch :: trail)) by (split; [discriminate | exact Ht]).
    rewrite <- (app_nil_r (ch :: trail)).
    rewrite (split_go_blank _ (ch :: trail) [] Hb).
    by rewrite rev_involutive.
Qed.

(** X14.  How the bot reads a [/login] message.  The captured text is
    cut at runs of white space (that of JavaScript's [\s], the no-break
    space among it) and only its first two pieces are used.  A text that
    is empty or begins with white space, or that holds a single word
    with or without white space after it, is answered with the format
    reminder and changes nothing, whatever accounts exist.  A text of
    two words separated by any run of white space is answered by the
    credential check on the first as username and the second as
    password, and whatever follows the second word after more white
    space is ignored. *)
Theorem bot_login_reads_two_words (chat : Z) (bc : Bot.Ctx) (credentials : string) :
  let format := Ok (Bot.sendMessage "Формат: /login <логин> <пароль>", bc) in
  let denied := Ok (Bot.sendMessage "Неверные данные", bc) in
  (spaced (Js.chars credentials) -> Bot.onLogin chat credentials bc = format)
  /\ (forall name trail,
        Js.chars credentials = name ++ trail ->
        forallb notSpace name = true -> forallb Js.spaceChar trail = true ->
        Bot.onLogin chat credentials bc = format)
  /\ (forall name gap pass tail,
        Js.chars credentials = name ++ gap ++ pass ++ tail ->
        word name -> blank gap -> word pass -> spaced tail ->
        Bot.onLogin chat credentials bc =
        match Bot.loginWithCredentials (Js.concat name) (Js.concat pass)
                (Bot.server bc) with
        | Ok (Some u, _) =>
            Ok (Bot.sendMessage (Bot.greeting u),
                Bot.mkCtx (<[chat := u]> (Bot.sessions bc)) (Bot.server bc))
        | _ => denied
        end).
Proof.
  cbv zeta. split; [|split].
  - intros Hs. unfold Bot.onLogin, Js.split_spaces. cbv zeta.
    destruct Hs as [-> | (ch & r & -> & Hc)]; [reflexivity|].
    assert (Hsplit : Js.split_go [] false (ch :: r) =
                     EmptyString :: Js.split_go [] true r).
    { simpl. by rewrite Hc. }
    rewrite Hsplit. reflexivity.
  - intros name trail Hcs Hn Ht. unfold Bot.onLogin, Js.split_spaces. cbv zeta.
    rewrite Hcs.
    destruct (split_one_word name trail Hn Ht) as [-> | ->]; simpl.
    + by rewrite orb_true_r.
    + by rewrite orb_true_r.
  - intros name gap pass tail Hcs Hname Hgap Hpass Htail.
    destruct (split_two_words name gap pass tail Hname Hgap Hpass Htail)
      as [more Hsplit].
    pose proof (chars_not_empty credentials) as Hne. rewrite Hcs in Hne.
    apply Forall_app in Hne as [Hne1 Hne].
    apply Forall_app in Hne as [_ Hne]. apply Forall_app in Hne as [Hne2 _].
    destruct Hname as [Hn0 Hn], Hpass as [Hp0 Hp].
    pose proof (concat_not_empty name Hn0 Hne1) as Hn1.
    pose proof (concat_not_empty pass Hp0 Hne2) as Hp1.
    unfold Bot.onLogin, Js.split_spaces. cbv zeta. rewrite Hcs, Hsplit.
    change ((Js.concat name :: Js.concat pass :: more) !! 0%nat)
      with (Some (Js.concat name)).
    change ((Js.concat name :: Js.concat pass :: more) !! 1%nat)
      with (Some (Js.concat pass)).
    change (default EmptyString (Some (Js.concat name))) with (Js.concat name).
    change (default EmptyString (Some (Js.concat pass))) with (Js.concat pass).
    assert (Hf : falsy (Some (Js.concat name)) || falsy (Some (Js.concat pass))
                 = false).
    { simpl. by destruct (Js.concat name), (Js.concat pass). }
    rewrite Hf. unfold bind at 1, Bot.await, zoom.
    rewrite loginWithCredentials_spec.
    destruct bc as [ss srv]. simpl.
    destruct (Users.by_username_or_email _ _ (users srv)) as [r|];
      [|by destruct srv].
    destruct (bcrypt_compare (Js.concat pass) (Users.password_hash r));
      by destruct srv.
Qed.

End BotWords.
